(** * The MNIST training script: training loop, evaluation loop, orchestration

    A shallow embedding of [src/mnist/main.py].  The script drives a numeric
    library (tensors, automatic differentiation, Adadelta, the data loader);
    what the script itself fixes is the order of the calls, the values it
    accumulates in Python variables and the lines it prints.  The embedding
    therefore keeps the library behind three interfaces ([Arith], [TensorLib],
    [Optim]) and writes [Net.forward], [train], [test] and [main] over them in a
    state-and-exception monad whose state is the collection of mutable objects
    the script holds (model, optimizer, generator, gradient mode, console). *)

From Stdlib Require Import String.
From Stdlib Require Import ZArith List Bool Lia Permutation.
From Stdlib Require Import QArith Qcanon Qabs Qpower Lqa.
From Stdlib Require Import Floats.SpecFloat.
Import ListNotations.
Local Open Scope Z_scope.

Set Implicit Arguments.

(** ** Numbers

    Two number types occur in the script: the element type of tensors
    ([torch.float32]) and Python's own [float], reached through [.item()].
    Python integers are [Z]. *)

Record Arith : Type := {
  tfloat : Type;
  pyfloat : Type;
  t_of_int : Z -> tfloat;
  t_neg : tfloat -> tfloat;
  t_sum : list tfloat -> tfloat;          (* Tensor.sum() over a 1-d tensor *)
  t_div : tfloat -> tfloat -> tfloat;
  t_ltb : tfloat -> tfloat -> bool;       (* the order argmax goes by *)
  item : tfloat -> pyfloat;               (* Tensor.item() *)
  py_of_int : Z -> pyfloat;               (* int -> float coercion *)
  py_add : pyfloat -> pyfloat -> pyfloat;
  py_mul : pyfloat -> pyfloat -> pyfloat;
  py_div : pyfloat -> pyfloat -> pyfloat;
  py_leb : pyfloat -> pyfloat -> bool     (* x <= y *)
}.

(** ** The tensor library

    A batch tensor is the list of its slices along dimension 0; [Tensor] is one
    such slice (one sample).  Every layer of [Net] acts on each slice on its
    own, except dropout in training mode, which draws one mask for the batch.
    This is what the layers compute on real numbers; how the library's kernels
    round, which may vary with the shape of the batch, is outside the model. *)

Record TensorLib (A : Arith) : Type := {
  Tensor : Type;
  ConvW : Type;                            (* weight and bias of nn.Conv2d *)
  LinW : Type;                             (* weight and bias of nn.Linear *)
  RNG : Type;                              (* the process-wide generator *)
  conv2d : ConvW -> Tensor -> option Tensor;   (* None: shape mismatch *)
  linear : LinW -> Tensor -> option Tensor;    (* None: shape mismatch *)
  relu : Tensor -> Tensor;
  max_pool2d : Tensor -> Z -> Tensor;
  flatten : Tensor -> Tensor;              (* torch.flatten(x, 1), per slice *)
  log_softmax : Tensor -> Tensor;          (* F.log_softmax(x, dim=1), per slice *)
  scores : Tensor -> list (tfloat A);      (* the entries of a 1-d slice *)
  drop_units : Q -> RNG -> list Tensor -> list Tensor * RNG;
  random_ : RNG -> Z * RNG;                (* torch.empty((), dtype=int64).random_() *)
  randperm : RNG -> nat -> list nat * RNG;     (* torch.randperm(n, generator=...) *)
  manual_seed : Z -> RNG                   (* a generator seeded with an integer *)
}.

Arguments Tensor {A} t.
Arguments ConvW {A} t.
Arguments LinW {A} t.
Arguments RNG {A} t.
Arguments conv2d {A} t _ _.
Arguments linear {A} t _ _.
Arguments relu {A} t _.
Arguments max_pool2d {A} t _ _.
Arguments flatten {A} t _.
Arguments log_softmax {A} t _.
Arguments scores {A} t _.
Arguments drop_units {A} t _ _ _.
Arguments random_ {A} t _.
Arguments randperm {A} t _ _.
Arguments manual_seed {A} t _.

Section Objects.
Context {A : Arith} (L : TensorLib A).

(** The parameters of [Net]: the four layers that hold weights
    ([dropout1] and [dropout2] hold none). *)
Record NetParams : Type := {
  conv1 : ConvW L;
  conv2 : ConvW L;
  fc1 : LinW L;
  fc2 : LinW L
}.

(** What a tensor produced with gradient tracking remembers of the forward
    pass: enough to differentiate the loss it leads to. *)
Record GradFn : Type := {
  gf_params : NetParams;
  gf_training : bool;
  gf_rng : RNG L;                        (* generator state the masks came from *)
  gf_data : list (Tensor L)
}.

Inductive Reduction := Mean | Sum.

(** The output of [model(data)] and the 0-d tensor returned by [F.nll_loss]. *)
Record Output : Type := {
  o_rows : list (Tensor L);
  o_grad_fn : option GradFn
}.

Record Loss : Type := {
  l_value : tfloat A;
  l_grad_fn : option (GradFn * list Z * Reduction)
}.
End Objects.

(** Automatic differentiation and the Adadelta optimizer. *)
Record Optim (A : Arith) (L : TensorLib A) : Type := {
  Grads : Type;                            (* the .grad buffers of the parameters *)
  OptAcc : Type;                           (* square_avg and acc_delta *)
  g_zero : Grads;
  g_add : Grads -> Grads -> Grads;
  gradient : GradFn L -> list Z -> Reduction -> Grads;
  net_init : RNG L -> NetParams L * RNG L; (* Net(): random initial weights *)
  adadelta_init : NetParams L -> OptAcc;
  adadelta : pyfloat A -> OptAcc -> NetParams L -> Grads -> NetParams L * OptAcc
}.

Arguments Grads {A L} o.
Arguments OptAcc {A L} o.
Arguments g_zero {A L} o.
Arguments g_add {A L} o _ _.
Arguments gradient {A L} o _ _ _.
Arguments net_init {A L} o _.
Arguments adadelta_init {A L} o _.
Arguments adadelta {A L} o _ _ _ _.

(** ** Python-level data *)

Inductive Exn :=
| ZeroDivisionError
| IndexError          (* a label outside the row of class scores *)
| RuntimeError        (* shape mismatch; backward on a tensor without grad_fn;
                         a seed that does not fit 64 bits *)
| ValueError.         (* DataLoader: batch_size must be positive, nothing to
                         shuffle; Adadelta: invalid learning rate *)

Inductive Device := Cuda | Mps | Cpu.

(** The options of the argument parser, with the names of [args]. *)
Record Args (A : Arith) : Type := {
  batch_size : Z;
  test_batch_size : Z;
  epochs : Z;
  lr : pyfloat A;
  gamma : pyfloat A;
  no_cuda : bool;
  no_mps : bool;
  dry_run : bool;
  seed : Z;
  log_interval : Z;
  save_model : bool
}.

Arguments batch_size {A} a.
Arguments test_batch_size {A} a.
Arguments epochs {A} a.
Arguments lr {A} a.
Arguments gamma {A} a.
Arguments no_cuda {A} a.
Arguments no_mps {A} a.
Arguments dry_run {A} a.
Arguments seed {A} a.
Arguments log_interval {A} a.
Arguments save_model {A} a.

(** [range(a, b)]. *)
Definition range (a b : Z) : list Z :=
  map (fun i => a + Z.of_nat i) (seq 0 (Z.to_nat (b - a))).

(** [f] holds of the [fuel] integers from [n] on. *)
Fixpoint all_from (f : Z -> bool) (fuel : nat) (n : Z) : bool :=
  match fuel with
  | O => true
  | S k => f n && all_from f k (n + 1)
  end.

(** [enumerate(xs)]. *)
Fixpoint enumerate_from {X : Type} (i : Z) (xs : list X) : list (Z * X) :=
  match xs with
  | [] => []
  | x :: xs' => (i, x) :: enumerate_from (i + 1) xs'
  end.

Definition enumerate {X : Type} (xs : list X) : list (Z * X) := enumerate_from 0 xs.

(** The batches of a sequential pass: consecutive runs of [n] elements, the
    last one shorter when [n] does not divide the length. *)
Fixpoint chunks_fuel {X : Type} (fuel : nat) (n : nat) (l : list X) : list (list X) :=
  match fuel with
  | O => []
  | S fuel' =>
      match l with
      | [] => []
      | _ :: _ => firstn n l :: chunks_fuel fuel' n (skipn n l)
      end
  end.

Definition chunks {X : Type} (n : positive) (l : list X) : list (list X) :=
  chunks_fuel (length l) (Pos.to_nat n) l.

(** ** The objects of a run and the monad of the script *)

Section Script.
Context {A : Arith} {L : TensorLib A} (O : Optim L).

(** The two lines the script prints, as the tuples of values it formats. *)
Inductive Line :=
| TrainLine (epoch processed total : Z) (percent loss : pyfloat A)
| TestLine (avg_loss : pyfloat A) (correct total : Z) (percent : pyfloat A).

(** Calls into the library, in the order they are made. *)
Inductive Event :=
| EvTrainMode                               (* model.train() *)
| EvEvalMode                                (* model.eval() *)
| EvNoGradEnter                             (* torch.no_grad().__enter__ *)
| EvNoGradExit                              (* torch.no_grad().__exit__ *)
| EvIter (n : nat)                          (* iter(loader): n batches *)
| EvZeroGrad                                (* optimizer.zero_grad() *)
| EvForward (training grad : bool) (n : nat)  (* model(data), len(data) = n *)
| EvNllLoss (r : Reduction)                 (* F.nll_loss *)
| EvBackward                                (* loss.backward() *)
| EvOptStep                                 (* optimizer.step() *)
| EvSchedStep                               (* scheduler.step() *)
| EvPrint (l : Line)                        (* print *)
| EvSave (name : string).                   (* torch.save *)

Record World : Type := {
  w_params : NetParams L;                   (* model.parameters() *)
  w_training : bool;                        (* model.training *)
  w_grads : Grads O;                        (* p.grad for p in parameters *)
  w_acc : OptAcc O;                         (* optimizer.state *)
  w_lr : pyfloat A;                         (* optimizer.param_groups[0]['lr'] *)
  w_rng : RNG L;                            (* torch's default generator *)
  w_grad_enabled : bool;                    (* torch.is_grad_enabled() *)
  w_disk : list (string * NetParams L);     (* files written by torch.save *)
  w_log : list Event
}.

Definition set_params (p : NetParams L) (w : World) : World :=
  {| w_params := p; w_training := w_training w; w_grads := w_grads w;
     w_acc := w_acc w; w_lr := w_lr w; w_rng := w_rng w;
     w_grad_enabled := w_grad_enabled w; w_disk := w_disk w; w_log := w_log w |}.

Definition set_training (b : bool) (w : World) : World :=
  {| w_params := w_params w; w_training := b; w_grads := w_grads w;
     w_acc := w_acc w; w_lr := w_lr w; w_rng := w_rng w;
     w_grad_enabled := w_grad_enabled w; w_disk := w_disk w; w_log := w_log w |}.

Definition set_grads (g : Grads O) (w : World) : World :=
  {| w_params := w_params w; w_training := w_training w; w_grads := g;
     w_acc := w_acc w; w_lr := w_lr w; w_rng := w_rng w;
     w_grad_enabled := w_grad_enabled w; w_disk := w_disk w; w_log := w_log w |}.

Definition set_acc (a : OptAcc O) (w : World) : World :=
  {| w_params := w_params w; w_training := w_training w; w_grads := w_grads w;
     w_acc := a; w_lr := w_lr w; w_rng := w_rng w;
     w_grad_enabled := w_grad_enabled w; w_disk := w_disk w; w_log := w_log w |}.

Definition set_lr (x : pyfloat A) (w : World) : World :=
  {| w_params := w_params w; w_training := w_training w; w_grads := w_grads w;
     w_acc := w_acc w; w_lr := x; w_rng := w_rng w;
     w_grad_enabled := w_grad_enabled w; w_disk := w_disk w; w_log := w_log w |}.

Definition set_rng (r : RNG L) (w : World) : World :=
  {| w_params := w_params w; w_training := w_training w; w_grads := w_grads w;
     w_acc := w_acc w; w_lr := w_lr w; w_rng := r;
     w_grad_enabled := w_grad_enabled w; w_disk := w_disk w; w_log := w_log w |}.

Definition set_grad_enabled (b : bool) (w : World) : World :=
  {| w_params := w_params w; w_training := w_training w; w_grads := w_grads w;
     w_acc := w_acc w; w_lr := w_lr w; w_rng := w_rng w;
     w_grad_enabled := b; w_disk := w_disk w; w_log := w_log w |}.

Definition set_disk (d : list (string * NetParams L)) (w : World) : World :=
  {| w_params := w_params w; w_training := w_training w; w_grads := w_grads w;
     w_acc := w_acc w; w_lr := w_lr w; w_rng := w_rng w;
     w_grad_enabled := w_grad_enabled w; w_disk := d; w_log := w_log w |}.

Definition set_log (l : list Event) (w : World) : World :=
  {| w_params := w_params w; w_training := w_training w; w_grads := w_grads w;
     w_acc := w_acc w; w_lr := w_lr w; w_rng := w_rng w;
     w_grad_enabled := w_grad_enabled w; w_disk := w_disk w; w_log := l |}.

(** A statement either completes with a value or raises; the objects keep
    whatever was done to them before the exception. *)
Inductive Res (X : Type) : Type :=
| Ok (x : X)
| Raise (e : Exn).
Arguments Ok {X} x.
Arguments Raise {X} e.

Definition M (X : Type) : Type := World -> Res X * World.

Definition ret {X : Type} (x : X) : M X := fun w => (Ok x, w).

Definition bind {X Y : Type} (m : M X) (k : X -> M Y) : M Y :=
  fun w =>
    match m w with
    | (Ok x, w') => k x w'
    | (Raise e, w') => (Raise e, w')
    end.

Definition raise {X : Type} (e : Exn) : M X := fun w => (Raise e, w).
Definition gets {X : Type} (f : World -> X) : M X := fun w => (Ok (f w), w).
Definition modify (f : World -> World) : M unit := fun w => (Ok tt, f w).
Definition emit (e : Event) : M unit := modify (fun w => set_log (w_log w ++ [e]) w).

Notation "x <- m ;; k" := (bind m (fun x => k))
  (at level 61, m at next level, right associativity).
Notation "m ;;; k" := (bind m (fun _ => k))
  (at level 61, right associativity).

(** [for x in xs: body], where the body may [break]. *)
Inductive Ctl := Continue | Break.

Fixpoint for_each {X : Type} (xs : list X) (body : X -> M Ctl) : M unit :=
  match xs with
  | [] => ret tt
  | x :: xs' =>
      c <- body x ;;
      match c with
      | Break => ret tt
      | Continue => for_each xs' body
      end
  end.

(** A [for] loop without [break] that updates local variables [acc]. *)
Fixpoint for_fold {X S : Type} (xs : list X) (acc : S) (body : S -> X -> M S) : M S :=
  match xs with
  | [] => ret acc
  | x :: xs' => acc' <- body acc x ;; for_fold xs' acc' body
  end.

(** [with torch.no_grad(): body].  The previous mode is restored when the
    block is left, by completion or by an exception, which goes on. *)
Definition no_grad {X : Type} (body : M X) : M X :=
  fun w =>
    let prev := w_grad_enabled w in
    let '(_, w1) := emit EvNoGradEnter (set_grad_enabled false w) in
    let '(r, w2) := body w1 in
    let '(_, w3) := emit EvNoGradExit (set_grad_enabled prev w2) in
    (r, w3).

(** [a % b] on integers. *)
Definition py_mod (a b : Z) : M Z :=
  if b =? 0 then raise ZeroDivisionError else ret (a mod b).

(** [x / n] for a float [x] and an integer [n]. *)
Definition py_truediv (x : pyfloat A) (n : Z) : M (pyfloat A) :=
  if n =? 0 then raise ZeroDivisionError else ret (py_div A x (py_of_int A n)).

Definition len {X : Type} (l : list X) : Z := Z.of_nat (length l).

(** ** The data loader

    A sample is an image and its label.  One pass yields the dataset cut into
    batches of [batch_size].  Every pass draws the base seed of its iterator
    from the default generator; with [shuffle] the sampler draws a seed of its
    own from it as well, and the order of the pass is the permutation of the
    indices a generator with that seed gives. *)

Definition Sample : Type := Tensor L * Z.

Record DataLoader : Type := {
  dataset : list Sample;
  ld_batch_size : positive;
  ld_shuffle : bool
}.

(** [torch.utils.data.DataLoader(dataset, batch_size=..., shuffle=...)].  With
    [shuffle] the loader builds a [RandomSampler], which refuses an empty
    dataset; the [BatchSampler] refuses a batch size that is not positive. *)
Definition mkDataLoader (ds : list Sample) (bs : Z) (shuffle : bool) : M DataLoader :=
  if shuffle && (len ds =? 0) then raise ValueError
  else
    match bs with
    | Zpos p => ret {| dataset := ds; ld_batch_size := p; ld_shuffle := shuffle |}
    | _ => raise ValueError
    end.

(** [[dataset[i] for i in idxs]]. *)
Definition select (ds : list Sample) (idxs : list nat) : list Sample :=
  flat_map (fun i => match nth_error ds i with Some s => [s] | None => [] end) idxs.

(** [len(loader)]: the number of batches of a pass. *)
Definition loader_len (ld : DataLoader) : Z :=
  len (chunks (ld_batch_size ld) (dataset ld)).

(** [iter(loader)], run to the end: the batches of one pass. *)
Definition iter_loader (ld : DataLoader) : M (list (list Sample)) :=
  rng <- gets w_rng ;;
  let '(_, rng') := random_ L rng in        (* the base seed of the iterator *)
  modify (set_rng rng') ;;;
  order <- (if ld_shuffle ld then
              rng <- gets w_rng ;;
              let '(seed_, rng') := random_ L rng in
              modify (set_rng rng') ;;;
              let generator := manual_seed L seed_ in
              let '(idxs, _) := randperm L generator (length (dataset ld)) in
              ret (select (dataset ld) idxs)
            else ret (dataset ld)) ;;
  let batches := chunks (ld_batch_size ld) order in
  emit (EvIter (length batches)) ;;;
  ret batches.

(** The default collate function: a batch as [(data, target)]. *)
Definition collate (b : list Sample) : list (Tensor L) * list Z :=
  (map fst b, map snd b).

(** [x.to(device)]: the same values on another device. *)
Definition to {X : Type} (x : X) (device : Device) : X := x.

(** ** [class Net] *)

Fixpoint map_opt {X Y : Type} (f : X -> option Y) (l : list X) : option (list Y) :=
  match l with
  | [] => Some []
  | x :: l' =>
      match f x, map_opt f l' with
      | Some y, Some ys => Some (y :: ys)
      | _, _ => None
      end
  end.

(** A layer with weights applied to a batch; a slice of the wrong shape is a
    [RuntimeError]. *)
Definition layer (f : Tensor L -> option (Tensor L)) (x : list (Tensor L))
  : M (list (Tensor L)) :=
  match map_opt f x with
  | Some y => ret y
  | None => raise RuntimeError
  end.

(** [nn.Dropout(p)]: units are dropped in training mode only. *)
Definition dropout (p : Q) (x : list (Tensor L)) : M (list (Tensor L)) :=
  training <- gets w_training ;;
  if training then
    rng <- gets w_rng ;;
    let '(y, rng') := drop_units L p rng x in
    modify (set_rng rng') ;;;
    ret y
  else ret x.

Definition dropout1 := dropout (1 # 4)%Q.
Definition dropout2 := dropout (1 # 2)%Q.

(** [Net.forward]. *)
Definition forward (x : list (Tensor L)) : M (list (Tensor L)) :=
  self <- gets w_params ;;
  x <- layer (conv2d L (conv1 self)) x ;;
  let x := map (relu L) x in
  x <- layer (conv2d L (conv2 self)) x ;;
  let x := map (relu L) x in
  let x := map (fun t => max_pool2d L t 2) x in
  x <- dropout1 x ;;
  let x := map (flatten L) x in
  x <- layer (linear L (fc1 self)) x ;;
  let x := map (relu L) x in
  x <- dropout2 x ;;
  x <- layer (linear L (fc2 self)) x ;;
  let output := map (log_softmax L) x in
  ret output.

(** [model(data)]: the forward pass, recorded for differentiation when
    gradient tracking is on. *)
Definition call_model (data : list (Tensor L)) : M (Output L) :=
  training <- gets w_training ;;
  grad <- gets w_grad_enabled ;;
  emit (EvForward training grad (length data)) ;;;
  self <- gets w_params ;;
  rng <- gets w_rng ;;
  rows <- forward data ;;
  ret {| o_rows := rows;
         o_grad_fn := if grad
                      then Some {| gf_params := self; gf_training := training;
                                   gf_rng := rng; gf_data := data |}
                      else None |}.

Definition model_train : M unit := emit EvTrainMode ;;; modify (set_training true).
Definition model_eval : M unit := emit EvEvalMode ;;; modify (set_training false).

(** ** Loss and accuracy *)

(** The term of label [t] under the row of log-probabilities [row], for a
    label that counts: minus the entry of the row at the label. *)
Definition nll (row : Tensor L) (t : Z) : option (tfloat A) :=
  if t <? 0 then None
  else option_map (t_neg A) (nth_error (scores L row) (Z.to_nat t)).

(** The default of the parameter [ignore_index] of [F.nll_loss]. *)
Definition ignore_index : Z := -100.

(** The rows [F.nll_loss] counts: those whose label is not [ignore_index]. *)
Definition counted (rt : Tensor L * Z) : bool := negb (snd rt =? ignore_index).

(** [F.nll_loss(output, target, reduction=...)]; the default reduction is the
    mean over the rows that count. *)
Definition nll_loss (output : Output L) (target : list Z) (reduction : Reduction)
  : M (Loss L) :=
  emit (EvNllLoss reduction) ;;;
  match map_opt (fun rt => nll (fst rt) (snd rt))
                (filter counted (combine (o_rows output) target)) with
  | None => raise IndexError
  | Some losses =>
      let total := t_sum A losses in
      ret {| l_value := match reduction with
                        | Sum => total
                        | Mean => t_div A total (t_of_int A (len losses))
                        end;
             l_grad_fn := option_map (fun g => (g, target, reduction))
                                     (o_grad_fn output) |}
  end.

(** [row.argmax()]: the first index that holds the largest entry. *)
Fixpoint argmax_from (best : tfloat A) (besti i : Z) (l : list (tfloat A)) : Z :=
  match l with
  | [] => besti
  | x :: l' =>
      if t_ltb A best x then argmax_from x i (i + 1) l'
      else argmax_from best besti (i + 1) l'
  end.

Definition argmax (row : Tensor L) : option Z :=
  match scores L row with
  | [] => None
  | x :: l => Some (argmax_from x 0 1 l)
  end.

(** [output.argmax(dim=1, keepdim=True)]. *)
Definition argmax_rows (output : Output L) : M (list Z) :=
  match map_opt argmax (o_rows output) with
  | Some pred => ret pred
  | None => raise IndexError
  end.

(** [pred.eq(target.view_as(pred)).sum().item()]. *)
Definition count_eq (pred target : list Z) : Z :=
  len (filter (fun pt => fst pt =? snd pt) (combine pred target)).

(** ** The optimizer *)

Definition zero_grad : M unit := emit EvZeroGrad ;;; modify (set_grads (g_zero O)).

Definition backward (loss : Loss L) : M unit :=
  emit EvBackward ;;;
  match l_grad_fn loss with
  | None => raise RuntimeError
  | Some (g, target, reduction) =>
      modify (fun w => set_grads (g_add O (w_grads w) (gradient O g target reduction)) w)
  end.

Definition optimizer_step : M unit :=
  emit EvOptStep ;;;
  modify (fun w =>
    let '(p, a) := adadelta O (w_lr w) (w_acc w) (w_params w) (w_grads w) in
    set_acc a (set_params p w)).

Definition print (l : Line) : M unit := emit (EvPrint l).

(** ** [train] *)

(** The body of the loop of [train], for the batch numbered [batch_idx]. *)
Definition train_body (args : Args A) (device : Device) (train_loader : DataLoader)
           (epoch : Z) (item_ : Z * list Sample) : M Ctl :=
  let '(batch_idx, batch) := item_ in
  let '(data, target) := collate batch in
  let data := to data device in
  let target := to target device in
  zero_grad ;;;
  output <- call_model data ;;
  loss <- nll_loss output target Mean ;;
  backward loss ;;;
  optimizer_step ;;;
  r <- py_mod batch_idx (log_interval args) ;;
  if r =? 0 then
    percent <- py_truediv (py_mul A (py_of_int A 100) (py_of_int A batch_idx))
                          (loader_len train_loader) ;;
    print (TrainLine epoch (batch_idx * len data) (len (dataset train_loader))
                     percent (item A (l_value loss))) ;;;
    if dry_run args then ret Break else ret Continue
  else ret Continue.

Definition train (args : Args A) (device : Device) (train_loader : DataLoader)
           (epoch : Z) : M unit :=
  model_train ;;;
  batches <- iter_loader train_loader ;;
  for_each (enumerate batches) (train_body args device train_loader epoch).

(** ** [test] *)

(** The body of the loop of [test]: the local variables [test_loss] and
    [correct] before the batch, and after it. *)
Definition test_body (device : Device) (acc : pyfloat A * Z) (batch : list Sample)
  : M (pyfloat A * Z) :=
  let '(test_loss, correct) := acc in
  let '(data, target) := collate batch in
  let data := to data device in
  let target := to target device in
  output <- call_model data ;;
  loss <- nll_loss output target Sum ;;
  let test_loss := py_add A test_loss (item A (l_value loss)) in
  pred <- argmax_rows output ;;
  let correct := correct + count_eq pred target in
  ret (test_loss, correct).

Definition test (device : Device) (test_loader : DataLoader) : M unit :=
  model_eval ;;;
  let test_loss := py_of_int A 0 in
  let correct := 0 in
  acc <- no_grad (
    batches <- iter_loader test_loader ;;
    for_fold batches (test_loss, correct) (test_body device)) ;;
  let '(test_loss, correct) := acc in
  test_loss <- py_truediv test_loss (len (dataset test_loader)) ;;
  percent <- py_truediv (py_mul A (py_of_int A 100) (py_of_int A correct))
                        (len (dataset test_loader)) ;;
  print (TestLine test_loss correct (len (dataset test_loader)) percent).

(** ** The rate scheduler

    [StepLR] is imported from the library; its source is not part of the
    script. *)

Record StepLR : Type := {
  step_index : Z;
  base_lr : pyfloat A;
  decay : pyfloat A;
  step_size : Z
}.

(** Modelled from the spec: the body of [StepLR.step], which the script
    imports; section 4.4 gives it as "multiplies the Optimizer's step-size by
    the decay factor if the current step index is a multiple of the decay
    interval, then increments the step index". *)
Definition advance (s : StepLR) (rate : pyfloat A) : StepLR * pyfloat A :=
  ({| step_index := step_index s + 1; base_lr := base_lr s;
      decay := decay s; step_size := step_size s |},
   if step_index s mod step_size s =? 0 then py_mul A rate (decay s) else rate).

(** [StepLR(optimizer, step_size=..., gamma=...)]. *)
Definition mkStepLR (size : Z) (g : pyfloat A) : M StepLR :=
  rate <- gets w_lr ;;
  ret {| step_index := 0; base_lr := rate; decay := g; step_size := size |}.

(** [scheduler.step()]. *)
Definition scheduler_step (s : StepLR) : M StepLR :=
  emit EvSchedStep ;;;
  rate <- gets w_lr ;;
  let '(s', rate') := advance s rate in
  modify (set_lr rate') ;;;
  ret s'.

(** ** [main] *)

(** What the script finds around it: the accelerators and the two MNIST
    splits. *)
Record Env : Type := {
  cuda_is_available : bool;
  mps_is_available : bool;
  mnist_train : list Sample;
  mnist_test : list Sample
}.

(** [Net().to(device)]: fresh weights, training mode, no gradients yet. *)
Definition new_Net (device : Device) : M unit :=
  rng <- gets w_rng ;;
  let '(p, rng') := net_init O rng in
  modify (set_rng rng') ;;;
  modify (set_params (to p device)) ;;;
  modify (set_training true) ;;;
  modify (set_grads (g_zero O)).

(** [optim.Adadelta(model.parameters(), lr=...)], which refuses a rate [lr]
    unless [0.0 <= lr]. *)
Definition new_Adadelta (rate : pyfloat A) : M unit :=
  if py_leb A (py_of_int A 0) rate
  then modify (fun w => set_lr rate (set_acc (adadelta_init O (w_params w)) w))
  else raise ValueError.

(** The seeds [torch.manual_seed] takes:
    [-0x8000_0000_0000_0000] to [0xffff_ffff_ffff_ffff]. *)
Definition seed_min : Z := - 2 ^ 63.
Definition seed_max : Z := 2 ^ 64 - 1.

(** [torch.manual_seed(seed)], which refuses any other seed. *)
Definition torch_manual_seed (s : Z) : M unit :=
  if (seed_min <=? s) && (s <=? seed_max)
  then modify (set_rng (manual_seed L s))
  else raise RuntimeError.

(** [torch.save(model.state_dict(), name)]. *)
Definition torch_save (name : string) : M unit :=
  emit (EvSave name) ;;;
  modify (fun w => set_disk ((name, w_params w) :: w_disk w) w).

Definition main (args : Args A) (env : Env) : M unit :=
  let use_cuda := negb (no_cuda args) && cuda_is_available env in
  let use_mps := negb (no_mps args) && mps_is_available env in
  torch_manual_seed (seed args) ;;;
  let device := if use_cuda then Cuda else if use_mps then Mps else Cpu in
  let shuffle := use_cuda in
  let dataset1 := mnist_train env in
  let dataset2 := mnist_test env in
  train_loader <- mkDataLoader dataset1 (batch_size args) shuffle ;;
  test_loader <- mkDataLoader dataset2 (test_batch_size args) shuffle ;;
  new_Net device ;;;
  new_Adadelta (lr args) ;;;
  scheduler <- mkStepLR 1 (gamma args) ;;
  _ <- for_fold (range 1 (epochs args + 1)) scheduler (fun scheduler epoch =>
         train args device train_loader epoch ;;;
         test device test_loader ;;;
         scheduler_step scheduler) ;;
  if save_model args then torch_save "mnist_cnn.pt" else ret tt.

(** The lines printed so far. *)
Definition stdout (w : World) : list Line :=
  flat_map (fun e => match e with EvPrint l => [l] | _ => [] end) (w_log w).
End Script.

Arguments Ok {X} x.
Arguments Raise {X} e.

(** ** Exact arithmetic

    Losses and rates as rational numbers: both number types are [Qc] and no
    operation rounds. *)

Module Exact.
Definition ltb (x y : Qc) : bool :=
  match (x ?= y)%Qc with Lt => true | _ => false end.

Definition leb (x y : Qc) : bool :=
  match (x ?= y)%Qc with Gt => false | _ => true end.

Definition of_int (z : Z) : Qc := Q2Qc (inject_Z z).

Definition arith : Arith :=
  {| tfloat := Qc; pyfloat := Qc;
     t_of_int := of_int; t_neg := Qcopp;
     t_sum := fun l => fold_right Qcplus (of_int 0) l;
     t_div := Qcdiv; t_ltb := ltb;
     item := fun x => x;
     py_of_int := of_int; py_add := Qcplus; py_mul := Qcmult; py_div := Qcdiv;
     py_leb := leb |}.
End Exact.

(** ** IEEE 754 arithmetic

    Tensor elements are binary32, Python floats are binary64, every operation
    rounds to nearest, ties to even. *)

Module IEEE.
Definition b32_add := SFadd 24 128.
Definition b32_div := SFdiv 24 128.
Definition b32_of_int (z : Z) : spec_float := binary_normalize 24 128 z 0 false.

Definition b64_add := SFadd 53 1024.
Definition b64_mul := SFmul 53 1024.
Definition b64_div := SFdiv 53 1024.
Definition b64_of_int (z : Z) : spec_float := binary_normalize 53 1024 z 0 false.

(** A binary32 value read as a binary64 value: the same number, with the
    mantissa widened to 53 bits. *)
Definition widen (x : spec_float) : spec_float :=
  match x with
  | S754_finite s m e => binary_round 53 1024 s m e
  | _ => x
  end.

(** The sum of a 1-d tensor, accumulated from the left.  The library may add
    in another order; sums of one or two elements do not depend on it. *)
Definition b32_sum (l : list spec_float) : spec_float :=
  fold_left b32_add l (S754_zero false).

(** The order [argmax] goes by: [x < y], with NaN above every number. *)
Definition nan_ltb (x y : spec_float) : bool :=
  match x, y with
  | S754_nan, _ => false
  | _, S754_nan => true
  | _, _ => SFltb x y
  end.

Definition arith : Arith :=
  {| tfloat := spec_float; pyfloat := spec_float;
     t_of_int := b32_of_int; t_neg := SFopp;
     t_sum := b32_sum; t_div := b32_div; t_ltb := nan_ltb;
     item := widen;
     py_of_int := b64_of_int; py_add := b64_add; py_mul := b64_mul;
     py_div := b64_div; py_leb := SFleb |}.

(** The same value, with the same representation. *)
Definition same (x y : spec_float) : bool :=
  match x, y with
  | S754_zero s, S754_zero s' => Bool.eqb s s'
  | S754_infinity s, S754_infinity s' => Bool.eqb s s'
  | S754_nan, S754_nan => true
  | S754_finite s m e, S754_finite s' m' e' =>
      Bool.eqb s s' && (m =? m')%positive && (e =? e')
  | _, _ => false
  end.

(** The place of a value in the order of [nan_ltb]: the class (NaN, the
    infinities, the signs), then exponent and mantissa. *)
Definition rank (x : spec_float) : Z * Z * Z :=
  match x with
  | S754_nan => (3, 0, 0)
  | S754_infinity false => (2, 0, 0)
  | S754_infinity true => (-2, 0, 0)
  | S754_zero _ => (0, 0, 0)
  | S754_finite false m e => (1, e, Zpos m)
  | S754_finite true m e => (-1, - e, - Zpos m)
  end.

Definition lex (a b : Z * Z * Z) : Prop :=
  fst (fst a) < fst (fst b) \/
  fst (fst a) = fst (fst b) /\
  (snd (fst a) < snd (fst b) \/ snd (fst a) = snd (fst b) /\ snd a < snd b).

(** The number a finite value stands for. *)
Definition value (x : spec_float) : Q :=
  match x with
  | S754_finite s m e => ((if s then -1 else 1) * inject_Z (Zpos m) * 2 ^ e)%Q
  | _ => 0%Q
  end.

(** A normal binary64 number: finite, with a mantissa of 53 bits. *)
Definition normal (x : spec_float) : bool :=
  match x with
  | S754_finite _ m _ => (digits2_pos m =? 53)%positive
  | _ => false
  end.

(** The relative error of one rounded operation on normal binary64 numbers
    is at most [1 / (2^53 - 1)]. *)
Definition eps : Q := 1 # 9007199254740991.

(** Where the bits a right shift by [log2 P] dropped, [rem], lie in the
    interval of length [P]: at its start, in its first half, at its middle,
    in its second half; [r] and [s] are the round and sticky bits. *)
Definition located (P rem : Z) (r s : bool) : Prop :=
  match r, s with
  | false, false => rem = 0
  | false, true => 0 < 2 * rem < P
  | true, false => 2 * rem = P
  | true, true => P < 2 * rem
  end.

End IEEE.

(** ** A table model

    A tensor library in which every layer returns its input: the images of a
    dataset are then the rows of log-probabilities the model assigns to them.
    Layers with weights reject an empty slice, as they reject a wrong shape.
    The generator is a counter, a draw from it is its count; a shuffled pass
    runs through the dataset backwards. *)

Module Table.
Section Lib.
Variable A : Arith.

Definition checked (x : list (tfloat A)) : option (list (tfloat A)) :=
  match x with
  | [] => None
  | _ :: _ => Some x
  end.

Definition lib : TensorLib A :=
  {| Tensor := list (tfloat A); ConvW := unit; LinW := unit; RNG := Z;
     conv2d := fun _ x => checked x;
     linear := fun _ x => checked x;
     relu := fun x => x;
     max_pool2d := fun x _ => x;
     flatten := fun x => x;
     log_softmax := fun x => x;
     scores := fun x => x;
     drop_units := fun _ r xs => (xs, r + 1);
     random_ := fun r => (r, r + 1);
     randperm := fun r n => (rev (seq 0 n), r + 1);
     manual_seed := fun s => s |}.

Definition weights : NetParams lib :=
  Build_NetParams lib tt tt tt tt.

(** Gradients count the backward passes accumulated into them, the
    optimizer state counts the gradients applied. *)
Definition optim : Optim lib :=
  @Build_Optim A lib Z Z 0 Z.add
    (fun _ _ _ => 1)
    (fun r : Z => (weights, r + 1))
    (fun _ => 0)
    (fun _ (acc : Z) p (g : Z) => (p, acc + g)).

(** The objects of a process that has just started. *)
Definition world0 (rate : pyfloat A) : World optim :=
  @Build_World A lib optim weights true 0 0 rate 0 true [] [].
End Lib.
End Table.

(** ** Reference definitions

    What the claims speak of, written without the loops: the forward pass on
    one sample in evaluation mode, the loss and the verdict of one sample, the
    totals over a dataset, a training pass stopped after [n] batches, the
    sequence of epochs. *)

Section Reference.
Context {A : Arith} {L : TensorLib A} (O : Optim L).

Definition obind {X Y : Type} (o : option X) (f : X -> option Y) : option Y :=
  match o with
  | Some x => f x
  | None => None
  end.

(** The layers of [Net] on one slice, dropout being the identity. *)
Definition eval_row (p : NetParams L) (x : Tensor L) : option (Tensor L) :=
  obind (conv2d L (conv1 p) x) (fun x =>
  obind (conv2d L (conv2 p) (relu L x)) (fun x =>
  obind (linear L (fc1 p) (flatten L (max_pool2d L (relu L x) 2))) (fun x =>
  obind (linear L (fc2 p) (relu L x)) (fun x =>
  Some (log_softmax L x))))).

Definition sample_nll (p : NetParams L) (s : Sample) : option (tfloat A) :=
  obind (eval_row p (fst s)) (fun row => nll row (snd s)).

Definition sample_hit (p : NetParams L) (s : Sample) : option bool :=
  obind (eval_row p (fst s)) (fun row =>
  option_map (fun k => k =? snd s) (argmax row)).

(** The model gives sample [s] a row of scores that has an entry for its
    label or, when the label is the ignored one, an entry at all. *)
Definition evaluable (p : NetParams L) (s : Sample) : bool :=
  match eval_row p (fst s) with
  | None => false
  | Some row =>
      if snd s =? ignore_index
      then match scores L row with [] => false | _ :: _ => true end
      else match nll row (snd s) with Some _ => true | None => false end
  end.

Definition is_hit (p : NetParams L) (s : Sample) : bool :=
  match sample_hit p s with
  | Some true => true
  | _ => false
  end.

(** The per-sample losses of the samples of a list that count, as tensor
    elements. *)
Definition sample_losses (p : NetParams L) (ds : list Sample) : list (tfloat A) :=
  flat_map (fun s => if snd s =? ignore_index then []
                     else match sample_nll p s with
                          | Some x => [x]
                          | None => []
                          end) ds.

(** The loss of one batch under sum reduction, read with [.item()]. *)
Definition batch_loss (p : NetParams L) (b : list Sample) : pyfloat A :=
  item A (t_sum A (sample_losses p b)).

(** The batch losses added up one after the other, from 0. *)
Definition accumulate (p : NetParams L) (batches : list (list Sample)) : pyfloat A :=
  fold_left (py_add A) (map (batch_loss p) batches) (py_of_int A 0).

(** The number of samples whose arg-max class is their label. *)
Definition hits (p : NetParams L) (ds : list Sample) : Z :=
  len (filter (is_hit p) ds).

(** [100. * c / n]. *)
Definition percent (c n : Z) : pyfloat A :=
  py_div A (py_mul A (py_of_int A 100) (py_of_int A c)) (py_of_int A n).

(** [k] is the first index at which the list [l] has a largest entry: no
    entry is above the one at [k], every entry before it is below. *)
Definition first_max (l : list (tfloat A)) (k : Z) : Prop :=
  0 <= k /\
  exists x,
    nth_error l (Z.to_nat k) = Some x /\
    (forall j y, nth_error l j = Some y -> t_ltb A x y = false) /\
    (forall j y, nth_error l j = Some y -> (j < Z.to_nat k)%nat -> t_ltb A y x = true).

(** The comparison of tensor elements is a strict order, total up to
    equivalence: of two elements one of which is below the other, any third is
    above the lower or below the upper. *)
Record Ordered : Prop := {
  ltb_asym : forall x y, t_ltb A x y = true -> t_ltb A y x = false;
  ltb_cotrans : forall x y z,
    t_ltb A x y = true -> t_ltb A x z = true \/ t_ltb A z y = true
}.

(** The lines among some events. *)
Definition printed (l : list (Event (A:=A))) : list (Line (A:=A)) :=
  flat_map (fun e => match e with EvPrint x => [x] | _ => [] end) l.

(** A progress line of epoch [epoch]; the summary line of an evaluation
    pass. *)
Definition is_progress_of (epoch : Z) (l : Line (A:=A)) : bool :=
  match l with
  | TrainLine e _ _ _ _ => e =? epoch
  | TestLine _ _ _ _ => false
  end.

Definition is_summary (l : Line (A:=A)) : bool :=
  match l with
  | TrainLine _ _ _ _ _ => false
  | TestLine _ _ _ _ => true
  end.

(** The line [test] prints for a pass over [batches]: the accumulated loss
    divided by the size of the dataset, the hits, the size, the percentage. *)
Definition test_report (p : NetParams L) (ds : list Sample)
           (batches : list (list Sample)) : Line (A:=A) :=
  TestLine (py_div A (accumulate p batches) (py_of_int A (len ds)))
           (hits p ds) (len ds) (percent (hits p ds) (len ds)).

(** ** The schedule and the run *)

(** [n] advances of the scheduler, from scheduler state [s] and step-size
    [rate]. *)
Definition advances (n : nat) (s : StepLR (A:=A)) (rate : pyfloat A)
  : StepLR (A:=A) * pyfloat A :=
  Nat.iter n (fun sr => advance (fst sr) (snd sr)) (s, rate).

(** The epochs [es], one after the other: each is a training pass that
    completes, then an evaluation pass that completes, then one advance of the
    scheduler. *)
Inductive Epochs (args : Args A) (device : Device)
          (train_loader test_loader : DataLoader (L:=L))
  : list Z -> StepLR (A:=A) -> World O -> StepLR (A:=A) -> World O -> Prop :=
| Epochs_done s w : Epochs args device train_loader test_loader [] s w s w
| Epochs_next epoch es s w w1 w2 s1 w3 s' w' :
    train args device train_loader epoch w = (Ok tt, w1) ->
    test device test_loader w1 = (Ok tt, w2) ->
    scheduler_step s w2 = (Ok s1, w3) ->
    Epochs args device train_loader test_loader es s1 w3 s' w' ->
    Epochs args device train_loader test_loader (epoch :: es) s w s' w'.

(** The events that open a training pass or an evaluation pass, advance the
    scheduler, or save the model. *)
Definition is_phase (e : Event (A:=A)) : bool :=
  match e with
  | EvTrainMode | EvEvalMode | EvSchedStep | EvSave _ => true
  | _ => false
  end.

Definition phases (l : list (Event (A:=A))) : list (Event (A:=A)) :=
  filter is_phase l.

(** The device the script selects. *)
Definition device_of (args : Args A) (env : Env (L:=L)) : Device :=
  if negb (no_cuda args) && cuda_is_available env then Cuda
  else if negb (no_mps args) && mps_is_available env then Mps
  else Cpu.

(** The options and the surroundings with which [main] gets past its set-up:
    a seed of 64 bits, positive batch sizes, datasets that are not empty where
    the loaders shuffle (on CUDA), a rate that Adadelta takes. *)
Definition accepted (args : Args A) (env : Env (L:=L)) : Prop :=
  seed_min <= seed args <= seed_max /\
  0 < batch_size args /\
  0 < test_batch_size args /\
  (negb (no_cuda args) && cuda_is_available env = true ->
   mnist_train env <> [] /\ mnist_test env <> []) /\
  py_leb A (py_of_int A 0) (lr args) = true.

(** The events a computation added to the log. *)
Definition new_events (w w' : World O) : list (Event (A:=A)) :=
  skipn (length (w_log w)) (w_log w').

Definition count_events (f : Event (A:=A) -> bool) (l : list (Event (A:=A))) : nat :=
  length (filter f l).

Definition is_zero_grad (e : Event (A:=A)) : bool :=
  match e with EvZeroGrad => true | _ => false end.

Definition is_opt_step (e : Event (A:=A)) : bool :=
  match e with EvOptStep => true | _ => false end.

Definition is_forward (e : Event (A:=A)) : bool :=
  match e with EvForward _ _ _ => true | _ => false end.

Definition is_print (e : Event (A:=A)) : bool :=
  match e with EvPrint _ => true | _ => false end.

Definition is_save (e : Event (A:=A)) : bool :=
  match e with EvSave _ => true | _ => false end.

(** A forward pass that recorded nothing for differentiation. *)
Definition untracked (e : Event (A:=A)) : bool :=
  match e with EvForward _ grad _ => negb grad | _ => true end.

(** ** Training passes *)

Definition set_dry_run (b : bool) (args : Args A) : Args A :=
  {| batch_size := batch_size args; test_batch_size := test_batch_size args;
     epochs := epochs args; lr := lr args; gamma := gamma args;
     no_cuda := no_cuda args; no_mps := no_mps args; dry_run := b;
     seed := seed args; log_interval := log_interval args;
     save_model := save_model args |}.

Definition set_log_interval (k : Z) (args : Args A) : Args A :=
  {| batch_size := batch_size args; test_batch_size := test_batch_size args;
     epochs := epochs args; lr := lr args; gamma := gamma args;
     no_cuda := no_cuda args; no_mps := no_mps args; dry_run := dry_run args;
     seed := seed args; log_interval := k;
     save_model := save_model args |}.

Definition set_save_model (b : bool) (args : Args A) : Args A :=
  {| batch_size := batch_size args; test_batch_size := test_batch_size args;
     epochs := epochs args; lr := lr args; gamma := gamma args;
     no_cuda := no_cuda args; no_mps := no_mps args; dry_run := dry_run args;
     seed := seed args; log_interval := log_interval args;
     save_model := b |}.

Definition set_batch_size (n : Z) (args : Args A) : Args A :=
  {| batch_size := n; test_batch_size := test_batch_size args;
     epochs := epochs args; lr := lr args; gamma := gamma args;
     no_cuda := no_cuda args; no_mps := no_mps args; dry_run := dry_run args;
     seed := seed args; log_interval := log_interval args;
     save_model := save_model args |}.

Definition set_epochs (n : Z) (args : Args A) : Args A :=
  {| batch_size := batch_size args; test_batch_size := test_batch_size args;
     epochs := n; lr := lr args; gamma := gamma args;
     no_cuda := no_cuda args; no_mps := no_mps args; dry_run := dry_run args;
     seed := seed args; log_interval := log_interval args;
     save_model := save_model args |}.

(** The control run: [train] without the dry-run flag, stopped when [n]
    batches have been processed. *)
Definition train_upto (n : nat) (args : Args A) (device : Device)
           (train_loader : DataLoader) (epoch : Z) : M O unit :=
  bind (model_train (O:=O)) (fun _ =>
  bind (iter_loader train_loader) (fun batches =>
  for_each (firstn n (enumerate batches))
           (train_body (set_dry_run false args) device train_loader epoch))).

(** The library calls one batch of [n] samples takes, in order. *)
Definition cycle (n : nat) : list (Event (A:=A)) :=
  [EvZeroGrad; EvForward true true n; EvNllLoss Mean; EvBackward; EvOptStep].

(** The log without the printed lines. *)
Definition calls (l : list (Event (A:=A))) : list (Event (A:=A)) :=
  filter (fun e => negb (is_print e)) l.

(** What the forward pass on batch [b] records in state [w]. *)
Definition batch_grad_fn (w : World O) (b : list Sample) : GradFn L :=
  {| gf_params := w_params w; gf_training := w_training w;
     gf_rng := w_rng w; gf_data := map fst b |}.

(** The gradient buffers after the backward pass on batch [b] alone. *)
Definition batch_grads (w : World O) (b : list Sample) : Grads O :=
  g_add O (g_zero O) (gradient O (batch_grad_fn w b) (map snd b) Mean).

(** One Adadelta update from state [w] with the gradient of batch [b] alone:
    the new parameters and the new optimizer state. *)
Definition batch_update (w : World O) (b : list Sample) : NetParams L * OptAcc O :=
  adadelta O (w_lr w) (w_acc w) (w_params w) (batch_grads w b).

(** The state in which the forward pass on batch [b] runs, in a round of the
    training loop entered in state [w]: gradients reset, the call logged. *)
Definition forward_state (w : World O) (b : list (@Sample A L)) : World O :=
  set_log ((w_log w ++ [EvZeroGrad]) ++
           [EvForward (w_training w) (w_grad_enabled w) (length (map fst b))])
          (set_grads (g_zero O) w).

(** The per-sample losses of rows of log-probabilities against labels, for
    the rows that count. *)
Definition row_losses (rows : list (Tensor L)) (target : list Z)
  : option (list (tfloat A)) :=
  map_opt (fun rt => nll (fst rt) (snd rt)) (filter counted (combine rows target)).

(** The batch-averaged loss: the sum of the losses divided by their number. *)
Definition mean_loss (losses_ : list (tfloat A)) : tfloat A :=
  t_div A (t_sum A losses_) (t_of_int A (len losses_)).

(** The negative log-likelihoods of rows of log-probabilities paired with
    labels: for each row whose label is not -100, in order, minus the entry
    the row has at its label. *)
Inductive nlls : list (Tensor L * Z) -> list (tfloat A) -> Prop :=
| nlls_nil : nlls [] []
| nlls_ignored row t pairs xs :
    t = -100 ->
    nlls pairs xs ->
    nlls ((row, t) :: pairs) xs
| nlls_counted row t y pairs xs :
    t <> -100 ->
    0 <= t ->
    nth_error (scores L row) (Z.to_nat t) = Some y ->
    nlls pairs xs ->
    nlls ((row, t) :: pairs) (t_neg A y :: xs).

(** [torch.randperm] returns a permutation of the indices. *)
Definition randperm_ok : Prop :=
  forall r n, Permutation (fst (randperm L r n)) (seq 0 n).

(** Nothing but the generator changed. *)
Definition only_rng (w w' : World O) : Prop := w' = set_rng (w_rng w') w.

(** Nothing but the console changed. *)
Definition only_log (w w' : World O) : Prop := w' = set_log (w_log w') w.

(** ** Relations between the objects before and after a computation *)

(** [m] takes every state to one related to it by [R], whether it completes
    or raises. *)
Definition preserves {X : Type} (R : World O -> World O -> Prop) (m : M O X) : Prop :=
  forall w, R w (snd (m w)).

(** The component [f] of the state is left as it was. *)
Definition keeps {X : Type} (f : World O -> X) (w w' : World O) : Prop :=
  f w' = f w.

(** The log grew by events that all satisfy [P]. *)
Definition logs (P : Event (A:=A) -> bool) (w w' : World O) : Prop :=
  exists l, w_log w' = w_log w ++ l /\ forallb P l = true.

(** From a state where the flag [f] is [b], the flag is still [b] afterwards
    and the log grew by events that satisfy [P]. *)
Definition steady (f : World O -> bool) (b : bool) (P : Event (A:=A) -> bool)
           (w w' : World O) : Prop :=
  f w = b -> f w' = b /\ logs P w w'.

(** With gradient tracking off, it stays off and no forward pass is
    recorded. *)
Definition tracking_off : World O -> World O -> Prop :=
  steady (@w_grad_enabled A L O) false untracked.

(** Model, gradients, optimizer and files are as they were. *)
Definition frozen (w w' : World O) : Prop :=
  w_params w' = w_params w /\ w_grads w' = w_grads w /\ w_acc w' = w_acc w /\
  w_lr w' = w_lr w /\ w_disk w' = w_disk w.

(** A forward pass made in training mode, in evaluation mode. *)
Definition in_training (e : Event (A:=A)) : bool :=
  match e with EvForward training _ _ => training | _ => true end.

Definition in_evaluation (e : Event (A:=A)) : bool :=
  match e with EvForward training _ _ => negb training | _ => true end.

(** The value or the exception of an optional result. *)
Definition or_raise {X : Type} (ex : Exn) (o : option X) : Res X :=
  match o with
  | Some x => Ok x
  | None => Raise ex
  end.
End Reference.

Arguments logs {A L O} P w w'.
Arguments tracking_off {A L O} _ _.
Arguments frozen {A L O} w w'.
Arguments only_rng {A L O} w w'.
Arguments only_log {A L O} w w'.
Arguments randperm_ok {A} L.
Arguments Ordered A : clear implicits.

(** ** Concrete runs

    Small datasets for the table model, in exact and in IEEE arithmetic. *)

Module Runs.

(** *** Exact arithmetic: three samples of three classes *)

Definition q (z : Z) : Qc := Exact.of_int z.

Definition lib : TensorLib Exact.arith := Table.lib Exact.arith.
Definition optim : Optim lib := Table.optim Exact.arith.

(** The rows are the log-probabilities the model gives to classes 0, 1, 2;
    the first and the third sample are hits. *)
Definition samples : list (Sample (L:=lib)) :=
  [ ([q (-1); q (-2); q (-3)], 0);
    ([q (-3); q (-1); q (-2)], 0);
    ([q (-2); q (-3); q (-1)], 2) ].

Definition loader (size : positive) (shuffle : bool) : DataLoader (L:=lib) :=
  {| dataset := samples; ld_batch_size := size; ld_shuffle := shuffle |}.

(** batch-size 2, test-batch-size 2, epochs 2, lr 1.0, gamma 0.7, seed 1,
    log-interval 1, save-model. *)
Definition args : Args Exact.arith :=
  @Build_Args Exact.arith 2 2 2 (q 1) (Q2Qc (7 # 10)) false false false 1 1 true.

Definition env : Env (L:=lib) :=
  {| cuda_is_available := false; mps_is_available := false;
     mnist_train := samples; mnist_test := samples |}.

(** The same data on a machine with both accelerators. *)
Definition cuda_env : Env (L:=lib) :=
  {| cuda_is_available := true; mps_is_available := true;
     mnist_train := samples; mnist_test := samples |}.

Definition start : World optim := Table.world0 Exact.arith (q 1).

(** The loss a progress line shows. *)
Definition line_loss (l : Line (A:=Exact.arith)) : option Q :=
  match l with
  | TrainLine _ _ _ _ loss => Some (this loss)
  | TestLine _ _ _ _ => None
  end.

(** The options [args] with another seed, with another rate. *)
Definition with_seed (s : Z) : Args Exact.arith :=
  @Build_Args Exact.arith 2 2 2 (q 1) (Q2Qc (7 # 10)) false false false s 1 true.

Definition with_rate (rate : Qc) : Args Exact.arith :=
  @Build_Args Exact.arith 2 2 2 rate (Q2Qc (7 # 10)) false false false 1 1 true.

(** Every sample a hit, and none. *)
Definition all_hits : list (Sample (L:=lib)) :=
  [ ([q (-1); q (-2); q (-3)], 0); ([q (-2); q (-3); q (-1)], 2) ].

Definition no_hit : list (Sample (L:=lib)) :=
  [ ([q (-1); q (-2); q (-3)], 1); ([q (-2); q (-3); q (-1)], 0) ].

Definition loader_of (ds : list (Sample (L:=lib))) : DataLoader (L:=lib) :=
  {| dataset := ds; ld_batch_size := 2; ld_shuffle := false |}.

(** *** IEEE arithmetic *)

(** The binary64 numbers nearest to 0.1 and to 0.7. *)
Definition tenth : spec_float := S754_finite false 7205759403792794 (-56).
Definition seven_tenths : spec_float := S754_finite false 6305039478318694 (-53).

Definition flib : TensorLib IEEE.arith := Table.lib IEEE.arith.
Definition foptim : Optim flib := Table.optim IEEE.arith.

(** The binary32 number [m * 2^e], negated: a log-probability. *)
Definition neg32 (m : positive) (e : Z) : spec_float := S754_finite true m e.

(** Two samples of ten classes, both labelled 0.  The first has loss
    8389237 * 2^-21 (about 4.0003): the model prefers class 1.  The second has
    loss 2^-23 (about 1.19e-7): the model is nearly certain of class 0. *)
Definition two_samples : list (Sample (L:=flib)) :=
  [ ([neg32 8389237 (-21); neg32 9699328 (-29); neg32 12582912 (-19);
      neg32 12582912 (-19); neg32 12582912 (-19); neg32 12582912 (-19);
      neg32 12582912 (-19); neg32 12582912 (-19); neg32 12582912 (-19);
      neg32 12582912 (-19)], 0);
    ([neg32 8388608 (-46); neg32 8388608 (-19); neg32 12582912 (-19);
      neg32 12582912 (-19); neg32 12582912 (-19); neg32 12582912 (-19);
      neg32 12582912 (-19); neg32 12582912 (-19); neg32 12582912 (-19);
      neg32 12582912 (-19)], 0) ].

Definition fstart : World foptim := Table.world0 IEEE.arith (IEEE.b64_of_int 1).

(** Three training samples in batches of two: the last batch has one. *)
Definition three_samples : list (Sample (L:=flib)) :=
  two_samples ++
  [ ([neg32 8388608 (-23); neg32 15390598 (-25); neg32 12582912 (-19);
      neg32 12582912 (-19); neg32 12582912 (-19); neg32 12582912 (-19);
      neg32 12582912 (-19); neg32 12582912 (-19); neg32 12582912 (-19);
      neg32 12582912 (-19)], 0) ].

Definition train_loader : DataLoader (L:=flib) :=
  {| dataset := three_samples; ld_batch_size := 2; ld_shuffle := false |}.

(** batch-size 2, test-batch-size 1000, epochs 1, lr 1.0, gamma 1.0, seed 1,
    log-interval 1. *)
Definition fargs : Args IEEE.arith :=
  @Build_Args IEEE.arith 2 1000 1 (IEEE.b64_of_int 1) (IEEE.b64_of_int 1)
              false false false 1 1 false.

(** The "samples processed" field of a progress line. *)
Definition shown_processed (l : Line (A:=IEEE.arith)) : option Z :=
  match l with
  | TrainLine _ processed _ _ _ => Some processed
  | TestLine _ _ _ _ => None
  end.

(** The samples in the batches before batch [i], and up to batch [i]. *)
Definition samples_before {X : Type} (batches : list (list X)) (i : nat) : Z :=
  len (concat (firstn i batches)).

Definition samples_upto {X : Type} (batches : list (list X)) (i : nat) : Z :=
  len (concat (firstn (S i) batches)).

End Runs.

(** * Properties *)

Section Properties.
Context {A : Arith} {L : TensorLib A} (O : Optim L).

Notation "x <- m ;; k" := (bind m (fun x => k))
  (at level 61, m at next level, right associativity).
Notation "m ;;; k" := (bind m (fun _ => k))
  (at level 61, right associativity).

Implicit Types (w : World O) (e : Event (A:=A)).

(** ** The monad *)

Lemma bind_ok {X Y : Type} (m : M O X) (k : X -> M O Y) w x w1 :
  m w = (Ok x, w1) -> bind m k w = k x w1.
Proof. intros H. unfold bind. rewrite H. reflexivity. Qed.

Lemma bind_raise {X Y : Type} (m : M O X) (k : X -> M O Y) w ex w1 :
  m w = (Raise ex, w1) -> bind m k w = (Raise ex, w1).
Proof. intros H. unfold bind. rewrite H. reflexivity. Qed.

Lemma skipn_log (l1 l2 : list (Event (A:=A))) : skipn (length l1) (l1 ++ l2) = l2.
Proof. induction l1; simpl; auto. Qed.

Lemma new_events_app w w' l : w_log w' = w_log w ++ l -> new_events w w' = l.
Proof. intros H. unfold new_events. rewrite H. apply skipn_log. Qed.

(** ** Frame rules *)

Section Frame.
Variable R : World O -> World O -> Prop.
Hypothesis R_refl : forall w, R w w.
Hypothesis R_trans : forall w1 w2 w3, R w1 w2 -> R w2 w3 -> R w1 w3.

Lemma preserves_ret {X : Type} (x : X) : preserves R (ret x).
Proof. intros w. apply R_refl. Qed.

Lemma preserves_raise {X : Type} (ex : Exn) : preserves R (raise (X:=X) ex).
Proof. intros w. apply R_refl. Qed.

Lemma preserves_gets {X : Type} (f : World O -> X) : preserves R (gets f).
Proof. intros w. apply R_refl. Qed.

Lemma preserves_modify (f : World O -> World O) :
  (forall w, R w (f w)) -> preserves R (modify f).
Proof. intros H w. apply H. Qed.

Lemma preserves_bind {X Y : Type} (m : M O X) (k : X -> M O Y) :
  preserves R m -> (forall x, preserves R (k x)) -> preserves R (bind m k).
Proof.
  intros Hm Hk w. unfold bind. specialize (Hm w).
  destruct (m w) as [[x | ex] w1]; simpl in *; auto.
  eapply R_trans; [exact Hm | apply Hk].
Qed.

Lemma preserves_for_each {X : Type} (xs : list X) (body : X -> M O Ctl) :
  (forall x, preserves R (body x)) -> preserves R (for_each xs body).
Proof.
  intros Hb. induction xs as [| x xs IH]; simpl.
  - apply preserves_ret.
  - apply preserves_bind; [apply Hb |].
    intros [|]; [exact IH | apply preserves_ret].
Qed.

Lemma preserves_for_fold {X S : Type} (xs : list X) (body : S -> X -> M O S) :
  (forall acc x, preserves R (body acc x)) ->
  forall acc, preserves R (for_fold xs acc body).
Proof.
  intros Hb. induction xs as [| x xs IH]; intros acc; simpl.
  - apply preserves_ret.
  - apply preserves_bind; [apply Hb | intros acc'; apply IH].
Qed.

Lemma preserves_no_grad {X : Type} (body : M O X) :
  (forall w b, R w (set_grad_enabled b w)) ->
  (forall w, R w (set_log (w_log w ++ [EvNoGradEnter]) w)) ->
  (forall w, R w (set_log (w_log w ++ [EvNoGradExit]) w)) ->
  preserves R body -> preserves R (no_grad body).
Proof.
  intros Hg He Hx Hb w. unfold no_grad, emit, modify.
  specialize (Hb (set_log (w_log (set_grad_enabled false w) ++ [EvNoGradEnter])
                          (set_grad_enabled false w))).
  destruct (body _) as [r w2]; simpl in *.
  apply R_trans with (set_grad_enabled false w); [apply Hg |].
  eapply R_trans; [apply (He (set_grad_enabled false w)) |].
  eapply R_trans; [exact Hb |].
  apply R_trans with (set_grad_enabled (w_grad_enabled w) w2); [apply Hg |].
  apply (Hx (set_grad_enabled (w_grad_enabled w) w2)).
Qed.
End Frame.

Lemma keeps_refl {X : Type} (f : World O -> X) w : keeps f w w.
Proof. reflexivity. Qed.

Lemma keeps_trans {X : Type} (f : World O -> X) w1 w2 w3 :
  keeps f w1 w2 -> keeps f w2 w3 -> keeps f w1 w3.
Proof. unfold keeps. congruence. Qed.

Lemma logs_refl P w : logs P w w.
Proof. exists []. rewrite app_nil_r. auto. Qed.

Lemma logs_trans P w1 w2 w3 : logs P w1 w2 -> logs P w2 w3 -> logs P w1 w3.
Proof.
  intros [l1 [E1 F1]] [l2 [E2 F2]]. exists (l1 ++ l2). split.
  - rewrite E2, E1, app_assoc. reflexivity.
  - rewrite forallb_app, F1, F2. reflexivity.
Qed.

Lemma logs_emit P w e : P e = true -> logs P w (set_log (w_log w ++ [e]) w).
Proof. intros H. exists [e]. simpl. rewrite H. auto. Qed.

Lemma steady_refl f b P w : steady f b P w w.
Proof. intros H. split; [exact H | apply logs_refl]. Qed.

Lemma steady_trans f b P w1 w2 w3 :
  steady f b P w1 w2 -> steady f b P w2 w3 -> steady f b P w1 w3.
Proof.
  intros H12 H23 H. destruct (H12 H) as [H2 L12]. destruct (H23 H2) as [H3 L23].
  split; [exact H3 | eapply logs_trans; eauto].
Qed.

(** A change of the state that leaves the flag and the log alone. *)
Lemma steady_quiet f b P w w' :
  f w' = f w -> w_log w' = w_log w -> steady f b P w w'.
Proof.
  intros Hf Hl H. split; [congruence |].
  exists []. rewrite app_nil_r. auto.
Qed.

Lemma steady_emit f b P w e :
  P e = true -> f (set_log (w_log w ++ [e]) w) = f w ->
  steady f b P w (set_log (w_log w ++ [e]) w).
Proof.
  intros HP Hf H. split; [congruence | apply logs_emit; exact HP].
Qed.

Create HintDb script.

#[local] Hint Unfold test test_body train train_body forward dropout1 dropout2 dropout layer
  nll_loss argmax_rows zero_grad backward optimizer_step print model_train
  model_eval iter_loader py_mod py_truediv scheduler_step torch_save new_Net
  new_Adadelta torch_manual_seed mkStepLR mkDataLoader emit : script.

(** Walks down a computation, leaving one goal per state change; [leaf] is
    tried first, on calls that have a lemma of their own. *)
Ltac frame_with leaf :=
  repeat (intros; autounfold with script;
    first
      [ leaf
      | match goal with
        | |- preserves _ (ret _) => apply preserves_ret
        | |- preserves _ (raise _) => apply preserves_raise
        | |- preserves _ (gets _) => apply preserves_gets
        | |- preserves _ (bind _ _) => apply preserves_bind
        | |- preserves _ (for_each _ _) => apply preserves_for_each
        | |- preserves _ (for_fold _ _ _) => apply preserves_for_fold
        | |- preserves _ (modify _) => apply preserves_modify
        | |- preserves _ (no_grad _) => apply preserves_no_grad
        | |- preserves _ (match ?x with _ => _ end) => destruct x
        | |- preserves _ ((match ?x with _ => _ end) _) => destruct x
        end ]).

Ltac frame := frame_with fail.

(** ** The forward pass *)

Lemma map_opt_some {X Y : Type} (f : X -> Y) (l : list X) :
  map_opt (fun x => Some (f x)) l = Some (map f l).
Proof. induction l as [| x l IH]; simpl; [| rewrite IH]; reflexivity. Qed.

Lemma map_opt_map {X Y Z : Type} (f : Y -> option Z) (h : X -> Y) (l : list X) :
  map_opt (fun x => f (h x)) l = map_opt f (map h l).
Proof. induction l as [| x l IH]; simpl; [| rewrite IH]; reflexivity. Qed.

Lemma map_opt_bind {X Y Z : Type} (f : X -> option Y) (g : Y -> option Z) (l : list X) :
  map_opt (fun x => obind (f x) g) l = obind (map_opt f l) (map_opt g).
Proof.
  induction l as [| x l IH]; simpl; [reflexivity |].
  rewrite IH. destruct (f x) as [y |]; simpl.
  - destruct (map_opt f l) as [ys |]; simpl; [reflexivity |].
    destruct (g y); reflexivity.
  - destruct (map_opt f l); reflexivity.
Qed.

Lemma map_opt_length {X Y : Type} (f : X -> option Y) (l : list X) (ys : list Y) :
  map_opt f l = Some ys -> length ys = length l.
Proof.
  revert ys. induction l as [| x l IH]; simpl; intros ys H.
  - inversion H. reflexivity.
  - destruct (f x); [| discriminate]. destruct (map_opt f l); [| discriminate].
    inversion H. simpl. f_equal. apply IH. reflexivity.
Qed.

(** In evaluation mode dropout returns its input and draws nothing. *)
Lemma dropout_eval p x w :
  w_training w = false -> dropout (O:=O) p x w = (Ok x, w).
Proof. intros H. unfold dropout, bind, gets. rewrite H. reflexivity. Qed.

(** In evaluation mode the forward pass is the per-sample pass on every slice,
    and it changes nothing. *)
Lemma forward_eval x w :
  w_training w = false ->
  forward x w = (or_raise RuntimeError (map_opt (eval_row (w_params w)) x), w).
Proof.
  intros H. unfold eval_row.
  unfold forward, bind, gets, layer, dropout1, dropout2, ret, raise.
  rewrite map_opt_bind.
  destruct (map_opt (conv2d L (conv1 (w_params w))) x) as [x1 |]; simpl; auto.
  rewrite (map_opt_bind (fun x0 => conv2d L (conv2 (w_params w)) (relu L x0))).
  rewrite (map_opt_map (conv2d L (conv2 (w_params w))) (relu L)).
  destruct (map_opt (conv2d L (conv2 (w_params w))) (map (relu L) x1)) as [x2 |];
    simpl; auto.
  rewrite dropout_eval by exact H.
  rewrite (map_opt_bind
    (fun x0 => linear L (fc1 (w_params w)) (flatten L (max_pool2d L (relu L x0) 2)))).
  rewrite (map_opt_map (linear L (fc1 (w_params w)))
             (fun x0 => flatten L (max_pool2d L (relu L x0) 2))).
  rewrite !map_map.
  destruct (map_opt (linear L (fc1 (w_params w))) _) as [x3 |]; simpl; auto.
  rewrite dropout_eval by exact H.
  rewrite (map_opt_bind (fun x0 => linear L (fc2 (w_params w)) (relu L x0))).
  rewrite (map_opt_map (linear L (fc2 (w_params w))) (relu L)).
  destruct (map_opt (linear L (fc2 (w_params w))) _) as [x4 |]; simpl; auto.
  rewrite map_opt_some. reflexivity.
Qed.

(** [model(data)], step by step. *)
Lemma call_model_eq data w :
  call_model data w =
  let w1 := set_log (w_log w ++ [EvForward (w_training w) (w_grad_enabled w)
                                           (length data)]) w in
  match forward data w1 with
  | (Ok rows, w2) =>
      (Ok {| o_rows := rows;
             o_grad_fn := if w_grad_enabled w
                          then Some {| gf_params := w_params w;
                                       gf_training := w_training w;
                                       gf_rng := w_rng w; gf_data := data |}
                          else None |}, w2)
  | (Raise ex, w2) => (Raise ex, w2)
  end.
Proof. reflexivity. Qed.

Section FrameCalls.
Variable R : World O -> World O -> Prop.
Hypothesis R_refl : forall w, R w w.
Hypothesis R_trans : forall w1 w2 w3, R w1 w2 -> R w2 w3 -> R w1 w3.
Hypothesis R_rng : forall w r, R w (set_rng r w).

Lemma preserves_forward x : preserves R (forward (O:=O) x).
Proof. frame; auto. Qed.

Lemma preserves_call_model data :
  (forall w n, R w (set_log (w_log w ++ [EvForward (w_training w) (w_grad_enabled w) n]) w)) ->
  preserves R (call_model (O:=O) data).
Proof.
  intros Hf w. rewrite call_model_eq. cbv zeta.
  pose proof (preserves_forward data
    (set_log (w_log w ++ [EvForward (w_training w) (w_grad_enabled w) (length data)]) w))
    as H.
  destruct (forward data _) as [[rows | ex] w2]; simpl in *;
    (eapply R_trans; [apply Hf | exact H]).
Qed.
End FrameCalls.

(** Settles the goals [frame] leaves for a [steady] relation. *)
Ltac steady_leaf :=
  intros;
  try match goal with
      | |- context [adadelta ?o ?a ?b ?c ?d] => destruct (adadelta o a b c d)
      end;
  first
    [ apply steady_refl
    | eapply steady_trans; eassumption
    | apply steady_emit; reflexivity
    | apply steady_quiet; reflexivity ].

(** ** The evaluation loop and the gradient mode *)

Lemma call_model_tracking_off data : preserves tracking_off (call_model (O:=O) data).
Proof.
  apply preserves_call_model.
  - intros w; apply steady_refl.
  - intros w1 w2 w3; apply steady_trans.
  - intros w r; apply steady_quiet; reflexivity.
  - intros w n H. split; [exact H |].
    apply logs_emit. simpl. rewrite H. reflexivity.
Qed.

(** The block under [torch.no_grad()] in [test]. *)
Lemma test_block_tracking_off device test_loader :
  preserves tracking_off
    (batches <- iter_loader test_loader ;;
     for_fold batches (py_of_int A 0, 0) (test_body (O:=O) device)).
Proof.
  unfold tracking_off.
  frame_with ltac:(apply call_model_tracking_off); steady_leaf.
Qed.

(** [with torch.no_grad()] around a block that keeps the mode off: the log
    shows the entry, the untracked events of the block, the exit; the mode
    found on entry is back, whether the block completed or raised. *)
Lemma no_grad_shape {X : Type} (body : M O X) w :
  preserves tracking_off body ->
  exists l,
    w_log (snd (no_grad body w)) = w_log w ++ EvNoGradEnter :: l ++ [EvNoGradExit] /\
    forallb untracked l = true /\
    w_grad_enabled (snd (no_grad body w)) = w_grad_enabled w.
Proof.
  intros Hb. unfold no_grad, emit, modify.
  specialize (Hb (set_log (w_log (set_grad_enabled false w) ++ [EvNoGradEnter])
                          (set_grad_enabled false w))).
  destruct (body _) as [r w2]; simpl in *.
  destruct (Hb eq_refl) as [_ [l [El Fl]]]. simpl in El.
  exists l. rewrite El, <- !app_assoc. simpl. auto.
Qed.


(** [frame], going through [model(data)] as well. *)
Ltac frame_calls :=
  frame_with ltac:(idtac;
                   match goal with
                   | |- preserves _ (call_model _) => apply preserves_call_model
                   end).

Ltac frozen_leaf :=
  intros; unfold frozen in *; simpl;
  try match goal with
      | |- context [adadelta ?o ?a ?b ?c ?d] => destruct (adadelta o a b c d)
      end;
  simpl; intuition congruence.

Lemma test_frozen device test_loader : preserves frozen (test (O:=O) device test_loader).
Proof. frame_calls; frozen_leaf. Qed.

Lemma model_eval_eq w :
  model_eval w = (Ok tt, set_training false (set_log (w_log w ++ [EvEvalMode]) w)).
Proof. reflexivity. Qed.

(** C6.  An evaluation pass leaves every parameter of the model as it was (and
    the gradient buffers and the optimizer with them); all its forward passes
    run between the entry to and the exit from the no-gradient mode, with
    tracking off; the exit is taken and the previous mode is back however the
    pass ends, by completion or by an exception. *)
Theorem test_mutates_no_parameter device test_loader w :
  let w' := snd (test device test_loader w) in
  w_params w' = w_params w /\
  w_grads w' = w_grads w /\
  w_grad_enabled w' = w_grad_enabled w /\
  exists block rest,
    new_events w w' = EvEvalMode :: EvNoGradEnter :: block ++ EvNoGradExit :: rest /\
    forallb untracked block = true /\
    existsb is_forward rest = false.
Proof.
  cbv zeta.
  destruct (test_frozen device test_loader w) as [Hp [Hg _]].
  split; [exact Hp |]. split; [exact Hg |].
  unfold test. erewrite bind_ok by apply model_eval_eq.
  set (w0 := set_training false (set_log (w_log w ++ [EvEvalMode]) w)).
  match goal with
  | |- context [bind (no_grad ?b) ?k] =>
      set (block := b); set (rest := k);
      destruct (@no_grad_shape _ block w0 (test_block_tracking_off device test_loader))
        as [l [El [Fl Eg]]]
  end.
  unfold bind at 1. unfold bind at 1.
  destruct (no_grad block w0) as [[acc | ex] w3]; simpl in El, Eg |- *.
  - assert (Hrest : w_grad_enabled (snd (rest acc w3)) = w_grad_enabled w3 /\
                    exists t, w_log (snd (rest acc w3)) = w_log w3 ++ t /\
                              existsb is_forward t = false).
    { unfold rest. destruct acc as [test_loss correct].
      unfold py_truediv, print, emit, modify, bind, ret, raise.
      destruct (len (dataset test_loader) =? 0); simpl.
      - split; [reflexivity |]. exists []. rewrite app_nil_r. auto.
      - split; [reflexivity |]. eexists. split; [reflexivity | reflexivity]. }
    destruct Hrest as [Hge [t [Et Ft]]].
    split; [congruence |].
    exists l, t. split; [| auto].
    apply new_events_app. rewrite Et, El. unfold w0. simpl.
    rewrite <- !app_assoc. simpl. rewrite <- app_assoc. reflexivity.
  - split; [exact Eg |].
    exists l, []. split; [| auto].
    apply new_events_app. rewrite El. unfold w0. simpl.
    rewrite <- !app_assoc. reflexivity.
Qed.

(** ** Training mode and evaluation mode *)

Ltac keeps_leaf :=
  intros; unfold keeps in *; simpl;
  try match goal with
      | |- context [adadelta ?o ?a ?b ?c ?d] => destruct (adadelta o a b c d)
      end;
  simpl; congruence.

Lemma model_train_eq w :
  model_train w = (Ok tt, set_training true (set_log (w_log w ++ [EvTrainMode]) w)).
Proof. reflexivity. Qed.

Lemma call_model_in_training data :
  preserves (steady (@w_training A L O) true in_training) (call_model (O:=O) data).
Proof.
  apply preserves_call_model.
  - intros w; apply steady_refl.
  - intros w1 w2 w3; apply steady_trans.
  - intros w r; apply steady_quiet; reflexivity.
  - intros w n H. split; [exact H |].
    apply logs_emit. simpl. exact H.
Qed.

(** After [model.train()], the rest of [train] runs in training mode. *)
Lemma train_loop_in_training args device train_loader epoch :
  preserves (steady (@w_training A L O) true in_training)
    (batches <- iter_loader train_loader ;;
     for_each (enumerate batches) (train_body args device train_loader epoch)).
Proof. frame_with ltac:(apply call_model_in_training); steady_leaf. Qed.

Lemma test_keeps_mode_after_eval device test_loader w :
  w_training (snd (test device test_loader w)) = false.
Proof.
  unfold test. erewrite bind_ok by apply model_eval_eq.
  match goal with
  | |- w_training (snd (?m ?w0)) = false =>
      assert (H : preserves (keeps (@w_training A L O)) m) by (frame_calls; keeps_leaf);
      rewrite (H w0)
  end.
  reflexivity.
Qed.

(** A loop over a non-empty list ends in a state its last round produced. *)
Lemma for_fold_post {X S : Type} (Q : World O -> Prop) (xs : list X)
      (body : S -> X -> M O S) :
  (forall a x w a' w', body a x w = (Ok a', w') -> Q w') ->
  xs <> [] ->
  forall acc w acc' w', for_fold xs acc body w = (Ok acc', w') -> Q w'.
Proof.
  intros Hb. induction xs as [| x xs IH]; intros Hne acc w acc' w' H;
    [congruence |].
  simpl in H. unfold bind in H.
  destruct (body acc x w) as [[a1 | ex] w1] eqn:E1; [| discriminate].
  destruct xs as [| x' xs'].
  - simpl in H. inversion H; subst. eapply Hb; eauto.
  - eapply IH; [discriminate | exact H].
Qed.

Lemma range_nonempty a b : a < b -> range a b <> [].
Proof.
  intros H. unfold range.
  destruct (Z.to_nat (b - a)) eqn:E; [lia | simpl; discriminate].
Qed.

Lemma scheduler_step_keeps_mode s :
  preserves (keeps (@w_training A L O)) (scheduler_step (O:=O) s).
Proof. frame; keeps_leaf. Qed.

Lemma torch_save_keeps_mode name :
  preserves (keeps (@w_training A L O)) (torch_save (O:=O) name).
Proof. frame; keeps_leaf. Qed.

(** A run of at least one epoch that completes ends in evaluation mode. *)
Lemma main_ends_in_eval_mode args env w w' :
  main args env w = (Ok tt, w') -> 1 <= epochs args -> w_training w' = false.
Proof.
  intros H HE. unfold main in H.
  repeat match type of H with
  | bind ?m ?k ?w0 = (Ok _, _) =>
      let r := fresh "r" in let w1 := fresh "w" in let E := fresh "E" in
      unfold bind at 1 in H;
      destruct (m w0) as [[r | ?] w1] eqn:E; [| discriminate]
  end.
  match goal with
  | Hf : for_fold _ _ _ _ = (Ok _, ?wf) |- _ =>
      assert (Hfold : w_training wf = false);
        [ revert Hf; apply (@for_fold_post _ _ (fun w => w_training w = false)) |]
  end.
  - intros a x v a' v' Hb. unfold bind in Hb.
    destruct (train _ _ _ _ v) as [[[] | ?] v1]; [| discriminate].
    match type of Hb with
    | context [test ?d ?l v1] => pose proof (test_keeps_mode_after_eval d l v1) as Ht
    end.
    destruct (test _ _ v1) as [[[] | ?] v2]; [| discriminate].
    simpl in Ht.
    pose proof (scheduler_step_keeps_mode a v2) as Hs. rewrite Hb in Hs.
    unfold keeps in Hs. simpl in Hs. congruence.
  - apply range_nonempty. lia.
  - destruct (save_model args).
    + match type of H with
      | _ ?wf = _ => pose proof (torch_save_keeps_mode "mnist_cnn.pt" wf) as Hs
      end.
      rewrite H in Hs. unfold keeps in Hs. simpl in Hs. congruence.
    + inversion H; subst. exact Hfold.
Qed.

(** C10.  Every evaluation pass leaves the model in evaluation mode, whatever
    the mode before and however the pass ends; every training pass switches to
    training mode first and makes all its forward passes in that mode; after a
    completed run of at least one epoch the model is in evaluation mode, where
    a forward pass is the per-sample pass without dropout and draws nothing from
    the generator. *)
Theorem evaluation_mode_persists :
  (forall device test_loader w,
     w_training (snd (test (O:=O) device test_loader w)) = false) /\
  (forall args device train_loader epoch w,
     exists l,
       new_events w (snd (train (O:=O) args device train_loader epoch w))
       = EvTrainMode :: l /\
       forallb in_training l = true) /\
  (forall args env w w',
     main (O:=O) args env w = (Ok tt, w') -> 1 <= epochs args ->
     w_training w' = false /\
     (forall p x, dropout p x w' = (Ok x, w')) /\
     (forall x, forward x w'
                = (or_raise RuntimeError (map_opt (eval_row (w_params w')) x), w'))).
Proof.
  split; [| split].
  - apply test_keeps_mode_after_eval.
  - intros args device train_loader epoch w.
    unfold train. erewrite bind_ok by apply model_train_eq.
    match goal with
    | |- context [snd (?m ?w0)] =>
        destruct (train_loop_in_training args device train_loader epoch w0 eq_refl)
          as [_ [l [El Fl]]]
    end.
    exists l. split; [| exact Fl].
    apply new_events_app. rewrite El. simpl. rewrite <- app_assoc. reflexivity.
  - intros args env w w' H HE.
    pose proof (main_ends_in_eval_mode args env w H HE) as Hm.
    split; [exact Hm |]. split.
    + intros p x. apply dropout_eval. exact Hm.
    + intros x. apply forward_eval. exact Hm.
Qed.

(** ** One batch of the training loop *)

Lemma only_rng_refl w : only_rng w w.
Proof. destruct w; reflexivity. Qed.

Lemma only_rng_trans w1 w2 w3 : only_rng w1 w2 -> only_rng w2 w3 -> only_rng w1 w3.
Proof. unfold only_rng. intros H1 H2. rewrite H2, H1. reflexivity. Qed.

Lemma forward_only_rng x : preserves only_rng (forward (O:=O) x).
Proof.
  apply preserves_forward.
  - apply only_rng_refl.
  - apply only_rng_trans.
  - intros w r. reflexivity.
Qed.

(** What a completed round of the loop did: the calls it made, in order, the
    one update it applied, the line it printed if any, and whether it left the
    loop. *)
Lemma train_body_ok args device train_loader epoch i b w c w1 :
  train_body args device train_loader epoch (i, b) w = (Ok c, w1) ->
  w_grad_enabled w = true /\
  log_interval args <> 0 /\
  (w_params w1, w_acc w1) = batch_update w b /\
  w_grads w1 = batch_grads w b /\
  w_lr w1 = w_lr w /\ w_training w1 = w_training w /\
  w_grad_enabled w1 = w_grad_enabled w /\ w_disk w1 = w_disk w /\
  c = (if (i mod log_interval args =? 0) && dry_run args then Break else Continue) /\
  exists rows losses_ w2,
    forward (map fst b) (forward_state w b) = (Ok rows, w2) /\
    row_losses rows (map snd b) = Some losses_ /\
    w_log w1 =
      w_log w ++
      [EvZeroGrad; EvForward (w_training w) true (length b); EvNllLoss Mean;
       EvBackward; EvOptStep] ++
      (if i mod log_interval args =? 0
       then [EvPrint (TrainLine epoch (i * len b) (len (dataset train_loader))
                                (percent i (loader_len train_loader))
                                (item A (mean_loss losses_)))]
       else []).
Proof.
  unfold train_body, collate, to, zero_grad.
  intros H.
  unfold bind at 1 in H. unfold bind at 1 in H. simpl in H.
  unfold bind at 1 in H. rewrite call_model_eq in H. cbv zeta in H.
  match type of H with
  | context [forward ?x ?w0] =>
      change w0 with (forward_state w b) in H;
      pose proof (forward_only_rng x (forward_state w b)) as Hr;
      destruct (forward x (forward_state w b)) as [[rows | ex] w2] eqn:EF
  end; [| discriminate].
  unfold only_rng in Hr. simpl in Hr. rewrite Hr in H. clear Hr.
  unfold nll_loss, backward, optimizer_step, py_mod, py_truediv, print, emit,
    modify, bind, ret, raise in H. simpl in H.
  change (map_opt _ (filter _ (combine rows (map snd b))))
    with (row_losses rows (map snd b)) in H.
  destruct (row_losses rows (map snd b)) as [losses_ |] eqn:EL; [| discriminate].
  simpl in H.
  destruct (w_grad_enabled w) eqn:EG; simpl in H; [| discriminate].
  unfold batch_update, batch_grads, batch_grad_fn.
  destruct (adadelta O _ _ _ _) as [p a] eqn:EA. simpl in H.
  unfold mean_loss, percent, len in *. rewrite ?length_map in *.
  destruct (log_interval args =? 0) eqn:EK; [discriminate |].
  apply Z.eqb_neq in EK.
  destruct (i mod log_interval args =? 0) eqn:EM; simpl in H.
  - destruct (loader_len train_loader =? 0); [discriminate |].
    simpl in H.
    destruct (dry_run args); inversion H; subst; simpl;
      repeat split; auto;
      exists rows, losses_, w2; repeat split; try assumption;
      rewrite <- !app_assoc; reflexivity.
  - inversion H; subst; simpl.
    repeat split; auto.
    exists rows, losses_, w2. repeat split; try assumption.
    rewrite <- !app_assoc. reflexivity.
Qed.

(** ** The training loop *)

Lemma calls_app (l1 l2 : list (Event (A:=A))) : calls (l1 ++ l2) = calls l1 ++ calls l2.
Proof. apply filter_app. Qed.

Lemma new_events_trans w1 w2 w3 l1 l2 :
  w_log w2 = w_log w1 ++ l1 -> w_log w3 = w_log w2 ++ l2 ->
  w_log w3 = w_log w1 ++ l1 ++ l2.
Proof. intros H1 H2. rewrite H2, H1, app_assoc. reflexivity. Qed.

Lemma for_each_cons {X : Type} (x : X) (xs : list X) (body : X -> M O Ctl) w :
  for_each (x :: xs) body w =
  match body x w with
  | (Ok Continue, w1) => for_each xs body w1
  | (Ok Break, w1) => (Ok tt, w1)
  | (Raise ex, w1) => (Raise ex, w1)
  end.
Proof.
  simpl. unfold bind. destruct (body x w) as [[[|] | ex] w1]; reflexivity.
Qed.

(** A completed loop processed a prefix of the batches, each by one cycle of
    calls; without the dry-run flag the prefix is the whole list. *)
Lemma train_loop_calls args device train_loader epoch items :
  forall w w',
    for_each items (train_body args device train_loader epoch) w = (Ok tt, w') ->
    w_training w = true ->
    exists done rest l,
      items = done ++ rest /\
      w_log w' = w_log w ++ l /\
      calls l = concat (map (fun it => cycle (length (snd it))) done) /\
      (dry_run args = false -> rest = []).
Proof.
  induction items as [| [i b] items IH]; intros w w' H Ht.
  - inversion H; subst. exists [], [], [].
    split; [reflexivity |]. split; [symmetry; apply app_nil_r |].
    split; reflexivity.
  - rewrite for_each_cons in H.
    destruct (train_body args device train_loader epoch (i, b) w) as [[c | ex] w1] eqn:E;
      [| discriminate].
    destruct (train_body_ok _ _ _ _ _ _ _ E)
      as [Hg [HK [_ [_ [_ [Ht1 [_ [_ [Hc [rows [ls [w2 [_ [_ Hl]]]]]]]]]]]]]].
    rewrite Ht in Hl.
    assert (Hcalls : forall report : list (Event (A:=A)),
               (report = [] \/ exists line, report = [EvPrint line]) ->
               calls ([EvZeroGrad (A:=A); EvForward true true (length b); EvNllLoss Mean;
                       EvBackward; EvOptStep] ++ report) = cycle (length b)).
    { intros report [-> | [line ->]]; reflexivity. }
    match type of Hl with
    | _ = _ ++ _ ++ ?r =>
        assert (Hr : r = [] \/ exists line, r = [EvPrint line])
          by (destruct (i mod log_interval args =? 0); [right; eexists; reflexivity | left; reflexivity]);
        specialize (Hcalls r Hr)
    end.
    destruct c.
    + destruct (IH w1 w' H) as [done [rest [l [Hi [Hl' [Hc' Hd]]]]]]; [congruence |].
      exists ((i, b) :: done), rest. eexists. split; [simpl; congruence |].
      split; [eapply new_events_trans; [exact Hl | exact Hl'] |].
      split; [| exact Hd].
      rewrite calls_app, Hcalls, Hc'. reflexivity.
    + inversion H; subst w1.
      exists [(i, b)], items. eexists. split; [reflexivity |].
      split; [exact Hl |]. split.
      * rewrite Hcalls. simpl. reflexivity.
      * intros Hdry. rewrite Hdry, andb_false_r in Hc. discriminate.
Qed.

Lemma iter_loader_eq train_loader w :
  exists batches r,
    iter_loader train_loader w
    = (Ok batches, set_log (w_log w ++ [EvIter (length batches)]) (set_rng r w)).
Proof.
  unfold iter_loader, bind, gets, modify, emit, ret.
  destruct (random_ L (w_rng w)) as [s0 r0]. simpl.
  destruct (ld_shuffle train_loader); simpl.
  - destruct (random_ L r0) as [s1 r1]. simpl.
    destruct (randperm L _ _) as [idxs r2]. simpl.
    eexists. exists r1. reflexivity.
  - eexists. exists r0. reflexivity.
Qed.

(** What [F.nll_loss] adds up are the negative log-likelihoods of the labels
    that count. *)
Lemma row_losses_nlls (pairs : list (Tensor L * Z)) :
  forall xs,
    map_opt (fun rt => nll (fst rt) (snd rt)) (filter counted pairs) = Some xs ->
    nlls pairs xs.
Proof.
  induction pairs as [| [row t] pairs IH]; intros xs H.
  - inversion H. constructor.
  - cbn [filter] in H. unfold counted at 1 in H. cbn [snd] in H.
    destruct (t =? ignore_index) eqn:Ei; cbn [negb] in H.
    + apply Z.eqb_eq in Ei. apply nlls_ignored; [exact Ei | apply IH; exact H].
    + apply Z.eqb_neq in Ei. cbn [map_opt fst snd] in H.
      unfold nll in H. destruct (t <? 0) eqn:Et; [discriminate |].
      apply Z.ltb_ge in Et.
      destruct (nth_error (scores L row) (Z.to_nat t)) as [y |] eqn:Ey;
        [| discriminate].
      cbn [option_map] in H.
      destruct (map_opt _ (filter counted pairs)) as [ys |] eqn:Em; [| discriminate].
      inversion H; subst xs.
      apply nlls_counted; [exact Ei | exact Et | exact Ey | apply IH; reflexivity].
Qed.

(** The labels decide which rows count, the rows what they contribute. *)
Lemma nlls_unique (pairs : list (Tensor L * Z)) xs :
  nlls pairs xs -> forall ys, nlls pairs ys -> xs = ys.
Proof.
  induction 1 as [| row t pairs xs Ht _ IH | row t y pairs xs Ht H0 Hy _ IH];
    intros ys Hys; inversion Hys; subst; try congruence.
  - apply IH. assumption.
  - f_equal; [congruence | apply IH; assumption].
Qed.

(** C2.  The loss a round computes is the batch-averaged negative
    log-likelihood: [F.nll_loss] with its default reduction returns the sum of
    minus the log-probability each row gives its label, over the rows whose
    label counts, divided by their number.  A round of the training loop that
    completes has made, in this order and once each, the calls: reset of the
    gradients, forward pass (with tracking), that loss on the rows of the
    forward pass and the labels of the batch, backward pass, optimizer step;
    the line it prints, if any, shows the value of that loss; the gradient
    buffers then hold the gradient of this batch alone and the parameters and
    the optimizer state are those of one Adadelta update with it.  A training
    pass that completes consists, after the switch to training mode, of such
    cycles and nothing else but printed lines, one cycle for each batch of a
    prefix of the pass, which is the whole pass unless the run is a dry run. *)
Theorem train_follows_protocol :
  (forall output target w loss w',
     nll_loss (O:=O) output target Mean w = (Ok loss, w') ->
     exists losses_,
       nlls (combine (o_rows output) target) losses_ /\
       l_value loss = mean_loss losses_ /\
       l_grad_fn loss = option_map (fun g => (g, target, Mean)) (o_grad_fn output)) /\
  (forall args device train_loader epoch i b w c w1,
     train_body (O:=O) args device train_loader epoch (i, b) w = (Ok c, w1) ->
     exists rows w2 losses_,
       forward (map fst b) (forward_state w b) = (Ok rows, w2) /\
       nlls (combine rows (map snd b)) losses_ /\
       new_events w w1 =
         [EvZeroGrad; EvForward (w_training w) true (length b); EvNllLoss Mean;
          EvBackward; EvOptStep] ++
         (if i mod log_interval args =? 0
          then [EvPrint (TrainLine epoch (i * len b) (len (dataset train_loader))
                                   (percent i (loader_len train_loader))
                                   (item A (mean_loss losses_)))]
          else []) /\
       w_grads w1 = batch_grads w b /\
       (w_params w1, w_acc w1) = batch_update w b /\
       w_lr w1 = w_lr w) /\
  (forall args device train_loader epoch w w',
     train (O:=O) args device train_loader epoch w = (Ok tt, w') ->
     exists batches done rest,
       fst (iter_loader train_loader (snd (model_train w))) = Ok batches /\
       enumerate batches = done ++ rest /\
       (dry_run args = false -> rest = []) /\
       calls (new_events w w') =
       EvTrainMode :: EvIter (length batches)
         :: concat (map (fun it => cycle (length (snd it))) done)).
Proof.
  split; [| split].
  - intros output target w loss w' H.
    unfold nll_loss, emit, modify, bind, ret, raise in H.
    destruct (map_opt _ (filter counted (combine (o_rows output) target)))
      as [losses_ |] eqn:El; [| discriminate].
    inversion H; subst loss. simpl.
    exists losses_. split; [apply row_losses_nlls; exact El |].
    split; reflexivity.
  - intros args device train_loader epoch i b w c w1 H.
    destruct (train_body_ok _ _ _ _ _ _ _ H)
      as [_ [_ [Hu [Hg [Hlr [_ [_ [_ [_ [rows [ls [w2 [Hf [Hls Hl]]]]]]]]]]]]]].
    exists rows, w2, ls.
    split; [exact Hf |].
    split; [apply row_losses_nlls; exact Hls |].
    split; [apply new_events_app; exact Hl |]. auto.
  - intros args device train_loader epoch w w' H.
    unfold train in H. erewrite bind_ok in H by apply model_train_eq.
    rewrite model_train_eq. simpl snd.
    set (w0 := set_training true (set_log (w_log w ++ [EvTrainMode]) w)) in *.
    destruct (iter_loader_eq train_loader w0) as [batches [r Ei]].
    erewrite bind_ok in H by exact Ei.
    apply train_loop_calls in H; [| reflexivity].
    destruct H as [done [rest [l [Hi [Hl [Hc Hd]]]]]].
    exists batches, done, rest. rewrite Ei.
    split; [reflexivity |]. split; [exact Hi |]. split; [exact Hd |].
    rewrite (@new_events_app w w' ([EvTrainMode; EvIter (length batches)] ++ l)).
    + rewrite calls_app, Hc. reflexivity.
    + rewrite Hl. unfold w0. simpl. rewrite <- !app_assoc. reflexivity.
Qed.

(** ** Dry runs *)

(** Without the dry-run flag a round does the same and goes on. *)
Lemma train_body_control args device train_loader epoch it w :
  train_body (O:=O) (set_dry_run false args) device train_loader epoch it w =
  match train_body args device train_loader epoch it w with
  | (Ok _, w1) => (Ok Continue, w1)
  | (Raise ex, w1) => (Raise ex, w1)
  end.
Proof.
  destruct it as [i b]. unfold train_body. simpl.
  unfold bind.
  destruct (zero_grad w) as [[? | ?] ?]; [| reflexivity].
  destruct (call_model _ _) as [[output | ?] ?]; [| reflexivity].
  destruct (nll_loss _ _ _ _) as [[loss | ?] ?]; [| reflexivity].
  destruct (backward _ _) as [[? | ?] ?]; [| reflexivity].
  destruct (optimizer_step _) as [[? | ?] ?]; [| reflexivity].
  destruct (py_mod _ _ _) as [[r | ?] ?]; [| reflexivity].
  destruct (r =? 0); [| reflexivity].
  destruct (py_truediv _ _ _) as [[pct | ?] ?]; [| reflexivity].
  destruct (print _ _) as [[? | ?] ?]; [| reflexivity].
  destruct (dry_run args); reflexivity.
Qed.

(** In a dry run the first round that completes leaves the loop. *)
Lemma train_body_first_breaks args device train_loader epoch b w c w1 :
  dry_run args = true ->
  train_body (O:=O) args device train_loader epoch (0, b) w = (Ok c, w1) ->
  c = Break.
Proof.
  intros Hd H.
  destruct (train_body_ok _ _ _ _ _ _ _ H) as [_ [HK [_ [_ [_ [_ [_ [_ [Hc _]]]]]]]]].
  rewrite Hd, Z.mod_0_l in Hc by exact HK. exact Hc.
Qed.

(** A dry run is the control run stopped after one batch. *)
Lemma train_dry_run_eq args device train_loader epoch w :
  dry_run args = true ->
  train (O:=O) args device train_loader epoch w
  = train_upto 1 args device train_loader epoch w.
Proof.
  intros Hd. unfold train, train_upto, bind.
  rewrite !model_train_eq.
  match goal with
  | |- context [iter_loader ?l ?w0] =>
      destruct (iter_loader_eq l w0) as [batches [r Ei]]
  end.
  rewrite !Ei.
  unfold enumerate. destruct batches as [| b batches]; [reflexivity |].
  simpl firstn. simpl enumerate_from. rewrite !for_each_cons.
  rewrite train_body_control.
  match goal with
  | |- context [train_body ?a ?d ?l ?e ?it ?v] =>
      destruct (train_body a d l e it v) as [[c | ex] w1] eqn:E
  end; [| reflexivity].
  rewrite (train_body_first_breaks _ _ _ _ _ _ Hd E). reflexivity.
Qed.

Lemma zero_grad_eq w :
  zero_grad w = (Ok tt, set_grads (g_zero O) (set_log (w_log w ++ [EvZeroGrad]) w)).
Proof. reflexivity. Qed.

Lemma call_model_logs P data :
  (forall training grad n, P (EvForward (A:=A) training grad n) = true) ->
  preserves (logs P) (call_model (O:=O) data).
Proof.
  intros HP. apply preserves_call_model.
  - apply logs_refl.
  - apply logs_trans.
  - intros w r. exists []. rewrite app_nil_r. auto.
  - intros w n. apply logs_emit. apply HP.
Qed.

Ltac logs_leaf :=
  intros;
  try match goal with
      | |- context [adadelta ?o ?a ?b ?c ?d] => destruct (adadelta o a b c d)
      end;
  first
    [ apply logs_refl
    | eapply logs_trans; eassumption
    | apply logs_emit; reflexivity
    | exists []; rewrite app_nil_r; split; reflexivity ].

(** A round resets the gradients once, at its start, whether it completes or
    raises. *)
Lemma train_body_one_reset args device train_loader epoch it w :
  exists l,
    w_log (snd (train_body (O:=O) args device train_loader epoch it w))
    = w_log w ++ EvZeroGrad :: l /\
    forallb (fun e => negb (is_zero_grad e)) l = true.
Proof.
  destruct it as [i b]. unfold train_body. simpl.
  erewrite bind_ok by apply zero_grad_eq.
  match goal with
  | |- context [snd (?m ?w0)] =>
      assert (H : preserves (logs (fun e => negb (is_zero_grad e))) m)
        by (frame_with ltac:(apply call_model_logs; reflexivity); logs_leaf);
      destruct (H w0) as [l [El Fl]]
  end.
  exists l. split; [| exact Fl].
  rewrite El. simpl. rewrite <- app_assoc. reflexivity.
Qed.

Lemma count_events_app f (l1 l2 : list (Event (A:=A))) :
  count_events f (l1 ++ l2) = (count_events f l1 + count_events f l2)%nat.
Proof. unfold count_events. rewrite filter_app, length_app. reflexivity. Qed.

Lemma count_events_none f (l : list (Event (A:=A))) :
  forallb (fun e => negb (f e)) l = true -> count_events f l = 0%nat.
Proof.
  unfold count_events. induction l as [| e l IH]; simpl; [reflexivity |].
  intros H. apply andb_true_iff in H. destruct H as [He Hl].
  destruct (f e); [discriminate | auto].
Qed.

(** The events of a dry run, completed or not: the switch to training mode,
    the pass over the loader, and at most one round. *)
Lemma train_dry_run_events args device train_loader epoch w :
  dry_run args = true ->
  exists n round,
    new_events w (snd (train (O:=O) args device train_loader epoch w))
    = EvTrainMode :: EvIter n :: round /\
    (count_events is_zero_grad round <= 1)%nat.
Proof.
  intros Hd. rewrite train_dry_run_eq by exact Hd.
  unfold train_upto, bind. rewrite model_train_eq.
  match goal with
  | |- context [iter_loader ?l ?w0] =>
      destruct (iter_loader_eq l w0) as [batches [r Ei]]
  end.
  rewrite Ei. unfold enumerate.
  destruct batches as [| b batches].
  - exists 0%nat, []. split; [| unfold count_events; simpl; lia].
    apply new_events_app. simpl. rewrite <- app_assoc. reflexivity.
  - simpl firstn. simpl enumerate_from. rewrite for_each_cons.
    match goal with
    | |- context [train_body ?a ?d ?l ?e ?it ?v] =>
        destruct (train_body_one_reset a d l e it v) as [l0 [El Fl]];
        destruct (train_body a d l e it v) as [[[|] | ex] w1]
    end; simpl in El |- *;
      (exists (length (b :: batches)), (EvZeroGrad :: l0);
       split;
       [ apply new_events_app; rewrite El; simpl; rewrite <- !app_assoc; reflexivity
       | change (EvZeroGrad :: l0) with ([EvZeroGrad (A:=A)] ++ l0);
         rewrite count_events_app, (count_events_none _ _ Fl);
         unfold count_events; simpl; lia ]).
Qed.

(** C4.  With the dry-run flag and a positive log interval [K], a training
    pass is, result and state, the control run (the same pass without the flag)
    stopped after its first batch: the optimizer is where the control run has
    it at that point; at most [K] batches are started (not more than one);
    and a pass that completes ends with the first progress line. *)
Theorem dry_run_stops_after_first_report args device train_loader epoch w :
  dry_run args = true ->
  0 < log_interval args ->
  let run := train (O:=O) args device train_loader epoch w in
  run = train_upto 1 args device train_loader epoch w /\
  Z.of_nat (count_events is_zero_grad (new_events w (snd run))) <= log_interval args /\
  (fst run = Ok tt ->
   new_events w (snd run) = [EvTrainMode; EvIter 0] \/
   exists n m line,
     new_events w (snd run) = EvTrainMode :: EvIter n :: cycle m ++ [EvPrint line]).
Proof.
  intros Hd HK. cbv zeta. split; [apply train_dry_run_eq; exact Hd |]. split.
  - destruct (train_dry_run_events args device train_loader epoch w Hd)
      as [n [round [E Hc]]].
    rewrite E.
    change (EvTrainMode :: EvIter n :: round)
      with ([EvTrainMode (A:=A); EvIter n] ++ round).
    rewrite count_events_app. unfold count_events at 1. simpl. lia.
  - intros Hok.
    destruct (train args device train_loader epoch w) as [[[] | ex] w'] eqn:E;
      [| discriminate].
    simpl. unfold train, bind in E. rewrite model_train_eq in E.
    match type of E with
    | context [iter_loader ?l ?w0] =>
        destruct (iter_loader_eq l w0) as [batches [r Ei]]
    end.
    rewrite Ei in E. unfold enumerate in E.
    destruct batches as [| b batches].
    + left. inversion E; subst. apply new_events_app. simpl.
      rewrite <- app_assoc. reflexivity.
    + right. simpl enumerate_from in E. rewrite for_each_cons in E.
      match type of E with
      | context [train_body ?a ?d ?l ?e ?it ?v] =>
          destruct (train_body a d l e it v) as [[c | ex] w1] eqn:Eb
      end; [| discriminate].
      pose proof (train_body_first_breaks _ _ _ _ _ _ Hd Eb) as ->.
      inversion E; subst w1.
      destruct (train_body_ok _ _ _ _ _ _ _ Eb)
        as [_ [HK' [_ [_ [_ [_ [_ [_ [_ [rows [ls [w2 [_ [_ Hl]]]]]]]]]]]]]].
      rewrite Z.mod_0_l in Hl by exact HK'. simpl in Hl.
      exists (length (b :: batches)), (length b). eexists.
      apply new_events_app. rewrite Hl. simpl. rewrite <- !app_assoc. reflexivity.
Qed.

(** ** The data loader *)

Lemma chunks_fuel_concat {X : Type} (n : nat) :
  (0 < n)%nat ->
  forall fuel (l : list X), (length l <= fuel)%nat -> concat (chunks_fuel fuel n l) = l.
Proof.
  intros Hn. induction fuel as [| fuel IH]; intros l Hl.
  - destruct l; [reflexivity | simpl in Hl; lia].
  - destruct l as [| x l]; [reflexivity |].
    cbn [chunks_fuel concat]. rewrite IH.
    + apply firstn_skipn.
    + rewrite length_skipn. cbn [length] in *. lia.
Qed.

(** The batches of a pass, put end to end, are the samples in the order of the
    pass. *)
Lemma chunks_concat {X : Type} (n : positive) (l : list X) : concat (chunks n l) = l.
Proof. apply chunks_fuel_concat; [lia | reflexivity]. Qed.

Lemma chunks_nonempty {X : Type} (n : positive) (l : list X) :
  l <> [] -> chunks n l <> [].
Proof.
  intros Hl Hc. pose proof (chunks_concat n l) as H.
  rewrite Hc in H. simpl in H. congruence.
Qed.

Lemma select_seq_from (pre ds : list (Sample (L:=L))) :
  select (pre ++ ds) (seq (length pre) (length ds)) = ds.
Proof.
  revert pre. induction ds as [| s ds IH]; intros pre; [reflexivity |].
  simpl. unfold select in *. simpl.
  rewrite nth_error_app2, Nat.sub_diag by lia. simpl. f_equal.
  specialize (IH (pre ++ [s])). rewrite <- app_assoc, length_app in IH. simpl in IH.
  rewrite Nat.add_1_r in IH. exact IH.
Qed.

Lemma select_seq (ds : list (Sample (L:=L))) : select ds (seq 0 (length ds)) = ds.
Proof. apply (select_seq_from [] ds). Qed.

(** One pass yields the batches of a permutation of the dataset: the dataset
    itself without shuffling. *)
Lemma iter_loader_perm ld w :
  randperm_ok L ->
  exists order r,
    Permutation order (dataset ld) /\
    (ld_shuffle ld = false ->
     order = dataset ld /\ r = snd (random_ L (w_rng w))) /\
    iter_loader ld w
    = (Ok (chunks (ld_batch_size ld) order),
       set_log (w_log w ++ [EvIter (length (chunks (ld_batch_size ld) order))])
               (set_rng r w)).
Proof.
  intros Hperm. unfold iter_loader, bind, gets, modify, emit, ret.
  destruct (random_ L (w_rng w)) as [s0 r0]. simpl.
  destruct (ld_shuffle ld); simpl.
  - destruct (random_ L r0) as [s1 r1]. simpl.
    specialize (Hperm (manual_seed L s1) (length (dataset ld))).
    destruct (randperm L _ _) as [idxs r2]. simpl in *.
    exists (select (dataset ld) idxs), r1. split; [| split; [discriminate | reflexivity]].
    rewrite <- (select_seq (dataset ld)) at 2.
    unfold select. apply Permutation_flat_map. exact Hperm.
  - exists (dataset ld), r0.
    split; [apply Permutation_refl |]. split; [auto | reflexivity].
Qed.

(** ** The first round does not depend on the log interval *)

Lemma set_log_interval_same (args : Args A) : set_log_interval (log_interval args) args = args.
Proof. destruct args; reflexivity. Qed.

Lemma train_body_interval args device train_loader epoch b w k1 k2 :
  k1 <> 0 -> k2 <> 0 ->
  train_body (O:=O) (set_log_interval k1 args) device train_loader epoch (0, b) w
  = train_body (set_log_interval k2 args) device train_loader epoch (0, b) w.
Proof.
  intros H1 H2. unfold train_body, py_mod. simpl.
  apply Z.eqb_neq in H1, H2. rewrite H1, H2, !Z.mod_0_l by (apply Z.eqb_neq; assumption).
  reflexivity.
Qed.

Lemma train_dry_run_interval args device train_loader epoch w k1 k2 :
  dry_run args = true -> k1 <> 0 -> k2 <> 0 ->
  train (O:=O) (set_log_interval k1 args) device train_loader epoch w
  = train (set_log_interval k2 args) device train_loader epoch w.
Proof.
  intros Hd H1 H2. unfold train, bind. rewrite !model_train_eq.
  match goal with
  | |- context [iter_loader ?l ?w0] =>
      destruct (iter_loader_eq l w0) as [batches [r Ei]]
  end.
  rewrite !Ei. unfold enumerate.
  destruct batches as [| b batches]; [reflexivity |].
  simpl enumerate_from. rewrite !for_each_cons.
  rewrite (train_body_interval args device train_loader epoch b _ H1 H2).
  match goal with
  | |- context [train_body ?a ?d ?l ?e ?it ?v] =>
      destruct (train_body a d l e it v) as [[c | ex] w1] eqn:E
  end; [| reflexivity].
  assert (c = Break) as -> by (eapply train_body_first_breaks; [| exact E]; exact Hd).
  reflexivity.
Qed.

(** C9.  A dry run over a non-empty training set that completes processes one
    batch: one reset, one forward pass, one optimizer step, then the progress
    line, and nothing after it; the parameters and the optimizer state are
    those of one update with the first batch.  The log interval plays no part:
    with any other positive interval the pass does the same. *)
Theorem dry_run_processes_one_batch args device train_loader epoch w w' :
  dry_run args = true ->
  0 < log_interval args ->
  randperm_ok L ->
  dataset train_loader <> [] ->
  train (O:=O) args device train_loader epoch w = (Ok tt, w') ->
  count_events is_zero_grad (new_events w w') = 1%nat /\
  count_events is_forward (new_events w w') = 1%nat /\
  count_events is_opt_step (new_events w w') = 1%nat /\
  (exists n b w0 line,
     new_events w w' = EvTrainMode :: EvIter n :: cycle (length b) ++ [EvPrint line] /\
     (w_params w', w_acc w') = batch_update w0 b) /\
  (forall k, 0 < k ->
     train (set_log_interval k args) device train_loader epoch w = (Ok tt, w')).
Proof.
  intros Hd HK Hperm Hne E.
  assert (Hshape : exists n b w0 line,
             new_events w w'
             = EvTrainMode :: EvIter n :: cycle (length b) ++ [EvPrint line] /\
             (w_params w', w_acc w') = batch_update w0 b).
  { unfold train, bind in E. rewrite model_train_eq in E.
    match type of E with
    | context [iter_loader ?l ?w0] =>
        destruct (iter_loader_perm l w0 Hperm) as [order [r [Hp [_ Ei]]]]
    end.
    rewrite Ei in E. unfold enumerate in E.
    destruct (chunks (ld_batch_size train_loader) order) as [| b batches] eqn:Ec.
    { exfalso. apply (@chunks_nonempty _ (ld_batch_size train_loader) order);
        [| exact Ec].
      intros ->. apply Permutation_nil in Hp. auto. }
    simpl enumerate_from in E. rewrite for_each_cons in E.
    match type of E with
    | context [train_body ?a ?d ?l ?e ?it ?v] =>
        destruct (train_body a d l e it v) as [[c | ex] w1] eqn:Eb
    end; [| discriminate].
    pose proof (train_body_first_breaks _ _ _ _ _ _ Hd Eb) as ->.
    inversion E; subst w1.
    destruct (train_body_ok _ _ _ _ _ _ _ Eb)
      as [_ [HK' [Hu [_ [_ [_ [_ [_ [_ [rows [ls [w2 [_ [_ Hl]]]]]]]]]]]]]].
    rewrite Z.mod_0_l in Hl by exact HK'. simpl in Hl.
    exists (length (b :: batches)), b. eexists. eexists.
    split; [| exact Hu].
    apply new_events_app. rewrite Hl. simpl. rewrite <- !app_assoc. reflexivity. }
  destruct Hshape as [n [b [w0 [line [Hn Hu]]]]].
  split; [rewrite Hn; reflexivity |].
  split; [rewrite Hn; reflexivity |].
  split; [rewrite Hn; reflexivity |].
  split; [exists n, b, w0, line; auto |].
  intros k Hk. rewrite <- E.
  rewrite <- (set_log_interval_same args) at 2.
  apply train_dry_run_interval; [exact Hd | lia | lia].
Qed.

(** ** The evaluation loop *)

Lemma hits_cons p (s : Sample (L:=L)) ds :
  hits p (s :: ds) = (if is_hit p s then 1 else 0) + hits p ds.
Proof.
  unfold hits, len. simpl. destruct (is_hit p s); simpl length; lia.
Qed.

Lemma hits_app p (l1 l2 : list (Sample (L:=L))) :
  hits p (l1 ++ l2) = hits p l1 + hits p l2.
Proof.
  unfold hits, len. rewrite filter_app, length_app. lia.
Qed.

Lemma hits_perm p (l1 l2 : list (Sample (L:=L))) :
  Permutation l1 l2 -> hits p l1 = hits p l2.
Proof.
  intros H. unfold hits, len. f_equal.
  apply Permutation_length.
  induction H; simpl.
  - constructor.
  - destruct (is_hit p x); [constructor |]; assumption.
  - destruct (is_hit p x), (is_hit p y); try constructor;
      try apply Permutation_refl.
  - eapply Permutation_trans; eassumption.
Qed.

Lemma count_eq_cons k t preds target :
  count_eq (k :: preds) (t :: target) = (if k =? t then 1 else 0) + count_eq preds target.
Proof.
  unfold count_eq, len. simpl. destruct (k =? t); simpl length; lia.
Qed.

(** A row with an entry for the label has a largest entry. *)
Lemma nll_argmax row t x : nll (L:=L) row t = Some x -> exists k, argmax row = Some k.
Proof.
  unfold nll, argmax. destruct (t <? 0); [discriminate |].
  destruct (scores L row) as [| y l].
  - destruct (Z.to_nat t); discriminate.
  - intros _. eexists. reflexivity.
Qed.

(** Row by row, what the library computes on a batch is what the reference
    definitions give for its samples. *)
Lemma batch_eval p (b : list (Sample (L:=L))) :
  forallb (evaluable p) b = true ->
  exists rows preds,
    map_opt (eval_row p) (map fst b) = Some rows /\
    row_losses rows (map snd b) = Some (sample_losses p b) /\
    map_opt argmax rows = Some preds /\
    count_eq preds (map snd b) = hits p b.
Proof.
  induction b as [| s b IH]; intros H.
  - exists [], []. repeat split; reflexivity.
  - simpl in H. apply andb_true_iff in H. destruct H as [Hs Hb].
    destruct (IH Hb) as [rows [preds [Er [El [Ea Ec]]]]].
    unfold evaluable in Hs.
    destruct (eval_row p (fst s)) as [row |] eqn:Erow; [| discriminate].
    assert (Hk : exists k, argmax row = Some k).
    { destruct (snd s =? ignore_index).
      - unfold argmax. destruct (scores L row); [discriminate | eexists; reflexivity].
      - destruct (nll row (snd s)) eqn:En; [| discriminate].
        eapply nll_argmax; exact En. }
    destruct Hk as [k Ek].
    exists (row :: rows), (k :: preds).
    split; [simpl; rewrite Erow, Er; reflexivity |].
    split.
    { unfold row_losses in *. cbn [map combine filter]. unfold counted at 1.
      cbn [fst snd]. unfold sample_losses. cbn [flat_map].
      unfold sample_nll, obind. rewrite Erow.
      destruct (snd s =? ignore_index); cbn [negb].
      - exact El.
      - destruct (nll row (snd s)) as [x |] eqn:En; [| discriminate].
        cbn [map_opt fst snd]. rewrite En.
        unfold sample_losses in El. rewrite El. reflexivity. }
    split; [simpl; rewrite Ek, Ea; reflexivity |].
    simpl map. rewrite count_eq_cons, hits_cons, Ec.
    unfold is_hit, sample_hit, obind. rewrite Erow, Ek. simpl.
    destruct (k =? snd s); reflexivity.
Qed.

Lemma fold_left_accumulate p (batches : list (list (Sample (L:=L)))) acc b :
  fold_left (py_add A) (map (batch_loss p) batches) (py_add A acc (batch_loss p b))
  = fold_left (py_add A) (map (batch_loss p) (b :: batches)) acc.
Proof. reflexivity. Qed.

(** The loop of [test] in evaluation mode, on batches of evaluable samples:
    it completes with the batch losses added to [test_loss] and the hits added
    to [correct], and leaves nothing but calls in the log. *)
Lemma test_loop_ok device (batches : list (list (Sample (L:=L)))) :
  forall test_loss correct w,
    w_training w = false ->
    forallb (evaluable (w_params w)) (concat batches) = true ->
    exists l,
      for_fold batches (test_loss, correct) (test_body (O:=O) device) w
      = (Ok (fold_left (py_add A) (map (batch_loss (w_params w)) batches) test_loss,
             correct + hits (w_params w) (concat batches)),
         set_log (w_log w ++ l) w) /\
      forallb (fun e => negb (is_print e)) l = true.
Proof.
  induction batches as [| b batches IH]; intros test_loss correct w Ht He.
  - exists []. split; [| reflexivity]. simpl. unfold ret, hits, len. simpl.
    rewrite Z.add_0_r, app_nil_r. destruct w; reflexivity.
  - simpl concat in He. rewrite forallb_app in He.
    apply andb_true_iff in He. destruct He as [Hb Hrest].
    destruct (batch_eval _ _ Hb) as [rows [preds [Er [El [Ea Ec]]]]].
    cbn [for_fold]. unfold bind at 1. unfold test_body at 1. unfold collate, to.
    unfold bind at 1. rewrite call_model_eq. cbv zeta.
    rewrite forward_eval by exact Ht. simpl w_params. rewrite Er. simpl or_raise.
    cbv iota beta.
    unfold nll_loss, argmax_rows, emit, modify, bind, ret. simpl.
    fold (row_losses rows (map snd b)). rewrite El. simpl. rewrite Ea. simpl.
    match goal with
    | |- context [for_fold batches (?tl, ?c) _ ?w1] =>
        destruct (IH tl c w1) as [l [E Fl]]; [exact Ht | exact Hrest |]
    end.
    unfold bind in E. simpl in E. rewrite E.
    eexists. split.
    + f_equal.
      * rewrite Ec, hits_app, Z.add_assoc. reflexivity.
      * simpl. rewrite <- !app_assoc. reflexivity.
    + simpl. exact Fl.
Qed.

Lemma printed_app (l1 l2 : list (Event (A:=A))) :
  printed (l1 ++ l2) = printed l1 ++ printed l2.
Proof. apply flat_map_app. Qed.

Lemma printed_none (l : list (Event (A:=A))) :
  forallb (fun e => negb (is_print e)) l = true -> printed l = [].
Proof.
  induction l as [| e l IH]; simpl; [reflexivity |].
  intros H. apply andb_true_iff in H. destruct H as [He Hl].
  destruct e; simpl in *; try discriminate; auto.
Qed.

Lemma stdout_printed w : stdout w = printed (w_log w).
Proof. reflexivity. Qed.

Lemma forallb_perm {X : Type} (f : X -> bool) (l1 l2 : list X) :
  Permutation l1 l2 -> forallb f l1 = true -> forallb f l2 = true.
Proof.
  intros Hp H. apply forallb_forall. intros x Hx.
  apply (proj1 (forallb_forall f l1) H).
  apply Permutation_in with l2; [apply Permutation_sym; exact Hp | exact Hx].
Qed.

Lemma len_nonzero {X : Type} (l : list X) : l <> [] -> (len l =? 0) = false.
Proof.
  intros H. apply Z.eqb_neq. unfold len. destruct l; [congruence | simpl; lia].
Qed.

(** An evaluation pass over a non-empty set of evaluable samples completes and
    prints one line: the accumulated loss over the batches of the pass divided
    by the size of the set, the hits over the set, the size, the percentage. *)
Lemma test_ok device test_loader w :
  randperm_ok L ->
  dataset test_loader <> [] ->
  forallb (evaluable (w_params w)) (dataset test_loader) = true ->
  exists order w',
    Permutation order (dataset test_loader) /\
    (ld_shuffle test_loader = false -> order = dataset test_loader) /\
    test (O:=O) device test_loader w = (Ok tt, w') /\
    printed (new_events w w')
    = [test_report (w_params w) (dataset test_loader)
                   (chunks (ld_batch_size test_loader) order)].
Proof.
  intros Hperm Hne Hev.
  unfold test. erewrite bind_ok by apply model_eval_eq.
  set (w0 := set_training false (set_log (w_log w ++ [EvEvalMode]) w)).
  unfold bind at 1. unfold no_grad, emit, modify. cbv zeta.
  set (w1 := set_log (w_log (set_grad_enabled false w0) ++ [EvNoGradEnter])
                     (set_grad_enabled false w0)).
  cbv iota beta.
  destruct (iter_loader_perm test_loader w1 Hperm) as [order [r [Hp [Hs Ei]]]].
  erewrite bind_ok by exact Ei.
  match goal with
  | |- context [for_fold ?bs (?tl, ?c) _ ?v] =>
      destruct (test_loop_ok device bs tl c v) as [l [El Fl]]
  end.
  { reflexivity. }
  { rewrite chunks_concat. simpl.
    apply forallb_perm with (dataset test_loader);
      [apply Permutation_sym; exact Hp | exact Hev]. }
  rewrite El. cbv iota beta.
  unfold py_truediv, print, emit, modify, bind, ret.
  rewrite (len_nonzero Hne). simpl.
  exists order. eexists. split; [exact Hp |]. split; [intros H; apply Hs; exact H |].
  split; [reflexivity |].
  erewrite new_events_app.
  2: { simpl. unfold w0. simpl. rewrite <- !app_assoc. reflexivity. }
  simpl. rewrite !printed_app, (printed_none _ Fl). simpl.
  unfold test_report, accumulate, percent.
  rewrite chunks_concat, (hits_perm _ Hp). simpl. reflexivity.
Qed.

Lemma hits_all p (ds : list (Sample (L:=L))) :
  forallb (is_hit p) ds = true -> hits p ds = len ds.
Proof.
  intros H. unfold hits. f_equal.
  induction ds as [| s ds IH]; simpl in *; [reflexivity |].
  apply andb_true_iff in H. destruct H as [Hs Hd].
  rewrite Hs. f_equal. apply IH. exact Hd.
Qed.

Lemma hits_none p (ds : list (Sample (L:=L))) :
  forallb (fun s => negb (is_hit p s)) ds = true -> hits p ds = 0.
Proof.
  intros H. unfold hits, len.
  induction ds as [| s ds IH]; simpl in *; [reflexivity |].
  apply andb_true_iff in H. destruct H as [Hs Hd].
  destruct (is_hit p s); [discriminate |]. apply IH. exact Hd.
Qed.

(** An evaluation pass over a non-empty set of evaluable samples completes
    and prints one line: the count of the hits of the set, whatever the
    batches, the size of the set, and [100. * correct / total]. *)
Lemma test_accuracy_line device test_loader w :
  randperm_ok L ->
  dataset test_loader <> [] ->
  forallb (evaluable (w_params w)) (dataset test_loader) = true ->
  exists w' avg,
    test (O:=O) device test_loader w = (Ok tt, w') /\
    printed (new_events w w')
    = [TestLine avg (hits (w_params w) (dataset test_loader))
                (len (dataset test_loader))
                (percent (hits (w_params w) (dataset test_loader))
                         (len (dataset test_loader)))].
Proof.
  intros Hperm Hne Hev.
  destruct (test_ok device test_loader w Hperm Hne Hev)
    as [order [w' [Hp [_ [Et Epr]]]]].
  exists w'. eexists. split; [exact Et |]. exact Epr.
Qed.

(** ** The arg-max of a row *)

Section Argmax.
Hypothesis HO : Ordered A.

Lemma ltb_irrefl x : t_ltb A x x = false.
Proof.
  destruct (t_ltb A x x) eqn:E; [| reflexivity].
  rewrite (ltb_asym HO _ _ E) in E. discriminate.
Qed.

(** The scan of [argmax]: [best], found at [besti], is the first largest
    entry of the part [pre] already seen. *)
Lemma argmax_from_first_max (l : list (tfloat A)) :
  forall pre best besti,
    nth_error pre besti = Some best ->
    (forall j y, nth_error pre j = Some y -> t_ltb A best y = false) ->
    (forall j y, nth_error pre j = Some y -> (j < besti)%nat -> t_ltb A y best = true) ->
    first_max (pre ++ l)
              (argmax_from best (Z.of_nat besti) (Z.of_nat (length pre)) l).
Proof.
  induction l as [| x l IH]; intros pre best besti Hb Hmax Hfirst.
  - simpl. rewrite app_nil_r. split; [lia |].
    exists best. rewrite Nat2Z.id. auto.
  - cbn [argmax_from].
    assert (Hlen : Z.of_nat (length pre) + 1 = Z.of_nat (length (pre ++ [x])))
      by (rewrite length_app; simpl; lia).
    assert (Hin : forall j y, nth_error (pre ++ [x]) j = Some y ->
                              (j < length pre)%nat /\ nth_error pre j = Some y \/
                              j = length pre /\ y = x).
    { intros j y Hj. destruct (Nat.lt_ge_cases j (length pre)) as [Hlt | Hge].
      - left. rewrite nth_error_app1 in Hj by exact Hlt. auto.
      - right. rewrite nth_error_app2 in Hj by exact Hge.
        destruct (j - length pre)%nat as [| n] eqn:En; simpl in Hj.
        + inversion Hj. split; [lia | reflexivity].
        + destruct n; discriminate. }
    assert (Hbi : (besti < length pre)%nat)
      by (apply nth_error_Some; congruence).
    replace (pre ++ x :: l) with ((pre ++ [x]) ++ l)
      by (rewrite <- app_assoc; reflexivity).
    rewrite Hlen.
    destruct (t_ltb A best x) eqn:E.
    + apply IH.
      * rewrite nth_error_app2, Nat.sub_diag by lia. reflexivity.
      * intros j y Hj. destruct (Hin j y Hj) as [[_ Hy] | [_ ->]].
        -- destruct (t_ltb A x y) eqn:Exy; [| reflexivity].
           destruct (ltb_cotrans HO _ _ y E) as [H | H].
           ++ rewrite (Hmax j y Hy) in H. discriminate.
           ++ rewrite (ltb_asym HO _ _ Exy) in H. discriminate.
        -- apply ltb_irrefl.
      * intros j y Hj Hlt. destruct (Hin j y Hj) as [[_ Hy] | [Hj' _]]; [| lia].
        destruct (ltb_cotrans HO _ _ y E) as [H | H]; [| exact H].
        rewrite (Hmax j y Hy) in H. discriminate.
    + apply IH.
      * rewrite nth_error_app1 by exact Hbi. exact Hb.
      * intros j y Hj. destruct (Hin j y Hj) as [[_ Hy] | [_ ->]];
          [exact (Hmax j y Hy) | exact E].
      * intros j y Hj Hlt. destruct (Hin j y Hj) as [[_ Hy] | [Hj' _]]; [| lia].
        exact (Hfirst j y Hy Hlt).
Qed.

Lemma first_max_unique (l : list (tfloat A)) k1 k2 :
  first_max l k1 -> first_max l k2 -> k1 = k2.
Proof.
  intros [H1 [x1 [E1 [M1 F1]]]] [H2 [x2 [E2 [M2 F2]]]].
  destruct (Nat.lt_trichotomy (Z.to_nat k1) (Z.to_nat k2)) as [Hlt | [Heq | Hgt]].
  - pose proof (F2 _ _ E1 Hlt) as H. rewrite (M1 _ _ E2) in H. discriminate.
  - lia.
  - pose proof (F1 _ _ E2 Hgt) as H. rewrite (M2 _ _ E1) in H. discriminate.
Qed.

(** [argmax] returns the first index of a largest entry, and nothing else
    is one. *)
Lemma argmax_first_max (row : Tensor L) k :
  argmax row = Some k <-> first_max (scores L row) k.
Proof.
  assert (Hfound : forall k0, argmax row = Some k0 -> first_max (scores L row) k0).
  { intros k0. unfold argmax. destruct (scores L row) as [| x l]; [discriminate |].
    intros H. inversion H; subst k0.
    apply (@argmax_from_first_max l [x] x 0%nat).
    - reflexivity.
    - intros [| [| j]] y Hj; simpl in Hj; try discriminate.
      inversion Hj; subst y. apply ltb_irrefl.
    - intros j y _ Hlt. lia. }
  split; [apply Hfound |].
  intros Hk. destruct (argmax row) as [k0 |] eqn:E.
  - f_equal. eapply first_max_unique; [apply Hfound; reflexivity | exact Hk].
  - unfold argmax in E. destruct Hk as [_ [x [Hx _]]].
    destruct (scores L row); [| discriminate].
    destruct (Z.to_nat k); discriminate.
Qed.

(** A sample is a hit when its label is the first index at which the row the
    model gives it has a largest score. *)
Lemma is_hit_first_max p (s : Sample (L:=L)) :
  is_hit p s = true <->
  exists row, eval_row p (fst s) = Some row /\ first_max (scores L row) (snd s).
Proof.
  unfold is_hit, sample_hit, obind.
  destruct (eval_row p (fst s)) as [row |].
  - destruct (argmax row) as [k |] eqn:Ek; simpl.
    + apply argmax_first_max in Ek.
      destruct (k =? snd s) eqn:Eq.
      * apply Z.eqb_eq in Eq. subst k. split; [| reflexivity].
        intros _. exists row. auto.
      * apply Z.eqb_neq in Eq. split; [discriminate |].
        intros [row' [Hr Hm]]. inversion Hr; subst row'.
        exfalso. apply Eq. eapply first_max_unique; eassumption.
    + split; [discriminate |].
      intros [row' [Hr Hm]]. inversion Hr; subst row'.
      apply argmax_first_max in Hm. congruence.
  - split; [discriminate |]. intros [row [Hr _]]. discriminate.
Qed.
End Argmax.

(** ** The rate scheduler *)

Lemma advance_every_epoch (s : StepLR (A:=A)) rate :
  step_size s = 1 ->
  advance s rate
  = ({| step_index := step_index s + 1; base_lr := base_lr s;
        decay := decay s; step_size := step_size s |},
     py_mul A rate (decay s)).
Proof.
  intros H. unfold advance. rewrite H, Z.mod_1_r. reflexivity.
Qed.

Lemma advances_every_epoch n (s : StepLR (A:=A)) rate :
  step_size s = 1 ->
  step_size (fst (advances n s rate)) = 1 /\
  decay (fst (advances n s rate)) = decay s /\
  step_index (fst (advances n s rate)) = step_index s + Z.of_nat n /\
  snd (advances n s rate) = Nat.iter n (fun x => py_mul A x (decay s)) rate.
Proof.
  intros H. induction n as [| n [IH1 [IH2 [IH3 IH4]]]].
  - simpl. repeat split; auto. lia.
  - change (advances (S n) s rate)
      with (advance (fst (advances n s rate)) (snd (advances n s rate))).
    rewrite advance_every_epoch by exact IH1.
    simpl. rewrite IH2, IH3, IH4. repeat split; auto. lia.
Qed.

(** A loop that completes has kept an invariant of its rounds. *)
Lemma for_fold_inv {X S : Type} (I : nat -> S -> World O -> Prop) (body : S -> X -> M O S) :
  (forall k a x w a' w', I k a w -> body a x w = (Ok a', w') -> I (Datatypes.S k) a' w') ->
  forall xs k acc w acc' w',
    I k acc w -> for_fold xs acc body w = (Ok acc', w') -> I (k + length xs)%nat acc' w'.
Proof.
  intros Hb. induction xs as [| x xs IH]; intros k acc w acc' w' HI H.
  - inversion H; subst. rewrite Nat.add_0_r. exact HI.
  - cbn [for_fold] in H. unfold bind in H.
    destruct (body acc x w) as [[a1 | ex] w1] eqn:E; [| discriminate].
    simpl length. rewrite Nat.add_succ_r.
    apply (IH (Datatypes.S k) a1 w1); [eapply Hb; eauto | exact H].
Qed.

Lemma range_length a b : length (range a b) = Z.to_nat (b - a).
Proof. unfold range. rewrite length_map, length_seq. reflexivity. Qed.

Lemma train_keeps_lr args device train_loader epoch :
  preserves (keeps (@w_lr A L O)) (train (O:=O) args device train_loader epoch).
Proof. frame_calls; keeps_leaf. Qed.

Lemma test_keeps_lr device test_loader :
  preserves (keeps (@w_lr A L O)) (test (O:=O) device test_loader).
Proof. frame_calls; keeps_leaf. Qed.

Lemma scheduler_step_eq s w :
  scheduler_step s w
  = (Ok (fst (advance s (w_lr w))),
     set_lr (snd (advance s (w_lr w))) (set_log (w_log w ++ [EvSchedStep]) w)).
Proof.
  unfold scheduler_step, bind, emit, modify, gets, ret. simpl.
  destruct (advance s (w_lr w)). reflexivity.
Qed.

Lemma torch_manual_seed_ok s w u w' :
  torch_manual_seed (O:=O) s w = (Ok u, w') ->
  seed_min <= s <= seed_max /\ w' = set_rng (manual_seed L s) w.
Proof.
  unfold torch_manual_seed, modify, raise.
  destruct ((seed_min <=? s) && (s <=? seed_max)) eqn:E; intros H; inversion H.
  apply andb_true_iff in E. destruct E as [E1 E2].
  apply Z.leb_le in E1, E2. auto.
Qed.

Lemma new_Adadelta_ok rate w u w' :
  new_Adadelta (O:=O) rate w = (Ok u, w') ->
  py_leb A (py_of_int A 0) rate = true /\
  w' = set_lr rate (set_acc (adadelta_init O (w_params w)) w).
Proof.
  unfold new_Adadelta, modify, raise.
  destruct (py_leb A (py_of_int A 0) rate); intros H; inversion H. auto.
Qed.

(** Splits a completed sequence of statements into its steps. *)
Ltac step_in H :=
  repeat match type of H with
         | bind ?m ?k ?w0 = (Ok _, _) =>
             let r := fresh "r" in
             let w1 := fresh "w" in
             let E := fresh "E" in
             unfold bind at 1 in H;
             destruct (m w0) as [[r | ?] w1] eqn:E; [| discriminate]
         end.

(** What the statements of [main] before the loop did, when they completed. *)
Ltac set_up :=
  repeat match goal with
         | E : torch_manual_seed _ _ = (Ok _, _) |- _ =>
             apply torch_manual_seed_ok in E; destruct E as [? ?]
         | E : new_Adadelta _ _ = (Ok _, _) |- _ =>
             apply new_Adadelta_ok in E; destruct E as [? ?]
         end.

(** After a run that completes, the step-size has been multiplied by the
    decay factor once for each epoch. *)
Lemma main_decays_rate args env w w' :
  main (O:=O) args env w = (Ok tt, w') ->
  w_lr w' = Nat.iter (Z.to_nat (epochs args)) (fun x => py_mul A x (gamma args)) (lr args).
Proof.
  intros H. unfold main in H. step_in H.
  match goal with
  | Hf : for_fold _ ?s0 _ ?v0 = (Ok ?s1, ?v1) |- _ =>
      assert (Hinv : step_size s1 = 1 /\ decay s1 = gamma args /\
                     w_lr v1 = Nat.iter (0 + length (range 1 (epochs args + 1)))
                                 (fun x => py_mul A x (gamma args)) (lr args));
        [ revert Hf;
          apply (@for_fold_inv _ _
                   (fun k s v => step_size s = 1 /\ decay s = gamma args /\
                                 w_lr v = Nat.iter k (fun x => py_mul A x (gamma args))
                                            (lr args))) |]
  end.
  - intros k a x v a' v' [I1 [I2 I3]] Hb. unfold bind in Hb.
    match type of Hb with
    | context [train ?a ?d ?l ?e v] =>
        pose proof (train_keeps_lr a d l e v) as Ht;
        destruct (train a d l e v) as [[[] | ?] v1]; [| discriminate]
    end.
    match type of Hb with
    | context [test ?d ?l v1] =>
        pose proof (test_keeps_lr d l v1) as Hte;
        destruct (test d l v1) as [[[] | ?] v2]; [| discriminate]
    end.
    rewrite scheduler_step_eq, advance_every_epoch in Hb by exact I1.
    inversion Hb; subst. simpl. unfold keeps in *. simpl in *.
    repeat split; auto. congruence.
  - set_up. unfold mkStepLR, bind, gets, modify, ret in *.
    repeat match goal with
           | E : (_, _) = (_, _) |- _ => inversion E; clear E; subst
           end.
    simpl. auto.
  - destruct Hinv as [_ [_ Hlr]]. rewrite range_length in Hlr.
    replace (epochs args + 1 - 1) with (epochs args) in Hlr by lia. simpl in Hlr.
    destruct (save_model args).
    + unfold torch_save, bind, emit, modify in H. inversion H; subst. exact Hlr.
    + inversion H; subst. exact Hlr.
Qed.

(** ** The run *)

Lemma range_from_one n : range 1 (n + 1) = map Z.of_nat (seq 1 (Z.to_nat n)).
Proof.
  unfold range. replace (n + 1 - 1) with n by lia.
  rewrite <- seq_shift, map_map. apply map_ext. intros i. lia.
Qed.

Lemma phases_app (l1 l2 : list (Event (A:=A))) : phases (l1 ++ l2) = phases l1 ++ phases l2.
Proof. apply filter_app. Qed.

Lemma phases_none (l : list (Event (A:=A))) :
  forallb (fun e => negb (is_phase e)) l = true -> phases l = [].
Proof.
  unfold phases. induction l as [| e l IH]; simpl; [reflexivity |].
  intros H. apply andb_true_iff in H. destruct H as [He Hl].
  destruct (is_phase e); [discriminate | auto].
Qed.

(** A training pass opens with the switch to training mode and has no other
    phase event; it writes no file. *)
Lemma train_phases args device train_loader epoch w :
  exists l,
    w_log (snd (train (O:=O) args device train_loader epoch w))
    = w_log w ++ EvTrainMode :: l /\
    phases l = [] /\
    w_disk (snd (train args device train_loader epoch w)) = w_disk w.
Proof.
  assert (Hd : preserves (keeps (@w_disk A L O)) (train (O:=O) args device train_loader epoch))
    by (frame_calls; keeps_leaf).
  unfold train in *. specialize (Hd w).
  erewrite bind_ok in * by apply model_train_eq.
  match goal with
  | |- context [snd (?m ?w0)] =>
      assert (H : preserves (logs (fun e => negb (is_phase e))) m)
        by (frame_with ltac:(apply call_model_logs; reflexivity); logs_leaf);
      destruct (H w0) as [l [El Fl]]
  end.
  exists l. split; [| split].
  - rewrite El. simpl. rewrite <- app_assoc. reflexivity.
  - apply phases_none. exact Fl.
  - exact Hd.
Qed.

(** An evaluation pass opens with the switch to evaluation mode and has no
    other phase event; it writes no file. *)
Lemma test_phases device test_loader w :
  exists l,
    w_log (snd (test (O:=O) device test_loader w)) = w_log w ++ EvEvalMode :: l /\
    phases l = [] /\
    w_disk (snd (test device test_loader w)) = w_disk w.
Proof.
  assert (Hd : preserves (keeps (@w_disk A L O)) (test (O:=O) device test_loader))
    by (frame_calls; keeps_leaf).
  unfold test in *. specialize (Hd w).
  erewrite bind_ok in * by apply model_eval_eq.
  match goal with
  | |- context [snd (?m ?w0)] =>
      assert (H : preserves (logs (fun e => negb (is_phase e))) m)
        by (frame_with ltac:(apply call_model_logs; reflexivity); logs_leaf);
      destruct (H w0) as [l [El Fl]]
  end.
  exists l. split; [| split].
  - rewrite El. simpl. rewrite <- app_assoc. reflexivity.
  - apply phases_none. exact Fl.
  - exact Hd.
Qed.

(** The loop of [main] that completes has run the epochs of its list one
    after the other. *)
Lemma for_fold_epochs args device train_loader test_loader es :
  forall s w s' w',
    for_fold es s (fun scheduler epoch =>
      train (O:=O) args device train_loader epoch ;;;
      test device test_loader ;;;
      scheduler_step scheduler) w = (Ok s', w') ->
    Epochs args device train_loader test_loader es s w s' w'.
Proof.
  induction es as [| epoch es IH]; intros s w s' w' H.
  - inversion H; subst. constructor.
  - cbn [for_fold] in H. unfold bind at 1 in H.
    match type of H with
    | context [match ?m w with _ => _ end] =>
        destruct (m w) as [[s1 | ?] w3] eqn:E; [| discriminate]
    end.
    step_in E.
    repeat match goal with
           | u : unit |- _ => destruct u
           end.
    econstructor; eauto.
Qed.

(** The phase events of a sequence of epochs: for each epoch the opening of
    the training pass, the opening of the evaluation pass, the advance of the
    scheduler; no file is written. *)
Lemma epochs_phases args device train_loader test_loader es s w s' w' :
  Epochs args device train_loader test_loader es s w s' w' ->
  exists l,
    w_log w' = w_log w ++ l /\
    phases l = concat (map (fun _ => [EvTrainMode; EvEvalMode; EvSchedStep]) es) /\
    w_disk w' = w_disk w.
Proof.
  induction 1 as [s w | epoch es s w w1 w2 s1 w3 s' w' Ht Hte Hs _ [l [El [Pl Dl]]]].
  - exists []. rewrite app_nil_r. auto.
  - destruct (train_phases args device train_loader epoch w) as [lt [Elt [Plt Dlt]]].
    rewrite Ht in Elt, Dlt. simpl in Elt, Dlt.
    destruct (test_phases device test_loader w1) as [le [Ele [Ple Dle]]].
    rewrite Hte in Ele, Dle. simpl in Ele, Dle.
    rewrite scheduler_step_eq in Hs. inversion Hs; subst s1 w3. clear Hs.
    simpl in El, Dl.
    exists ((EvTrainMode :: lt) ++ (EvEvalMode :: le) ++ [EvSchedStep] ++ l).
    split; [| split].
    + rewrite El, Ele, Elt. rewrite <- !app_assoc. reflexivity.
    + rewrite !phases_app. simpl. unfold phases in *. simpl.
      rewrite Plt, Ple, Pl. reflexivity.
    + congruence.
Qed.

(** A run is the same run without the request to save, followed, if it
    completes and saving is requested, by the saving. *)
Lemma main_save_last args env w :
  main (O:=O) args env w =
  match main (set_save_model false args) env w with
  | (Ok _, w1) =>
      if save_model args then torch_save "mnist_cnn.pt" w1 else (Ok tt, w1)
  | (Raise ex, w1) => (Raise ex, w1)
  end.
Proof.
  unfold main. simpl. unfold bind.
  destruct (torch_manual_seed _ w) as [[? | ?] ?]; [| reflexivity].
  destruct (mkDataLoader (mnist_train env) _ _ _) as [[? | ?] ?]; [| reflexivity].
  destruct (mkDataLoader (mnist_test env) _ _ _) as [[? | ?] ?]; [| reflexivity].
  destruct (new_Net _ _) as [[? | ?] ?]; [| reflexivity].
  destruct (new_Adadelta _ _) as [[? | ?] ?]; [| reflexivity].
  destruct (mkStepLR _ _ _) as [[? | ?] ?]; [| reflexivity].
  destruct (for_fold _ _ _ _) as [[? | ?] ?]; [| reflexivity].
  destruct (save_model args); reflexivity.
Qed.

(** Without the request to save, a run, completed or not, saves nothing. *)
Lemma main_without_save args env w :
  let w1 := snd (main (O:=O) (set_save_model false args) env w) in
  w_disk w1 = w_disk w /\
  existsb is_save (new_events w w1) = false.
Proof.
  cbv zeta.
  assert (Hd : preserves (keeps (@w_disk A L O)) (main (O:=O) (set_save_model false args) env)).
  { unfold main. simpl save_model. cbv iota.
    frame_calls; try destruct (net_init O _); frame_calls; keeps_leaf. }
  assert (Hl : preserves (logs (fun e => negb (is_save e)))
                         (main (O:=O) (set_save_model false args) env)).
  { unfold main. simpl save_model. cbv iota.
    frame_with ltac:(apply call_model_logs; reflexivity);
      try destruct (net_init O _);
      frame_with ltac:(apply call_model_logs; reflexivity); logs_leaf. }
  split; [apply Hd |].
  destruct (Hl w) as [l [El Fl]].
  rewrite (@new_events_app _ _ l El).
  clear El. induction l as [| e l IH]; simpl in *; [reflexivity |].
  apply andb_true_iff in Fl. destruct Fl as [He Hl'].
  destruct (is_save e); [discriminate | auto].
Qed.

Lemma mkDataLoader_ok ds bs shuffle w ld w' :
  mkDataLoader (O:=O) ds bs shuffle w = (Ok ld, w') ->
  dataset ld = ds /\ Zpos (ld_batch_size ld) = bs /\ ld_shuffle ld = shuffle /\ w' = w.
Proof.
  unfold mkDataLoader, raise, ret.
  destruct (shuffle && (len ds =? 0)); [discriminate |].
  destruct bs; try discriminate.
  intros H. inversion H; subst. simpl. auto.
Qed.

(** A loader that shuffles has something to shuffle. *)
Lemma mkDataLoader_shuffles ds bs shuffle w ld w' :
  mkDataLoader (O:=O) ds bs shuffle w = (Ok ld, w') -> shuffle = true -> ds <> [].
Proof.
  unfold mkDataLoader, raise, ret. intros H Hs Hnil. subst ds shuffle. discriminate.
Qed.

Lemma torch_save_eq name w :
  torch_save name w
  = (Ok tt, set_disk ((name, w_params w) :: w_disk w)
                     (set_log (w_log w ++ [EvSave name]) w)).
Proof. reflexivity. Qed.

Lemma existsb_save_phases (l : list (Event (A:=A))) :
  existsb is_save l = existsb is_save (phases l).
Proof.
  unfold phases. induction l as [| e l IH]; simpl; [reflexivity |].
  destruct e; simpl; auto.
Qed.

Lemma epochs_events_no_save {X : Type} (es : list X) :
  existsb is_save
    (concat (map (fun _ => [EvTrainMode (A:=A); EvEvalMode; EvSchedStep]) es)) = false.
Proof. induction es as [| e es IH]; simpl; auto. Qed.

(** C7.  A run that completes has built the two loaders from the datasets and
    batch sizes given, logged nothing while setting up, and then run the epochs
    1 to [E] in order, each a training pass that completes, then an evaluation
    pass that completes, then one advance of the scheduler: the passes open
    and the scheduler advances in exactly that order, [E] times, and nothing
    of that kind happens besides.  Up to the end of the last epoch no file is
    written; then, if and only if saving is requested, the parameters are
    written to "mnist_cnn.pt".  A run that raises writes nothing. *)
Theorem main_runs_epochs_in_order args env w :
  (forall w',
     main (O:=O) args env w = (Ok tt, w') ->
     exists train_loader test_loader s0 w0 s1 w1,
       dataset train_loader = mnist_train env /\
       Zpos (ld_batch_size train_loader) = batch_size args /\
       dataset test_loader = mnist_test env /\
       Zpos (ld_batch_size test_loader) = test_batch_size args /\
       w_log w0 = w_log w /\
       Epochs args (device_of args env) train_loader test_loader
              (map Z.of_nat (seq 1 (Z.to_nat (epochs args)))) s0 w0 s1 w1 /\
       phases (new_events w w1)
       = concat (map (fun _ => [EvTrainMode; EvEvalMode; EvSchedStep])
                     (seq 1 (Z.to_nat (epochs args)))) /\
       w_disk w1 = w_disk w /\
       existsb is_save (new_events w w1) = false /\
       w' = if save_model args
            then set_disk (("mnist_cnn.pt"%string, w_params w1) :: w_disk w1)
                          (set_log (w_log w1 ++ [EvSave "mnist_cnn.pt"]) w1)
            else w1) /\
  (forall ex w',
     main (O:=O) args env w = (Raise ex, w') ->
     w_disk w' = w_disk w /\ existsb is_save (new_events w w') = false).
Proof.
  split.
  - intros w' H. unfold main in H. step_in H.
    repeat match goal with
           | E : mkDataLoader _ _ _ _ = (Ok _, _) |- _ =>
               apply mkDataLoader_ok in E; destruct E as [? [? [? ?]]]
           end.
    match goal with
    | Hf : for_fold _ _ _ _ = (Ok _, _) |- _ =>
        apply for_fold_epochs in Hf; rewrite range_from_one in Hf;
        pose proof (epochs_phases Hf) as [l [El [Pl Dl]]]
    end.
    set_up. subst.
    unfold new_Net, mkStepLR, bind, gets, modify, ret in *.
    destruct (net_init O _).
    repeat match goal with
           | E : (_, _) = (_, _) |- _ => inversion E; clear E; subst
           end.
    match goal with
    | Hf : Epochs _ _ ?tl ?tsl _ ?s0 ?w0 ?s1 ?w1 |- _ =>
        exists tl, tsl, s0, w0, s1, w1
    end.
    rewrite map_map in Pl.
    repeat (split; [assumption || reflexivity |]).
    split; [erewrite new_events_app; [exact Pl | rewrite El; reflexivity] |].
    split; [exact Dl |].
    split.
    + erewrite new_events_app; [| rewrite El; reflexivity].
      rewrite existsb_save_phases, Pl. apply epochs_events_no_save.
    + destruct (save_model args).
      * rewrite torch_save_eq in H. inversion H. reflexivity.
      * inversion H. reflexivity.
  - intros ex w' H. rewrite main_save_last in H.
    pose proof (main_without_save args env w) as Hn. cbv zeta in Hn.
    destruct (main (set_save_model false args) env w) as [[[] | ex1] w1].
    + destruct (save_model args); [rewrite torch_save_eq in H |]; discriminate.
    + inversion H; subst. exact Hn.
Qed.

(** ** Progress lines *)

(** Printing adds a line to the console and changes nothing else. *)
Lemma print_only_logs line w :
  print line w = (Ok tt, set_log (w_log w ++ [EvPrint line]) w).
Proof. reflexivity. Qed.

(** The progress lines of a completed pass that is not a dry run: one for each
    batch whose index is a multiple of the log interval, in order, made of the
    epoch, the batch index times the size of that batch, the size of the
    dataset, the percentage of batches, and a loss. *)
Lemma train_loop_reports args device train_loader epoch items :
  dry_run args = false ->
  forall w w',
    for_each items (train_body (O:=O) args device train_loader epoch) w = (Ok tt, w') ->
    exists l,
      w_log w' = w_log w ++ l /\
      Forall2
        (fun it line =>
           exists loss,
             line = TrainLine epoch (fst it * len (snd it)) (len (dataset train_loader))
                              (percent (fst it) (loader_len train_loader)) loss)
        (filter (fun it => fst it mod log_interval args =? 0) items)
        (printed l).
Proof.
  intros Hd. induction items as [| [i b] items IH]; intros w w' H.
  - inversion H; subst. exists []. rewrite app_nil_r. split; [reflexivity | constructor].
  - rewrite for_each_cons in H.
    destruct (train_body args device train_loader epoch (i, b) w) as [[c | ex] w1] eqn:E;
      [| discriminate].
    destruct (train_body_ok _ _ _ _ _ _ _ E)
      as [_ [_ [_ [_ [_ [_ [_ [_ [Hc [rows [ls [w2 [_ [_ Hl]]]]]]]]]]]]]].
    rewrite Hd, andb_false_r in Hc. subst c.
    destruct (IH w1 w' H) as [l [El Fl]].
    eexists. split; [eapply new_events_trans; [exact Hl | exact El] |].
    rewrite !printed_app. cbn [filter fst snd].
    destruct (i mod log_interval args =? 0); simpl.
    + constructor; [eexists; reflexivity | exact Fl].
    + exact Fl.
Qed.

(** * Further properties of the script *)

(** ** Empty datasets *)

(** X1.  Over an empty dataset, read in order, a training pass switches the
    model to training mode, draws the base seed of its iterator from the
    generator and is over; an evaluation pass switches the model to evaluation
    mode, enters the no-gradient block, draws the base seed, leaves the block
    without a forward pass, and raises [ZeroDivisionError] where it divides
    the accumulated loss by the size of the dataset, before it prints.  A
    loader that shuffles is not built over an empty dataset. *)
Theorem empty_dataset_passes args device size epoch w :
  let none := {| dataset := []; ld_batch_size := size; ld_shuffle := false |} in
  let drawn := set_rng (snd (random_ L (w_rng w))) w in
  train (O:=O) args device none epoch w
  = (Ok tt, set_training true (set_log (w_log w ++ [EvTrainMode; EvIter 0]) drawn)) /\
  test (O:=O) device none w
  = (Raise ZeroDivisionError,
     set_training false
       (set_log (w_log w ++ [EvEvalMode; EvNoGradEnter; EvIter 0; EvNoGradExit])
                drawn)) /\
  (forall bs, mkDataLoader (O:=O) [] bs true w = (Raise ValueError, w)).
Proof.
  cbv zeta. destruct w.
  split; [| split; [| reflexivity]];
    unfold train, test, model_train, model_eval, iter_loader, no_grad, py_truediv,
      emit, modify, bind, ret, raise, gets; simpl;
    destruct (random_ L _); simpl;
    rewrite <- ?app_assoc; reflexivity.
Qed.

(** ** What an evaluation pass leaves alone *)

Lemma only_log_refl w : only_log w w.
Proof. destruct w; reflexivity. Qed.

Lemma only_log_trans w1 w2 w3 : only_log w1 w2 -> only_log w2 w3 -> only_log w1 w3.
Proof. unfold only_log. intros H1 H2. rewrite H2, H1. reflexivity. Qed.

Lemma only_log_training w w' : only_log w w' -> w_training w' = w_training w.
Proof. unfold only_log. intros ->. reflexivity. Qed.

(** In evaluation mode [model(data)] adds its call to the log and changes
    nothing else. *)
Lemma call_model_eval data w :
  w_training w = false ->
  call_model (O:=O) data w
  = (match map_opt (eval_row (w_params w)) data with
     | Some rows =>
         Ok {| o_rows := rows;
               o_grad_fn := if w_grad_enabled w
                            then Some {| gf_params := w_params w; gf_training := false;
                                         gf_rng := w_rng w; gf_data := data |}
                            else None |}
     | None => Raise RuntimeError
     end,
     set_log (w_log w ++ [EvForward false (w_grad_enabled w) (length data)]) w).
Proof.
  intros H. rewrite call_model_eq. cbv zeta.
  rewrite forward_eval by exact H. simpl. rewrite H.
  destruct (map_opt _ data); reflexivity.
Qed.

Lemma test_body_only_log device acc b w :
  w_training w = false -> only_log w (snd (test_body (O:=O) device acc b w)).
Proof.
  intros H. destruct acc as [test_loss correct].
  unfold test_body, collate, to. unfold bind at 1.
  rewrite call_model_eval by exact H.
  destruct (map_opt _ (map fst b)) as [rows |]; [| destruct w; reflexivity].
  unfold nll_loss, argmax_rows, emit, modify, bind, ret, raise. simpl.
  destruct (map_opt _ (filter _ (combine rows (map snd b)))); simpl; [| destruct w; reflexivity].
  destruct (map_opt argmax rows); destruct w; reflexivity.
Qed.

Lemma test_loop_only_log device batches :
  forall acc w,
    w_training w = false ->
    only_log w (snd (for_fold batches acc (test_body (O:=O) device) w)).
Proof.
  induction batches as [| b batches IH]; intros acc w H; simpl.
  - apply only_log_refl.
  - unfold bind.
    pose proof (@test_body_only_log device acc b w H) as Hb.
    destruct (test_body device acc b w) as [[acc' | ex] w1]; simpl in *; [| exact Hb].
    eapply only_log_trans; [exact Hb |].
    apply IH. apply only_log_training in Hb. congruence.
Qed.

(** A pass over a loader that does not shuffle yields the dataset in order and
    draws the base seed only. *)
Lemma iter_loader_in_order ld w :
  ld_shuffle ld = false ->
  iter_loader (O:=O) ld w
  = (Ok (chunks (ld_batch_size ld) (dataset ld)),
     set_log (w_log w ++ [EvIter (length (chunks (ld_batch_size ld) (dataset ld)))])
             (set_rng (snd (random_ L (w_rng w))) w)).
Proof.
  intros H. unfold iter_loader, bind, gets, modify, emit, ret. rewrite H.
  destruct (random_ L (w_rng w)). reflexivity.
Qed.

(** X2.  An evaluation pass, however it ends, changes the mode of the model,
    the console and the generator, from which the loader draws; nothing else:
    parameters, gradients, optimizer state, step size, gradient mode and files
    are as before. *)
Theorem test_only_reads device test_loader w :
  let w' := snd (test (O:=O) device test_loader w) in
  w' = set_training false (set_log (w_log w') (set_rng (w_rng w') w)).
Proof.
  cbv zeta.
  assert (H : exists l r,
             snd (test (O:=O) device test_loader w)
             = set_training false (set_log l (set_rng r w))).
  { unfold test. erewrite bind_ok by apply model_eval_eq.
    unfold bind at 1. unfold no_grad, emit, modify. unfold bind at 1.
    match goal with
    | |- context [iter_loader ?ld ?w0] =>
        destruct (iter_loader_eq ld w0) as [batches [r Ei]]
    end.
    rewrite Ei.
    match goal with
    | |- context [for_fold ?bs ?acc ?body ?w0] =>
        pose proof (@test_loop_only_log device bs acc w0 eq_refl) as Hl;
        destruct (for_fold bs acc body w0) as [[[test_loss correct] | ex] w2]
    end; simpl in Hl; unfold only_log in Hl;
      remember (w_log w2) as l2 eqn:El2 in Hl; clear El2.
    - unfold py_truediv, print, emit, modify, bind, ret, raise.
      destruct (len (dataset test_loader) =? 0); simpl; rewrite Hl;
        eexists; exists r; destruct w; simpl; reflexivity.
    - simpl. rewrite Hl. eexists. exists r. destruct w; simpl; reflexivity. }
  destruct H as [l [r ->]]. reflexivity.
Qed.

(** ** A log interval of zero *)

Lemma layer_raises f (x : list (Tensor L)) w ex w' :
  layer (O:=O) f x w = (Raise ex, w') -> ex = RuntimeError.
Proof.
  unfold layer, ret, raise. destruct (map_opt f x); intros H; inversion H; reflexivity.
Qed.

Lemma dropout_completes p (x : list (Tensor L)) w :
  exists y w', dropout (O:=O) p x w = (Ok y, w').
Proof.
  unfold dropout, bind, gets, modify, ret.
  destruct (w_training w); [| eauto].
  destruct (drop_units L p (w_rng w) x). eauto.
Qed.

(** The forward pass raises nothing but [RuntimeError]. *)
Lemma forward_raises x w ex w' :
  forward (O:=O) x w = (Raise ex, w') -> ex = RuntimeError.
Proof.
  unfold forward, dropout1, dropout2, bind, gets, ret.
  repeat match goal with
         | |- context [layer ?f ?y ?v] =>
             let E := fresh "E" in
             destruct (layer f y v) as [[? | ?] ?] eqn:E;
             [| apply layer_raises in E; intros H; inversion H; congruence ]
         | |- context [dropout ?p ?y ?v] =>
             let E := fresh "E" in
             destruct (dropout_completes p y v) as [? [? E]]; rewrite E
         end.
  discriminate.
Qed.

(** With a log interval of 0 no round completes.  When the lines before the
    test of the batch index all succeed the exception is [ZeroDivisionError],
    raised by [batch_idx % 0] after the optimizer step: the update stays. *)
Lemma train_body_zero_interval args device train_loader epoch i b w :
  log_interval args = 0 ->
  exists ex w1 l,
    train_body (O:=O) args device train_loader epoch (i, b) w = (Raise ex, w1) /\
    w_log w1 = w_log w ++ l /\
    printed l = [] /\
    (count_events is_opt_step l <= 1)%nat /\
    (ex = ZeroDivisionError ->
     count_events is_opt_step l = 1%nat /\
     (w_params w1, w_acc w1) = batch_update w b).
Proof.
  intros HK. unfold train_body, collate, to, zero_grad.
  unfold bind at 1. unfold bind at 1. simpl.
  unfold bind at 1. rewrite call_model_eq. cbv zeta.
  match goal with
  | |- context [forward ?x ?w0] =>
      change w0 with (forward_state w b);
      pose proof (forward_only_rng x (forward_state w b)) as Hr;
      destruct (forward x (forward_state w b)) as [[rows | ex] w2] eqn:EF
  end; unfold only_rng in Hr; simpl in Hr; rewrite Hr in *; clear Hr.
  - unfold nll_loss, backward, optimizer_step, py_mod, emit, modify, bind, ret, raise.
    simpl.
    destruct (map_opt _ (filter _ (combine rows (map snd b)))) as [losses_ |]; simpl.
    + destruct (w_grad_enabled w) eqn:EG; simpl.
      * unfold batch_update, batch_grads, batch_grad_fn.
        destruct (adadelta O _ _ _ _) as [p a] eqn:EA. rewrite HK. simpl.
        do 3 eexists. split; [reflexivity |]. simpl.
        split; [rewrite <- !app_assoc; reflexivity |].
        rewrite length_map.
        split; [reflexivity |]. split; [unfold count_events; simpl; lia |].
        intros _. split; reflexivity.
      * do 3 eexists. split; [reflexivity |]. simpl.
        split; [rewrite <- !app_assoc; reflexivity |].
        split; [reflexivity |]. split; [unfold count_events; simpl; lia |].
        discriminate.
    + do 3 eexists. split; [reflexivity |]. simpl.
      split; [rewrite <- !app_assoc; reflexivity |].
      split; [reflexivity |]. split; [unfold count_events; simpl; lia |].
      discriminate.
  - apply forward_raises in EF. subst ex.
    do 3 eexists. split; [reflexivity |]. simpl.
    split; [rewrite <- !app_assoc; reflexivity |].
    split; [reflexivity |]. split; [unfold count_events; simpl; lia |].
    discriminate.
Qed.

(** X3.  With a log interval of 0 a training pass over a non-empty dataset
    raises in its first round and prints nothing. It has made at most one
    optimizer step; when the exception is [ZeroDivisionError] it has made
    exactly one, with the first batch of the pass, from the state the pass
    was in when it took that batch, and the updated parameters stay. *)
Theorem train_zero_log_interval args device train_loader epoch w :
  log_interval args = 0 ->
  randperm_ok L ->
  dataset train_loader <> [] ->
  exists ex w',
    train (O:=O) args device train_loader epoch w = (Raise ex, w') /\
    printed (new_events w w') = [] /\
    (count_events is_opt_step (new_events w w') <= 1)%nat /\
    (ex = ZeroDivisionError ->
     count_events is_opt_step (new_events w w') = 1%nat /\
     exists b batches w0,
       iter_loader train_loader (snd (model_train w)) = (Ok (b :: batches), w0) /\
       (w_params w', w_acc w') = batch_update w0 b).
Proof.
  intros HK Hperm Hne.
  unfold train, bind. rewrite model_train_eq. simpl snd.
  match goal with
  | |- context [iter_loader ?l ?w0] =>
      destruct (iter_loader_perm l w0 Hperm) as [order [r [Hp [_ Ei]]]]
  end.
  rewrite Ei. unfold enumerate.
  destruct (chunks (ld_batch_size train_loader) order) as [| b batches] eqn:Ec.
  { exfalso. apply (@chunks_nonempty _ (ld_batch_size train_loader) order);
      [| exact Ec].
    intros ->. apply Permutation_nil in Hp. auto. }
  simpl enumerate_from. rewrite for_each_cons.
  match goal with
  | |- context [train_body ?a ?d ?l ?e (0, b) ?v] =>
      destruct (@train_body_zero_interval a d l e 0 b v HK)
        as [ex [w1 [l0 [Eb [El [Hpr [Hle Hz]]]]]]]
  end.
  rewrite Eb. exists ex, w1.
  assert (En : new_events w w1 = [EvTrainMode; EvIter (length (b :: batches))] ++ l0).
  { apply new_events_app. rewrite El. simpl. rewrite <- !app_assoc. reflexivity. }
  rewrite En. split; [reflexivity |].
  split; [rewrite printed_app, Hpr; reflexivity |].
  rewrite count_events_app.
  split; [unfold count_events at 1; simpl; exact Hle |].
  intros Hex. destruct (Hz Hex) as [Hc Hu].
  split; [unfold count_events at 1; simpl; exact Hc |].
  exists b, batches. eexists. split; [reflexivity | exact Hu].
Qed.

(** ** The options of a run *)

Lemma seed_check s : seed_min <= s <= seed_max -> (seed_min <=? s) && (s <=? seed_max) = true.
Proof. intros H. apply andb_true_iff. split; apply Z.leb_le; lia. Qed.

Lemma empty_check (b : bool) (ds : list (Sample (L:=L))) :
  (b = true -> ds <> []) -> b && (len ds =? 0) = false.
Proof.
  intros H. destruct b; [| reflexivity]. simpl. apply len_nonzero. auto.
Qed.

(** What the checks of the set-up find when the options are accepted. *)
Lemma accepted_checks args (env : Env (L:=L)) :
  accepted args env ->
  (seed_min <=? seed args) && (seed args <=? seed_max) = true /\
  (negb (no_cuda args) && cuda_is_available env) && (len (mnist_train env) =? 0) = false /\
  (negb (no_cuda args) && cuda_is_available env) && (len (mnist_test env) =? 0) = false /\
  (exists bs tbs, batch_size args = Zpos bs /\ test_batch_size args = Zpos tbs) /\
  py_leb A (py_of_int A 0) (lr args) = true.
Proof.
  intros [Hs [Hb [Ht [Hd Hl]]]].
  split; [apply seed_check; exact Hs |].
  split; [apply empty_check; intros H; apply Hd; exact H |].
  split; [apply empty_check; intros H; apply Hd; exact H |].
  split; [| exact Hl].
  destruct (batch_size args) as [| bs | bs]; try lia.
  destruct (test_batch_size args) as [| tbs | tbs]; try lia.
  exists bs, tbs. auto.
Qed.

(** X4.  Options the library refuses stop a run before it trains.  A seed
    that does not fit 64 bits raises with nothing done.  With a
    seed that fits, a batch size that is not positive raises [ValueError] when
    the loaders are built: the generator is seeded and nothing else is done,
    no model exists.  With loaders that can be built, a rate that Adadelta
    refuses raises [ValueError] when the optimizer is built.  In every case
    nothing is printed and nothing is written. *)
Theorem main_rejects_options args (env : Env (L:=L)) w :
  (~ seed_min <= seed args <= seed_max ->
   exists ex, main (O:=O) args env w = (Raise ex, w)) /\
  (seed_min <= seed args <= seed_max ->
   batch_size args <= 0 \/ test_batch_size args <= 0 ->
   main (O:=O) args env w
   = (Raise ValueError, set_rng (manual_seed L (seed args)) w)) /\
  (seed_min <= seed args <= seed_max ->
   0 < batch_size args ->
   0 < test_batch_size args ->
   (negb (no_cuda args) && cuda_is_available env = true ->
    mnist_train env <> [] /\ mnist_test env <> []) ->
   py_leb A (py_of_int A 0) (lr args) = false ->
   exists w',
     main (O:=O) args env w = (Raise ValueError, w') /\
     new_events w w' = [] /\
     w_disk w' = w_disk w).
Proof.
  split; [| split].
  - intros Hs. unfold main, torch_manual_seed, bind, raise.
    destruct ((seed_min <=? seed args) && (seed args <=? seed_max)) eqn:E;
      [| eexists; reflexivity].
    exfalso. apply Hs. apply andb_true_iff in E. destruct E as [E1 E2].
    apply Z.leb_le in E1, E2. auto.
  - intros Hs Hb. unfold main, torch_manual_seed, mkDataLoader, bind, modify, raise, ret.
    rewrite (seed_check Hs).
    destruct (_ && (len (mnist_train env) =? 0)); [reflexivity |].
    destruct (batch_size args); try reflexivity;
      destruct (_ && (len (mnist_test env) =? 0)); try reflexivity;
      destruct (test_batch_size args); try reflexivity; exfalso; lia.
  - intros Hs Hb Ht Hd Hl.
    unfold main, torch_manual_seed, mkDataLoader, new_Net, new_Adadelta, to,
      bind, modify, gets, raise, ret.
    rewrite (seed_check Hs).
    rewrite !empty_check by (intros H; apply Hd; exact H).
    destruct (batch_size args) as [| bs | bs]; try lia.
    destruct (test_batch_size args) as [| tbs | tbs]; try lia.
    simpl. destruct (net_init O _) as [p r]. simpl. rewrite Hl.
    eexists. split; [reflexivity |]. split; [| reflexivity].
    unfold new_events. simpl.
    rewrite <- (app_nil_r (w_log w)) at 2. apply skipn_log.
Qed.

(** X5.  With no epoch to run ([--epochs] 0 or less) a run completes exactly
    when its options are accepted.  It then trains nothing and evaluates
    nothing: the model keeps the weights it was created with from the seeded
    generator, the optimizer its initial state and step size, nothing is
    printed, and [--save-model] writes these initial weights. *)
Theorem main_without_epochs args (env : Env (L:=L)) w :
  epochs args <= 0 ->
  (fst (main (O:=O) args env w) = Ok tt <-> accepted args env) /\
  (accepted args env ->
   exists w',
     main (O:=O) args env w = (Ok tt, w') /\
     w_params w' = fst (net_init O (manual_seed L (seed args))) /\
     w_acc w' = adadelta_init O (w_params w') /\
     w_lr w' = lr args /\
     new_events w w' = (if save_model args then [EvSave "mnist_cnn.pt"] else []) /\
     w_disk w' = (if save_model args
                  then ("mnist_cnn.pt"%string, w_params w') :: w_disk w
                  else w_disk w)).
Proof.
  intros HE.
  assert (Hrun : accepted args env ->
                 exists w',
                   main (O:=O) args env w = (Ok tt, w') /\
                   w_params w' = fst (net_init O (manual_seed L (seed args))) /\
                   w_acc w' = adadelta_init O (w_params w') /\
                   w_lr w' = lr args /\
                   new_events w w'
                   = (if save_model args then [EvSave "mnist_cnn.pt"] else []) /\
                   w_disk w' = (if save_model args
                                then ("mnist_cnn.pt"%string, w_params w') :: w_disk w
                                else w_disk w)).
  { intros Hacc.
    destruct (accepted_checks Hacc) as [Hs [H1 [H2 [[bs [tbs [Eb Et]]] Hl]]]].
    unfold main, torch_manual_seed, mkDataLoader.
    rewrite Hs, H1, H2, Eb, Et.
    unfold range. replace (Z.to_nat (epochs args + 1 - 1)) with 0%nat by lia.
    unfold new_Net, new_Adadelta, mkStepLR, torch_save, emit, to, bind, modify, gets, ret.
    simpl.
    destruct (net_init O (manual_seed L (seed args))) as [p r]. simpl. rewrite Hl.
    destruct (save_model args); simpl; eexists; (split; [reflexivity |]); simpl;
      repeat split; unfold new_events; simpl.
    - rewrite skipn_log. reflexivity.
    - rewrite <- (app_nil_r (w_log w)) at 2. apply skipn_log. }
  split; [| exact Hrun].
  split.
  - intros H. destruct (main args env w) as [res w'] eqn:E. simpl in H. subst res.
    unfold main in E. step_in E. set_up.
    repeat match goal with
           | Hm : mkDataLoader _ _ ?sh _ = (Ok _, _) |- _ =>
               pose proof (mkDataLoader_shuffles _ _ Hm);
               apply mkDataLoader_ok in Hm; destruct Hm as [? [? [? ?]]]
           end.
    repeat split; try assumption; try lia; auto.
  - intros Hacc. destruct (Hrun Hacc) as [w' [E _]]. rewrite E. reflexivity.
Qed.

(** X6.  A run whose options are accepted takes nothing from the model, the
    optimizer or the generator it finds: from two states that agree on the
    gradient mode, the files and the console, it has the same result and ends
    in the same state. *)
Theorem main_starts_afresh args (env : Env (L:=L)) w1 w2 :
  accepted args env ->
  w_grad_enabled w1 = w_grad_enabled w2 ->
  w_disk w1 = w_disk w2 ->
  w_log w1 = w_log w2 ->
  main (O:=O) args env w1 = main (O:=O) args env w2.
Proof.
  intros Hacc Hg Hd Hl.
  destruct (accepted_checks Hacc) as [Hs [H1 [H2 [[bs [tbs [Eb Et]]] Hr]]]].
  unfold main, torch_manual_seed, mkDataLoader.
  rewrite Hs, H1, H2, Eb, Et.
  unfold bind at 1. unfold bind at 1. unfold bind at 1. unfold bind at 1.
  unfold bind at 1. unfold bind at 1.
  unfold bind at 2. unfold bind at 2. unfold bind at 2. unfold bind at 2.
  unfold bind at 2. unfold bind at 2.
  unfold new_Net, new_Adadelta, mkStepLR, to, bind, modify, gets, ret. simpl.
  destruct (net_init O (manual_seed L (seed args))) as [p r]. rewrite Hr.
  destruct w1, w2. simpl in *. subst. reflexivity.
Qed.


(** ** What a training pass leaves alone *)

Lemma train_keeps_disk args device train_loader epoch :
  preserves (keeps (@w_disk A L O)) (train (O:=O) args device train_loader epoch).
Proof. frame_calls; keeps_leaf. Qed.

Lemma train_keeps_grad_mode args device train_loader epoch :
  preserves (keeps (@w_grad_enabled A L O)) (train (O:=O) args device train_loader epoch).
Proof. frame_calls; keeps_leaf. Qed.

(** X7.  A training pass, however it ends, leaves the step size of the
    optimizer, the files and the gradient mode as they were, and the model in
    training mode. *)
Theorem train_keeps_rate_files_mode args device train_loader epoch w :
  let w' := snd (train (O:=O) args device train_loader epoch w) in
  w_lr w' = w_lr w /\
  w_disk w' = w_disk w /\
  w_grad_enabled w' = w_grad_enabled w /\
  w_training w' = true.
Proof.
  cbv zeta.
  split; [apply (train_keeps_lr args device train_loader epoch w) |].
  split; [apply (train_keeps_disk args device train_loader epoch w) |].
  split; [apply (train_keeps_grad_mode args device train_loader epoch w) |].
  unfold train. erewrite bind_ok by apply model_train_eq.
  match goal with
  | |- w_training (snd (?m ?w0)) = true =>
      assert (H : preserves (keeps (@w_training A L O)) m) by (frame_calls; keeps_leaf);
      rewrite (H w0)
  end.
  reflexivity.
Qed.

Lemma map_opt_Forall2 {X Y : Type} (f : X -> option Y) (l : list X) (ys : list Y) :
  map_opt f l = Some ys <-> Forall2 (fun x y => f x = Some y) l ys.
Proof.
  split.
  - revert ys. induction l as [| x l IH]; simpl; intros ys H.
    + inversion H. constructor.
    + destruct (f x) as [y |] eqn:E; [| discriminate].
      destruct (map_opt f l) as [ys' |]; [| discriminate].
      inversion H; subst. constructor; [exact E | apply IH; reflexivity].
  - intros H. induction H as [| x y l ys E _ IH]; simpl; [reflexivity |].
    rewrite E, IH. reflexivity.
Qed.

(** ** When an evaluation pass completes *)

Lemma rows_evaluable p (b : list (Sample (L:=L))) :
  forall rows losses_ preds,
    map_opt (eval_row p) (map fst b) = Some rows ->
    row_losses rows (map snd b) = Some losses_ ->
    map_opt argmax rows = Some preds ->
    forallb (evaluable p) b = true.
Proof.
  induction b as [| s b IH]; intros rows losses_ preds Hr Hl Ha; [reflexivity |].
  simpl in Hr.
  destruct (eval_row p (fst s)) as [r |] eqn:Er; [| discriminate].
  destruct (map_opt (eval_row p) (map fst b)) as [rows' |] eqn:Em; [| discriminate].
  inversion Hr; subst rows.
  simpl in Ha.
  destruct (argmax r) as [k |] eqn:Ek; [| discriminate].
  destruct (map_opt argmax rows') as [preds' |] eqn:Ea; [| discriminate].
  unfold row_losses in Hl. cbn [map combine filter] in Hl.
  unfold counted at 1 in Hl. cbn [fst snd] in Hl.
  simpl forallb. unfold evaluable at 1. rewrite Er.
  destruct (snd s =? ignore_index) eqn:Ei; cbn [negb] in Hl.
  - rewrite (IH rows' losses_ preds' eq_refl Hl Ea), andb_true_r.
    unfold argmax in Ek. destruct (scores L r); [discriminate | reflexivity].
  - cbn [map_opt fst snd] in Hl.
    destruct (nll r (snd s)) eqn:En; [| discriminate].
    destruct (map_opt _ (filter _ (combine rows' (map snd b)))) as [ls |] eqn:El;
      [| discriminate].
    rewrite (IH rows' ls preds' eq_refl El Ea). reflexivity.
Qed.

Lemma test_body_evaluable device acc b w acc' w' :
  w_training w = false ->
  test_body (O:=O) device acc b w = (Ok acc', w') ->
  forallb (evaluable (w_params w)) b = true.
Proof.
  intros H. destruct acc as [test_loss correct].
  unfold test_body, collate, to. unfold bind at 1.
  rewrite call_model_eval by exact H.
  destruct (map_opt _ (map fst b)) as [rows |] eqn:Er; [| discriminate].
  unfold nll_loss, emit, modify. unfold bind at 1. unfold bind at 1. simpl.
  change (map_opt _ (filter _ (combine rows (map snd b))))
    with (row_losses rows (map snd b)).
  destruct (row_losses rows (map snd b)) as [ls |] eqn:El; [| discriminate].
  unfold argmax_rows, bind, ret, raise. simpl.
  destruct (map_opt argmax rows) as [preds |] eqn:Ea; [| discriminate].
  intros _. eapply rows_evaluable; eassumption.
Qed.

Lemma test_loop_evaluable device batches :
  forall acc w acc' w',
    w_training w = false ->
    for_fold batches acc (test_body (O:=O) device) w = (Ok acc', w') ->
    forallb (evaluable (w_params w)) (concat batches) = true.
Proof.
  induction batches as [| b batches IH]; intros acc w acc' w' H E; [reflexivity |].
  simpl in E. unfold bind in E.
  pose proof (@test_body_only_log device acc b w H) as Hb.
  destruct (test_body device acc b w) as [[acc1 | ex] w1] eqn:Eb; [| discriminate].
  simpl in Hb. simpl. rewrite forallb_app.
  rewrite (@test_body_evaluable device acc b w acc1 w1 H Eb). simpl.
  assert (Hp : w_params w1 = w_params w) by (rewrite Hb; reflexivity).
  rewrite <- Hp. eapply IH; [| exact E].
  apply only_log_training in Hb. congruence.
Qed.

(** A pass that completes had a dataset that is not empty and a row of scores
    with an entry for the label of every sample that counts. *)
Lemma test_completed_evaluable device test_loader w :
  randperm_ok L ->
  fst (test (O:=O) device test_loader w) = Ok tt ->
  dataset test_loader <> [] /\
  forallb (evaluable (w_params w)) (dataset test_loader) = true.
Proof.
  intros Hperm H. unfold test in H. erewrite bind_ok in H by apply model_eval_eq.
  unfold bind at 1 in H. unfold no_grad, emit, modify in H. unfold bind at 1 in H.
  match type of H with
  | context [iter_loader ?l ?w0] =>
      destruct (iter_loader_perm l w0 Hperm) as [order [r [Hp [_ Ei]]]]
  end.
  rewrite Ei in H.
  match type of H with
  | context [for_fold ?bs ?acc ?body ?w0] =>
      pose proof (@test_loop_evaluable device bs acc w0) as Hl;
      destruct (for_fold bs acc body w0) as [[[test_loss correct] | ex] w2]
  end; [| discriminate].
  specialize (Hl _ _ eq_refl eq_refl). simpl in Hl.
  rewrite chunks_concat in Hl.
  split.
  - intros Hnil. simpl in H. unfold py_truediv, bind in H. rewrite Hnil in H.
    simpl in H. discriminate.
  - eapply forallb_perm; [exact Hp | exact Hl].
Qed.

(** X9.  An evaluation pass completes exactly when the dataset is not empty and
    the model gives every sample a row of scores with an entry for its label,
    or with any entry when the label is [-100], which the loss ignores;
    otherwise it raises. *)
Theorem test_completes_iff device test_loader w :
  randperm_ok L ->
  (fst (test (O:=O) device test_loader w) = Ok tt <->
   dataset test_loader <> [] /\
   forallb (evaluable (w_params w)) (dataset test_loader) = true).
Proof.
  intros Hperm. split.
  - apply test_completed_evaluable. exact Hperm.
  - intros [Hne He].
    destruct (test_ok device test_loader w Hperm Hne He) as [order [w' [_ [_ [E _]]]]].
    rewrite E. reflexivity.
Qed.

Lemma hits_bounds p (ds : list (Sample (L:=L))) : 0 <= hits p ds <= len ds.
Proof.
  unfold hits, len. pose proof (filter_length_le (is_hit p) ds). lia.
Qed.

(** X10.  The summary of an evaluation pass that completes shows a count of
    correct predictions between 0 and the size of the dataset, and that size,
    which is not 0, as the total. *)
Theorem test_counts_within_total device test_loader w w' :
  randperm_ok L ->
  test (O:=O) device test_loader w = (Ok tt, w') ->
  exists avg correct accuracy,
    printed (new_events w w')
    = [TestLine avg correct (len (dataset test_loader)) accuracy] /\
    0 <= correct <= len (dataset test_loader) /\
    0 < len (dataset test_loader).
Proof.
  intros Hperm H.
  destruct (@test_completed_evaluable device test_loader w Hperm) as [Hne He];
    [rewrite H; reflexivity |].
  destruct (test_ok device test_loader w Hperm Hne He) as [order [w1 [_ [_ [E P]]]]].
  rewrite H in E. inversion E; subst w1.
  unfold test_report in P.
  do 3 eexists. split; [exact P |].
  split; [apply hits_bounds |].
  unfold len. destruct (dataset test_loader); [congruence | simpl; lia].
Qed.

(** ** The batches of a pass *)

Lemma chunks_fuel_length_eq {X Y : Type} (n : nat) :
  forall fuel (l : list X) (l' : list Y),
    length l = length l' ->
    length (chunks_fuel fuel n l) = length (chunks_fuel fuel n l').
Proof.
  induction fuel as [| fuel IH]; intros l l' H; [reflexivity |].
  destruct l as [| x l]; destruct l' as [| y l']; try discriminate; [reflexivity |].
  cbn [chunks_fuel length]. f_equal. apply IH.
  rewrite !length_skipn. rewrite H. reflexivity.
Qed.

(** The number of batches depends on the number of samples only. *)
Lemma chunks_length_eq {X : Type} (n : positive) (l l' : list X) :
  length l = length l' -> length (chunks n l) = length (chunks n l').
Proof.
  intros H. unfold chunks. rewrite H. apply chunks_fuel_length_eq. exact H.
Qed.

Lemma chunks_fuel_sizes {X : Type} (n : nat) :
  (0 < n)%nat ->
  forall fuel (l : list X),
    Forall (fun b => (0 < length b <= n)%nat) (chunks_fuel fuel n l).
Proof.
  intros Hn. induction fuel as [| fuel IH]; intros l; [constructor |].
  destruct l as [| x l]; [constructor |].
  cbn [chunks_fuel]. constructor; [| apply IH].
  rewrite length_firstn. cbn [length]. lia.
Qed.

(** No batch is empty and none has more than [n] samples. *)
Lemma chunks_sizes {X : Type} (n : positive) (l : list X) :
  Forall (fun b => 0 < len b <= Zpos n) (chunks n l).
Proof.
  pose proof (@chunks_fuel_sizes X (Pos.to_nat n) ltac:(lia) (length l) l) as H.
  unfold chunks. eapply Forall_impl; [| exact H].
  intros b Hb. unfold len. simpl in Hb. lia.
Qed.

Lemma chunks_fuel_count {X : Type} (n : positive) :
  forall fuel (l : list X),
    (length l <= fuel)%nat ->
    len (chunks_fuel fuel (Pos.to_nat n) l) = (len l + Zpos n - 1) / Zpos n.
Proof.
  induction fuel as [| fuel IH]; intros l Hl.
  - destruct l; [| simpl in Hl; lia]. unfold len. cbn [chunks_fuel length Z.of_nat].
    symmetry. apply Z.div_small. lia.
  - destruct l as [| x l].
    + unfold len. cbn [chunks_fuel length Z.of_nat]. symmetry. apply Z.div_small. lia.
    + cbn [chunks_fuel]. unfold len in *. cbn [length] in *.
      rewrite Nat2Z.inj_succ, IH by (rewrite length_skipn; cbn [length]; lia).
      rewrite length_skipn. cbn [length].
      destruct (le_lt_dec (Pos.to_nat n) (S (length l))) as [Hge | Hlt].
      * replace (Z.of_nat (S (length l) - Pos.to_nat n))
          with (Z.of_nat (S (length l)) - Zpos n) by lia.
        replace (Z.of_nat (S (length l)) + Zpos n - 1)
          with (Z.of_nat (S (length l)) - Zpos n + Zpos n - 1 + 1 * Zpos n) by lia.
        rewrite Z.div_add by lia. lia.
      * replace (S (length l) - Pos.to_nat n)%nat with 0%nat by lia.
        simpl Z.of_nat at 1.
        rewrite (Z.div_small (0 + Zpos n - 1)) by lia.
        transitivity 1; [reflexivity |].
        apply (Z.div_unique _ _ 1 (Z.of_nat (S (length l)) - 1)); lia.
Qed.

(** [len(loader)] is the size of the dataset divided by the batch size,
    rounded up. *)
Lemma loader_len_ceil (ld : DataLoader (L:=L)) :
  loader_len ld
  = (len (dataset ld) + Zpos (ld_batch_size ld) - 1) / Zpos (ld_batch_size ld).
Proof. unfold loader_len, chunks. apply chunks_fuel_count. lia. Qed.

Lemma enumerate_from_bounds {X : Type} (xs : list X) :
  forall a, Forall (fun it => a <= fst it < a + len xs) (enumerate_from a xs).
Proof.
  induction xs as [| x xs IH]; intros a; [constructor |].
  simpl. constructor.
  - unfold len. simpl. lia.
  - eapply Forall_impl; [| apply (IH (a + 1))].
    intros it H. unfold len in *. cbn [length]. lia.
Qed.

Lemma enumerate_from_snd {X : Type} (xs : list X) :
  forall a, map snd (enumerate_from a xs) = xs.
Proof. induction xs as [| x xs IH]; intros a; simpl; [| rewrite IH]; reflexivity. Qed.

(** The number of multiples of [K] among the indices [a], ..., [a + n - 1]. *)
Lemma multiples_count {X : Type} (K : Z) (xs : list X) :
  0 < K ->
  forall a, 0 <= a ->
    len (filter (fun it => fst it mod K =? 0) (enumerate_from a xs))
    = (a + len xs + K - 1) / K - (a + K - 1) / K.
Proof.
  intros HK. induction xs as [| x xs IH]; intros a Ha.
  - unfold len. simpl. rewrite Z.add_0_r. lia.
  - cbn [enumerate_from filter fst].
    assert (Hstep : (a + 1 + K - 1) / K
                    = (a + K - 1) / K + (if a mod K =? 0 then 1 else 0)).
    { pose proof (Z.div_mod a K ltac:(lia)) as Hd.
      pose proof (Z.mod_pos_bound a K HK) as Hb.
      destruct (a mod K =? 0) eqn:Em.
      - apply Z.eqb_eq in Em.
        rewrite <- (Z.div_unique (a + 1 + K - 1) K (a / K + 1) 0) by lia.
        rewrite <- (Z.div_unique (a + K - 1) K (a / K) (K - 1)) by lia.
        lia.
      - apply Z.eqb_neq in Em.
        rewrite <- (Z.div_unique (a + 1 + K - 1) K (a / K + 1) (a mod K)) by lia.
        rewrite <- (Z.div_unique (a + K - 1) K (a / K + 1) (a mod K - 1)) by lia.
        lia. }
    assert (Hlen : a + len (x :: xs) = a + 1 + len xs)
      by (unfold len; cbn [length]; lia).
    rewrite Hlen.
    destruct (a mod K =? 0).
    + change (len ((a, x) :: ?l)) with (len ((a, x) :: l)).
      unfold len at 1. cbn [length]. rewrite Nat2Z.inj_succ.
      fold (len (filter (fun it : Z * X => fst it mod K =? 0) (enumerate_from (a + 1) xs))).
      rewrite IH by lia. lia.
    + rewrite IH by lia. lia.
Qed.

Lemma Forall2_and_left {X Y : Type} (P : X -> Prop) (R : X -> Y -> Prop) l1 l2 :
  Forall P l1 -> Forall2 R l1 l2 -> Forall2 (fun x y => P x /\ R x y) l1 l2.
Proof.
  intros HP HR. induction HR; [constructor |].
  inversion HP; subst. constructor; auto.
Qed.

Lemma Forall_filter {X : Type} (P : X -> Prop) (f : X -> bool) (l : list X) :
  Forall P l -> Forall P (filter f l).
Proof.
  intros H. induction H; simpl; [constructor |].
  destruct (f x); [constructor |]; assumption.
Qed.

(** The batches of a pass: as many as [len(loader)], none empty, none larger
    than the batch size, together a permutation of the dataset. *)
Lemma iter_loader_batches ld w :
  randperm_ok L ->
  exists batches w1,
    iter_loader (O:=O) ld w = (Ok batches, w1) /\
    w_log w1 = w_log w ++ [EvIter (length batches)] /\
    w_training w1 = w_training w /\
    len batches = loader_len ld /\
    Permutation (concat batches) (dataset ld) /\
    Forall (fun b => 0 < len b <= Zpos (ld_batch_size ld)) batches.
Proof.
  intros Hperm.
  destruct (iter_loader_perm ld w Hperm) as [order [r [Hp [_ Ei]]]].
  do 2 eexists. split; [exact Ei |].
  split; [reflexivity |]. split; [reflexivity |].
  split; [| split].
  - unfold loader_len, len. f_equal. apply chunks_length_eq.
    apply Permutation_length. exact Hp.
  - rewrite chunks_concat. exact Hp.
  - apply chunks_sizes.
Qed.

(** ** The progress lines of a training pass *)

(** X11.  A training pass that completes, not a dry run, prints one progress
    line for each batch whose index is a multiple of the log interval, in order
    and nothing else. The line for batch [i] shows the epoch, [i] times the
    size of that batch, the size of the dataset and the percentage [100 i / n]
    of the [n] batches of the pass, with [0 <= i < n]. *)
Theorem train_progress_lines args device train_loader epoch w w' :
  randperm_ok L ->
  dry_run args = false ->
  train (O:=O) args device train_loader epoch w = (Ok tt, w') ->
  exists batches,
    fst (iter_loader train_loader (snd (model_train w))) = Ok batches /\
    len batches = loader_len train_loader /\
    Forall2
      (fun it line =>
         0 <= fst it < loader_len train_loader /\
         exists loss,
           line = TrainLine epoch (fst it * len (snd it)) (len (dataset train_loader))
                            (percent (fst it) (loader_len train_loader)) loss)
      (filter (fun it => fst it mod log_interval args =? 0) (enumerate batches))
      (printed (new_events w w')).
Proof.
  intros Hperm Hd H.
  unfold train in H. erewrite bind_ok in H by apply model_train_eq.
  rewrite model_train_eq. simpl snd.
  set (w0 := set_training true (set_log (w_log w ++ [EvTrainMode]) w)) in *.
  destruct (@iter_loader_batches train_loader w0 Hperm)
    as [batches [w1 [Ei [El [_ [Hn [_ _]]]]]]].
  erewrite bind_ok in H by exact Ei.
  exists batches. rewrite Ei. split; [reflexivity |]. split; [exact Hn |].
  destruct (@train_loop_reports args device train_loader epoch (enumerate batches)
              Hd w1 w' H) as [l [El' F]].
  assert (En : new_events w w' = [EvTrainMode; EvIter (length batches)] ++ l).
  { apply new_events_app. rewrite El', El. simpl. rewrite <- !app_assoc. reflexivity. }
  rewrite En, printed_app. simpl.
  apply Forall2_and_left; [| exact F].
  apply Forall_filter. rewrite <- Hn.
  apply (enumerate_from_bounds batches 0).
Qed.

(** X12.  With a positive log interval [K], a training pass that completes, not
    a dry run, prints as many lines as the number of its batches divided by
    [K], rounded up. *)
Theorem train_progress_count args device train_loader epoch w w' :
  randperm_ok L ->
  dry_run args = false ->
  0 < log_interval args ->
  train (O:=O) args device train_loader epoch w = (Ok tt, w') ->
  len (printed (new_events w w'))
  = (loader_len train_loader + log_interval args - 1) / log_interval args.
Proof.
  intros Hperm Hd HK H.
  unfold train in H. erewrite bind_ok in H by apply model_train_eq.
  set (w0 := set_training true (set_log (w_log w ++ [EvTrainMode]) w)) in *.
  destruct (@iter_loader_batches train_loader w0 Hperm)
    as [batches [w1 [Ei [El [_ [Hn [_ _]]]]]]].
  erewrite bind_ok in H by exact Ei.
  destruct (@train_loop_reports args device train_loader epoch (enumerate batches)
              Hd w1 w' H) as [l [El' F]].
  assert (En : new_events w w' = [EvTrainMode; EvIter (length batches)] ++ l).
  { apply new_events_app. rewrite El', El. simpl. rewrite <- !app_assoc. reflexivity. }
  rewrite En, printed_app. simpl.
  apply Forall2_length in F. unfold len at 1. rewrite <- F.
  fold (len (filter (fun it : Z * list (Sample (L:=L)) => fst it mod log_interval args =? 0)
                    (enumerate batches))).
  unfold enumerate. rewrite multiples_count by lia.
  rewrite Hn. rewrite (Z.div_small (0 + log_interval args - 1)) by lia.
  rewrite Z.add_0_l, Z.sub_0_r. reflexivity.
Qed.

(** ** One pass, every sample once *)

Lemma filter_calls (f : Event (A:=A) -> bool) (l : list (Event (A:=A))) :
  (forall line, f (EvPrint line) = false) -> filter f (calls l) = filter f l.
Proof.
  intros Hf. unfold calls. induction l as [| e l IH]; simpl; [reflexivity |].
  destruct e; simpl; rewrite ?IH; try reflexivity.
  rewrite Hf. reflexivity.
Qed.

Lemma cycles_forward (items : list (Z * list (Sample (L:=L)))) :
  filter is_forward (concat (map (fun it => cycle (length (snd it))) items))
  = map (fun b => EvForward (A:=A) true true (length b)) (map snd items).
Proof.
  induction items as [| it items IH]; simpl; [reflexivity |].
  rewrite IH. reflexivity.
Qed.

Lemma cycles_steps (items : list (Z * list (Sample (L:=L)))) :
  count_events is_opt_step (concat (map (fun it => cycle (A:=A) (length (snd it))) items))
  = length items.
Proof.
  unfold count_events. induction items as [| it items IH]; simpl; [reflexivity |].
  rewrite IH. reflexivity.
Qed.

(** X13.  A training pass that completes, not a dry run, goes through the whole
    dataset once: its batches, none empty and none larger than the batch size,
    are together a permutation of the dataset; there are as many as the size of
    the dataset divided by the batch size, rounded up; the pass makes one
    forward pass on each, in order, and as many optimizer steps. *)
Theorem train_visits_every_sample args device train_loader epoch w w' :
  randperm_ok L ->
  dry_run args = false ->
  train (O:=O) args device train_loader epoch w = (Ok tt, w') ->
  exists batches,
    fst (iter_loader train_loader (snd (model_train w))) = Ok batches /\
    Permutation (concat batches) (dataset train_loader) /\
    Forall (fun b => 0 < len b <= Zpos (ld_batch_size train_loader)) batches /\
    len batches
    = (len (dataset train_loader) + Zpos (ld_batch_size train_loader) - 1)
      / Zpos (ld_batch_size train_loader) /\
    filter is_forward (new_events w w')
    = map (fun b => EvForward true true (length b)) batches /\
    count_events is_opt_step (new_events w w') = length batches.
Proof.
  intros Hperm Hd H.
  unfold train in H. erewrite bind_ok in H by apply model_train_eq.
  rewrite model_train_eq. simpl snd.
  set (w0 := set_training true (set_log (w_log w ++ [EvTrainMode]) w)) in *.
  destruct (@iter_loader_batches train_loader w0 Hperm)
    as [batches [w1 [Ei [El [Ht [Hn [Hp Hs]]]]]]].
  erewrite bind_ok in H by exact Ei.
  exists batches. rewrite Ei.
  split; [reflexivity |]. split; [exact Hp |]. split; [exact Hs |].
  split; [rewrite Hn; apply loader_len_ceil |].
  apply train_loop_calls in H; [| rewrite Ht; reflexivity].
  destruct H as [done [rest [l [Hi [Hl [Hc Hr]]]]]].
  rewrite (Hr Hd), app_nil_r in Hi. subst done.
  assert (En : new_events w w' = [EvTrainMode; EvIter (length batches)] ++ l).
  { apply new_events_app. rewrite Hl, El. simpl. rewrite <- !app_assoc. reflexivity. }
  rewrite En. split.
  - rewrite filter_app. simpl.
    rewrite <- (filter_calls is_forward l) by reflexivity.
    rewrite Hc, cycles_forward. unfold enumerate. rewrite enumerate_from_snd.
    reflexivity.
  - rewrite count_events_app. unfold count_events at 1. simpl.
    unfold count_events. rewrite <- (filter_calls is_opt_step l) by reflexivity.
    rewrite Hc. fold (count_events is_opt_step
                        (concat (map (fun it : Z * list (Sample (L:=L)) =>
                                        cycle (A:=A) (length (snd it)))
                                     (enumerate batches)))).
    rewrite cycles_steps. unfold enumerate.
    rewrite <- (enumerate_from_snd batches 0) at 2. rewrite length_map. reflexivity.
Qed.

(** ** The forward pass and the generator *)

(** X14.  The forward pass, in either mode and however it ends, changes nothing
    but the state of the generator, from which dropout draws; in evaluation
    mode it does not change that either. It raises nothing but [RuntimeError]. *)
Theorem forward_draws_only x w :
  let r := forward (O:=O) x w in
  snd r = set_rng (w_rng (snd r)) w /\
  (w_training w = false -> snd r = w) /\
  (forall ex, fst r = Raise ex -> ex = RuntimeError).
Proof.
  cbv zeta. split; [apply (forward_only_rng x w) |]. split.
  - intros H. rewrite forward_eval by exact H. reflexivity.
  - intros ex H. destruct (forward x w) as [[rows | ex'] w'] eqn:E; [discriminate |].
    simpl in H. inversion H; subst ex'. exact (forward_raises _ _ E).
Qed.

(** ** The console of a run *)

Lemma printed_progress epoch (l : list (Event (A:=A))) :
  forallb (fun e => match e with
                    | EvPrint line => is_progress_of epoch line
                    | _ => true
                    end) l = true ->
  forallb (is_progress_of epoch) (printed l) = true.
Proof.
  induction l as [| e l IH]; simpl; [reflexivity |].
  intros H. apply andb_true_iff in H. destruct H as [He Hl].
  destruct e; simpl; auto. rewrite He. simpl. auto.
Qed.

(** A training pass, however it ends, prints nothing but progress lines of
    its epoch. *)
Lemma train_prints_progress args device train_loader epoch w :
  exists l,
    w_log (snd (train (O:=O) args device train_loader epoch w)) = w_log w ++ l /\
    forallb (is_progress_of epoch) (printed l) = true.
Proof.
  assert (H : preserves
                (logs (fun e => match e with
                                | EvPrint line => is_progress_of epoch line
                                | _ => true
                                end))
                (train (O:=O) args device train_loader epoch)).
  { frame_with ltac:(apply call_model_logs; reflexivity);
      first [ logs_leaf | intros; apply logs_emit; simpl; apply Z.eqb_refl ]. }
  destruct (H w) as [l [El Fl]].
  exists l. split; [exact El | apply printed_progress; exact Fl].
Qed.

(** An evaluation pass that completes prints one line, its summary. *)
Lemma test_prints_summary device test_loader w w' :
  test (O:=O) device test_loader w = (Ok tt, w') ->
  exists l line,
    w_log w' = w_log w ++ l /\ printed l = [line] /\ is_summary line = true.
Proof.
  intros H. unfold test in H. erewrite bind_ok in H by apply model_eval_eq.
  unfold bind at 1 in H.
  match type of H with
  | context [no_grad ?b ?w0] =>
      assert (Hb : preserves (logs (fun e => negb (is_print e))) (no_grad b))
        by (frame_with ltac:(apply call_model_logs; reflexivity); logs_leaf);
      destruct (Hb w0) as [l1 [El1 Fl1]];
      destruct (no_grad b w0) as [[[test_loss correct] | ex] w3]
  end; [| discriminate].
  simpl in El1.
  unfold py_truediv, print, emit, modify, bind, ret, raise in H.
  destruct (len (dataset test_loader) =? 0); [discriminate |].
  inversion H; subst w'. simpl.
  eexists. eexists. split; [rewrite El1, <- !app_assoc; reflexivity |].
  split; [rewrite !printed_app, (printed_none _ Fl1); reflexivity | reflexivity].
Qed.

(** The lines of a sequence of epochs: for each epoch the progress lines of
    its training pass, then the summary of its evaluation pass. *)
Lemma epochs_printed args device train_loader test_loader es s w s' w' :
  Epochs args device train_loader test_loader es s w s' w' ->
  exists l blocks,
    w_log w' = w_log w ++ l /\
    printed l = concat blocks /\
    Forall2 (fun epoch block =>
               exists progress summary,
                 block = progress ++ [summary] /\
                 forallb (is_progress_of epoch) progress = true /\
                 is_summary summary = true)
            es blocks.
Proof.
  induction 1 as [s w | epoch es s w w1 w2 s1 w3 s' w' Ht Hte Hs _ [l [blocks [El [Pl Fl]]]]].
  - exists [], []. rewrite app_nil_r. repeat split. constructor.
  - destruct (train_prints_progress args device train_loader epoch w) as [lt [Elt Plt]].
    rewrite Ht in Elt. simpl in Elt.
    destruct (test_prints_summary _ _ _ Hte) as [le [line [Ele [Ple Sle]]]].
    rewrite scheduler_step_eq in Hs. inversion Hs; subst s1 w3. clear Hs.
    simpl in El.
    exists (lt ++ le ++ [EvSchedStep] ++ l), ((printed lt ++ [line]) :: blocks).
    split; [| split].
    + rewrite El, Ele, Elt. rewrite <- !app_assoc. reflexivity.
    + rewrite !printed_app, Ple, Pl. simpl. rewrite <- app_assoc. reflexivity.
    + constructor; [| exact Fl].
      exists (printed lt), line. auto.
Qed.

(** X15.  What a run that completes has printed: for each epoch from 1 to
    [--epochs], in order, the progress lines of that epoch and then one summary
    line; nothing before, between or after. *)
Theorem main_console args env w w' :
  main (O:=O) args env w = (Ok tt, w') ->
  exists blocks,
    printed (new_events w w') = concat blocks /\
    Forall2 (fun epoch block =>
               exists progress summary,
                 block = progress ++ [summary] /\
                 forallb (is_progress_of epoch) progress = true /\
                 is_summary summary = true)
            (range 1 (epochs args + 1)) blocks.
Proof.
  intros H. unfold main in H. step_in H.
  repeat match goal with
         | E : mkDataLoader _ _ _ _ = (Ok _, _) |- _ =>
             apply mkDataLoader_ok in E; destruct E as [? [? [? ?]]]
         end.
  match goal with
  | Hf : for_fold _ _ _ _ = (Ok _, _) |- _ =>
      apply for_fold_epochs in Hf;
      destruct (epochs_printed Hf) as [l [blocks [El [Pl Fl]]]]
  end.
  set_up. subst.
  unfold new_Net, mkStepLR, bind, gets, modify, ret in *.
  destruct (net_init O _).
  repeat match goal with
         | E : (_, _) = (_, _) |- _ => inversion E; clear E; subst
         end.
  exists blocks. split; [| exact Fl].
  simpl in El.
  destruct (save_model args).
  - rewrite torch_save_eq in H. inversion H; subst w'.
    rewrite (@new_events_app _ _ (l ++ [EvSave "mnist_cnn.pt"])).
    + rewrite printed_app, Pl. simpl. apply app_nil_r.
    + simpl. rewrite El, <- app_assoc. reflexivity.
  - inversion H; subst w'.
    rewrite (@new_events_app _ _ l El). exact Pl.
Qed.

(** ** What an evaluation pass depends on *)

Lemma test_body_params device acc b w1 w2 :
  w_training w1 = false ->
  w_training w2 = false ->
  w_params w1 = w_params w2 ->
  fst (test_body (O:=O) device acc b w1) = fst (test_body (O:=O) device acc b w2).
Proof.
  intros H1 H2 Hp. destruct acc as [test_loss correct].
  unfold test_body, collate, to. unfold bind at 1. unfold bind at 3.
  rewrite !call_model_eval by assumption. rewrite Hp.
  destruct (map_opt _ (map fst b)) as [rows |]; [| reflexivity].
  unfold nll_loss, argmax_rows, emit, modify, bind, ret, raise. simpl.
  destruct (map_opt _ (filter _ (combine rows (map snd b)))); simpl; [| reflexivity].
  destruct (map_opt argmax rows); reflexivity.
Qed.

Lemma test_loop_params device batches :
  forall acc w1 w2,
    w_training w1 = false ->
    w_training w2 = false ->
    w_params w1 = w_params w2 ->
    fst (for_fold batches acc (test_body (O:=O) device) w1)
    = fst (for_fold batches acc (test_body (O:=O) device) w2).
Proof.
  induction batches as [| b batches IH]; intros acc w1 w2 H1 H2 Hp; [reflexivity |].
  simpl. unfold bind.
  pose proof (@test_body_params device acc b w1 w2 H1 H2 Hp) as Hf.
  pose proof (@test_body_only_log device acc b w1 H1) as Hl1.
  pose proof (@test_body_only_log device acc b w2 H2) as Hl2.
  destruct (test_body device acc b w1) as [[a1 | e1] v1];
    destruct (test_body device acc b w2) as [[a2 | e2] v2];
    simpl in *; try discriminate; [| exact Hf].
  inversion Hf; subst a2.
  apply IH.
  - apply only_log_training in Hl1. congruence.
  - apply only_log_training in Hl2. congruence.
  - rewrite Hl1, Hl2. simpl. exact Hp.
Qed.

(** The block under [torch.no_grad()] in [test] prints nothing. *)
Lemma test_loop_silent device batches acc :
  preserves (logs (fun e => negb (is_print e)))
            (for_fold batches acc (test_body (O:=O) device)).
Proof. frame_with ltac:(apply call_model_logs; reflexivity); logs_leaf. Qed.

(** X16.  The outcome of an evaluation pass over a loader that does not shuffle
    and the line it prints depend on the parameters of the model only: not on
    the mode the model was in, the gradient mode, the optimizer or the
    generator. An evaluation pass repeated on the same parameters prints the
    same summary. *)
Theorem test_depends_on_parameters device test_loader w1 w2 :
  ld_shuffle test_loader = false ->
  w_params w1 = w_params w2 ->
  let r1 := test (O:=O) device test_loader w1 in
  let r2 := test (O:=O) device test_loader w2 in
  fst r1 = fst r2 /\
  printed (new_events w1 (snd r1)) = printed (new_events w2 (snd r2)).
Proof.
  intros Hs Hp. cbv zeta.
  assert (H : forall w,
             exists res wf l,
               test (O:=O) device test_loader w = (res, wf) /\
               w_log wf = w_log w ++ l /\
               (res, printed l)
               = match fst (for_fold (chunks (ld_batch_size test_loader)
                                             (dataset test_loader))
                                     (py_of_int A 0, 0) (test_body (O:=O) device)
                                     (set_training false w)) with
                 | Ok (test_loss, correct) =>
                     if len (dataset test_loader) =? 0
                     then (Raise ZeroDivisionError, [])
                     else (Ok tt,
                           [TestLine
                              (py_div A test_loss (py_of_int A (len (dataset test_loader))))
                              correct (len (dataset test_loader))
                              (py_div A (py_mul A (py_of_int A 100) (py_of_int A correct))
                                      (py_of_int A (len (dataset test_loader))))])
                 | Raise ex => (Raise ex, [])
                 end).
  { intros w. unfold test. erewrite bind_ok by apply model_eval_eq.
    unfold bind at 1. unfold no_grad, emit, modify. unfold bind at 1.
    rewrite iter_loader_in_order by exact Hs.
    match goal with
    | |- context [for_fold ?bs ?acc ?body ?w0] =>
        rewrite <- (@test_loop_params device bs acc w0 (set_training false w)
                      eq_refl eq_refl eq_refl);
        destruct (@test_loop_silent device bs acc w0) as [l1 [El1 Fl1]];
        destruct (for_fold bs acc body w0) as [[[test_loss correct] | ex] w3]
    end; simpl in El1; simpl.
    - unfold py_truediv, print, emit, modify, bind, ret, raise.
      destruct (len (dataset test_loader) =? 0); simpl.
      + do 3 eexists. split; [reflexivity |]. simpl.
        split; [rewrite El1, <- !app_assoc; reflexivity |].
        rewrite !printed_app, (printed_none _ Fl1). reflexivity.
      + do 3 eexists. split; [reflexivity |]. simpl.
        split; [rewrite El1, <- !app_assoc; reflexivity |].
        rewrite !printed_app, (printed_none _ Fl1). reflexivity.
    - do 3 eexists. split; [reflexivity |]. simpl.
      split; [rewrite El1, <- !app_assoc; reflexivity |].
      rewrite !printed_app, (printed_none _ Fl1). reflexivity. }
  destruct (H w1) as [res1 [wf1 [l1 [T1 [El1 E1]]]]].
  destruct (H w2) as [res2 [wf2 [l2 [T2 [El2 E2]]]]].
  rewrite T1, T2. simpl.
  rewrite (@new_events_app _ _ l1 El1), (@new_events_app _ _ l2 El2).
  rewrite (@test_loop_params device _ (py_of_int A 0, 0) (set_training false w1)
             (set_training false w2) eq_refl eq_refl Hp) in E1.
  rewrite <- E2 in E1. inversion E1. split; reflexivity.
Qed.

End Properties.

Unset Implicit Arguments.

(** * The instances *)

(** ** Exact arithmetic *)

Lemma exact_of_int_nonzero n : 0 < n -> Exact.of_int n <> 0%Qc.
Proof.
  intros H E. unfold Exact.of_int in E.
  apply Q2Qc_eq_iff in E. unfold Qeq in E. simpl in E. lia.
Qed.

Lemma exact_percent_all n : 0 < n -> percent (A:=Exact.arith) n n = Exact.of_int 100.
Proof.
  intros Hn. unfold percent. simpl.
  apply Qcdiv_mult_l. apply exact_of_int_nonzero. exact Hn.
Qed.

Lemma exact_percent_none n : percent (A:=Exact.arith) 0 n = Exact.of_int 0.
Proof.
  unfold percent. simpl.
  change (Exact.of_int 0) with 0%Qc. rewrite Qcmult_0_r.
  unfold Qcdiv. apply Qcmult_0_l.
Qed.

Lemma exact_ltb_lt x y : Exact.ltb x y = true <-> (x < y)%Qc.
Proof.
  unfold Exact.ltb. rewrite Qclt_alt. destruct (x ?= y)%Qc; split; congruence.
Qed.

(** The order of the rationals. *)
Lemma exact_ordered : Ordered Exact.arith.
Proof.
  constructor; simpl.
  - intros x y H. destruct (Exact.ltb y x) eqn:E; [| reflexivity].
    apply exact_ltb_lt in H, E. exfalso.
    apply (Qclt_not_le _ _ H). apply Qclt_le_weak. exact E.
  - intros x y z H. rewrite !exact_ltb_lt in *.
    destruct (Qclt_le_dec z y) as [Hz | Hz]; [right; exact Hz |].
    left. eapply Qclt_le_trans; eassumption.
Qed.

(** [S0 * g * ... * g] is [S0 * g ^ n]. *)
Lemma exact_decay (S0 g : Qc) n :
  Nat.iter n (fun x => py_mul Exact.arith x g) S0 = (S0 * g ^ n)%Qc.
Proof.
  induction n as [| n IH].
  - simpl. rewrite Qcmult_1_r. reflexivity.
  - change (Nat.iter (S n) (fun x => py_mul Exact.arith x g) S0)
      with (Nat.iter n (fun x => py_mul Exact.arith x g) S0 * g)%Qc.
    rewrite IH. simpl Qcpower. rewrite <- Qcmult_assoc. f_equal. apply Qcmult_comm.
Qed.

(** ** The table model *)

Lemma table_randperm_ok (A : Arith) : randperm_ok (Table.lib A).
Proof.
  intros r n. simpl. apply Permutation_sym, Permutation_rev.
Qed.

(** ** The order of binary32 scores *)

Lemma nan_ltb_rank x y : IEEE.nan_ltb x y = true <-> IEEE.lex (IEEE.rank x) (IEEE.rank y).
Proof.
  unfold IEEE.lex.
  destruct x as [sx | sx | | sx mx ex], y as [sy | sy | | sy my ey];
    try destruct sx; try destruct sy;
    cbn [IEEE.nan_ltb SFltb SFcompare IEEE.rank fst snd];
    try (split; [discriminate | lia]);
    try (split; [intros _; lia | reflexivity]).
  - change (Pos.compare_cont Eq mx my) with (mx ?= my)%positive.
    destruct (Z.compare_spec ex ey); destruct (Pos.compare_spec mx my);
      cbn [CompOpp]; split; intros; try discriminate; try reflexivity; lia.
  - change (Pos.compare_cont Eq mx my) with (mx ?= my)%positive.
    destruct (Z.compare_spec ex ey); destruct (Pos.compare_spec mx my);
      cbn [CompOpp]; split; intros; try discriminate; try reflexivity; lia.
Qed.

(** With NaN above every number, the comparison orders all binary32
    values. *)
Lemma ieee_ordered : Ordered IEEE.arith.
Proof.
  constructor; simpl.
  - intros x y H. destruct (IEEE.nan_ltb y x) eqn:E; [| reflexivity].
    apply nan_ltb_rank in H, E. unfold IEEE.lex in *. lia.
  - intros x y z H. rewrite !nan_ltb_rank in *. unfold IEEE.lex in *. lia.
Qed.

(** ** Percentages in binary64 *)

Lemma all_from_spec f fuel :
  forall a, all_from f fuel a = true ->
  forall n, a <= n < a + Z.of_nat fuel -> f n = true.
Proof.
  induction fuel as [| fuel IH]; intros a H n Hn; [lia |].
  cbn [all_from] in H. apply andb_true_iff in H. destruct H as [Ha Hrest].
  destruct (Z.eq_dec n a) as [-> | Hne]; [exact Ha |].
  apply (IH (a + 1) Hrest). lia.
Qed.

Lemma same_eq x y : IEEE.same x y = true -> x = y.
Proof.
  destruct x as [s | s | | s m e], y as [s' | s' | | s' m' e']; simpl;
    try discriminate; try reflexivity.
  - intros H. apply Bool.eqb_prop in H. congruence.
  - intros H. apply Bool.eqb_prop in H. congruence.
  - intros H. apply andb_true_iff in H. destruct H as [H He].
    apply andb_true_iff in H. destruct H as [Hs Hm].
    apply Bool.eqb_prop in Hs. apply Pos.eqb_eq in Hm. apply Z.eqb_eq in He.
    congruence.
Qed.

(** Up to 65536 samples (the MNIST sets have 60000 and 10000), [100. * n / n]
    is exactly 100 and [100. * 0 / n] exactly 0. *)
Lemma ieee_percent_checked :
  all_from (fun n =>
              IEEE.same (percent (A:=IEEE.arith) n n) (IEEE.b64_of_int 100) &&
              IEEE.same (percent (A:=IEEE.arith) 0 n) (IEEE.b64_of_int 0))
           (Z.to_nat 65536) 1 = true.
Proof. vm_compute. reflexivity. Qed.

Lemma ieee_percent n :
  0 < n <= 65536 ->
  percent (A:=IEEE.arith) n n = IEEE.b64_of_int 100 /\
  percent (A:=IEEE.arith) 0 n = IEEE.b64_of_int 0.
Proof.
  intros Hn.
  pose proof (all_from_spec _ _ _ ieee_percent_checked n) as H.
  cbv beta in H. rewrite Z2Nat.id in H by lia.
  specialize (H ltac:(lia)). apply andb_true_iff in H. destruct H as [H1 H2].
  split; apply same_eq; assumption.
Qed.

(** ** Rounding in binary64 *)

Lemma digits2_pos_size p : digits2_pos p = Pos.size p.
Proof. induction p; simpl; congruence. Qed.

(** A mantissa of [d] digits lies between [2^(d-1)] and [2^d]. *)
Lemma digits2_bounds p :
  2 ^ (Zpos (digits2_pos p) - 1) <= Zpos p < 2 ^ Zpos (digits2_pos p).
Proof.
  rewrite digits2_pos_size.
  pose proof (Pos.size_gt p) as Hgt. pose proof (Pos.size_le p) as Hle.
  apply Pos2Z.pos_lt_pos in Hgt. apply Pos2Z.pos_le_pos in Hle.
  rewrite Pos2Z.inj_pow in Hgt, Hle.
  assert (H : 2 ^ Zpos (Pos.size p) = 2 * 2 ^ (Zpos (Pos.size p) - 1)).
  { rewrite <- Z.pow_succ_r by lia. f_equal. lia. }
  lia.
Qed.

Lemma iter_pos_nat {X : Type} (f : X -> X) p :
  forall x, iter_pos f p x = Nat.iter (Pos.to_nat p) f x.
Proof.
  induction p as [p IH | p IH |]; intros x; cbn [iter_pos].
  - rewrite !IH, Pos2Nat.inj_xI. rewrite <- Nat.iter_succ_r, <- Nat.iter_add.
    f_equal. lia.
  - rewrite !IH, Pos2Nat.inj_xO, <- Nat.iter_add. f_equal. lia.
  - reflexivity.
Qed.

(** A right shift by one bit. *)
Lemma shr_1_spec m r s :
  0 <= m ->
  shr_1 {| shr_m := m; shr_r := r; shr_s := s |}
  = {| shr_m := m / 2; shr_r := Z.odd m; shr_s := r || s |}.
Proof.
  intros Hm. destruct m as [| p | p]; [reflexivity | | lia].
  destruct p as [p | p |]; simpl shr_1; f_equal.
  - apply (Z.div_unique _ 2 _ 1); lia.
  - apply (Z.div_unique _ 2 _ 0); lia.
Qed.

(** A right shift by [n] bits divides by [2^n]; the round and sticky bits
    say where the remainder lies. *)
Lemma shr_iter n :
  forall m, 0 <= m ->
  exists r s,
    Nat.iter n shr_1 {| shr_m := m; shr_r := false; shr_s := false |}
    = {| shr_m := m / 2 ^ Z.of_nat n; shr_r := r; shr_s := s |} /\
    IEEE.located (2 ^ Z.of_nat n) (m mod 2 ^ Z.of_nat n) r s.
Proof.
  induction n as [| n IH]; intros m Hm.
  - exists false, false. simpl. rewrite Z.div_1_r, Z.mod_1_r. split; reflexivity.
  - destruct (IH m Hm) as [r [s [E Hl]]].
    cbn [Nat.iter nat_rect].
    change (nat_rect _ _ _ n)
      with (Nat.iter n shr_1 {| shr_m := m; shr_r := false; shr_s := false |}).
    rewrite E.
    assert (HP : 0 < 2 ^ Z.of_nat n) by (apply Z.pow_pos_nonneg; lia).
    set (P := 2 ^ Z.of_nat n) in *.
    assert (Ha : 0 <= m / P) by (apply Z.div_pos; lia).
    rewrite shr_1_spec by exact Ha.
    rewrite Nat2Z.inj_succ, Z.pow_succ_r by lia. fold P.
    rewrite Z.div_div by lia. rewrite (Z.mul_comm P 2).
    exists (Z.odd (m / P)), (r || s). split; [reflexivity |].
    pose proof (Z.div_mod m P ltac:(lia)) as Hdm.
    pose proof (Z.mod_pos_bound m P HP) as Hb.
    pose proof (Z.div_mod (m / P) 2 ltac:(lia)) as Hd2.
    pose proof (Z.mod_pos_bound (m / P) 2 ltac:(lia)) as Hb2.
    assert (Hmod : m mod (2 * P) = (m / P mod 2) * P + m mod P).
    { symmetry. apply (Z.mod_unique_pos _ _ (m / P / 2)); nia. }
    rewrite Hmod. clear Hmod.
    rewrite Zmod_odd in *.
    destruct (Z.odd (m / P)); destruct r, s; unfold IEEE.located in *; cbn [orb]; nia.
Qed.

Lemma shr_spec m e k :
  0 <= m ->
  exists r s,
    shr {| shr_m := m; shr_r := false; shr_s := false |} e k
    = ({| shr_m := m / 2 ^ Z.max k 0; shr_r := r; shr_s := s |}, e + Z.max k 0) /\
    IEEE.located (2 ^ Z.max k 0) (m mod 2 ^ Z.max k 0) r s.
Proof.
  intros Hm. destruct k as [| p | p].
  - exists false, false. simpl. rewrite Z.div_1_r, Z.mod_1_r, Z.add_0_r.
    split; reflexivity.
  - unfold shr. rewrite iter_pos_nat.
    destruct (shr_iter (Pos.to_nat p) m Hm) as [r [s [E Hl]]].
    rewrite positive_nat_Z in E, Hl. exists r, s. rewrite E.
    replace (Z.max (Zpos p) 0) with (Zpos p) by lia. split; [reflexivity | exact Hl].
  - exists false, false. simpl. rewrite Z.div_1_r, Z.mod_1_r, Z.add_0_r.
    split; reflexivity.
Qed.

(** Rounding to nearest, ties to even, moves the shifted mantissa by at most
    half a unit. *)
Lemma round_spec P a rem r s :
  0 < P -> 0 <= rem < P -> IEEE.located P rem r s ->
  a <= round_nearest_even a (loc_of_shr_record {| shr_m := a; shr_r := r; shr_s := s |})
    <= a + 1 /\
  2 * Z.abs (round_nearest_even a
               (loc_of_shr_record {| shr_m := a; shr_r := r; shr_s := s |}) * P
             - (a * P + rem)) <= P.
Proof.
  intros HP Hrem Hl. unfold IEEE.located in Hl.
  destruct r, s; cbn [loc_of_shr_record round_nearest_even];
    try destruct (Z.even a); nia.
Qed.

(** The rounding of [M * 2^e] to binary64, when the result is a normal
    number [mz * 2^ez]: the error is at most [M * 2^e / (2^53 - 1)]. *)
Lemma binary_round_aux_error sx (M : positive) e s mz ez :
  binary_round_aux 53 1024 sx (Zpos M) e loc_Exact = S754_finite s mz ez ->
  digits2_pos mz = 53%positive ->
  s = sx /\ e <= ez /\
  (2 ^ 53 - 1) * Z.abs (Zpos mz * 2 ^ (ez - e) - Zpos M) <= Zpos M.
Proof.
  unfold binary_round_aux, shr_fexp. cbn [shr_record_of_loc].
  set (k1 := fexp 53 1024 (Zdigits2 (Zpos M) + e) - e).
  destruct (shr_spec (Zpos M) e k1) as [r [s0 [E1 L1]]]; [lia |].
  rewrite E1. cbn [shr_m].
  set (K1 := Z.max k1 0) in *.
  assert (HK1 : 0 <= K1) by (unfold K1; lia).
  assert (HP : 0 < 2 ^ K1) by (apply Z.pow_pos_nonneg; lia).
  set (P := 2 ^ K1) in *.
  pose proof (Z.mod_pos_bound (Zpos M) P HP) as Hrem.
  pose proof (Z.div_mod (Zpos M) P ltac:(lia)) as Hdm.
  assert (Ha : 0 <= Zpos M / P) by (apply Z.div_pos; lia).
  set (a := Zpos M / P) in *.
  destruct (round_spec P a (Zpos M mod P) r s0 HP Hrem L1) as [HR HD].
  set (R := round_nearest_even a _) in *.
  set (e1 := e + K1).
  set (k2 := fexp 53 1024 (Zdigits2 R + e1) - e1).
  destruct (shr_spec R e1 k2) as [r2 [s2 [E2 L2]]]; [lia |].
  rewrite E2. cbn [shr_m].
  set (K2 := Z.max k2 0) in *.
  pose proof (digits2_bounds M) as HdM.
  assert (Hk1 : k1 = Z.max (Zpos (digits2_pos M) + e - 53) (-1074) - e) by reflexivity.
  assert (Ha53 : a < 2 ^ 53).
  { apply Z.div_lt_upper_bound; [exact HP |].
    unfold P. rewrite <- Z.pow_add_r by lia.
    apply Z.lt_le_trans with (2 ^ Zpos (digits2_pos M)); [lia |].
    apply Z.pow_le_mono_r; lia. }
  assert (Hk2 : k2 = Z.max (Zdigits2 R + e1 - 53) (-1074) - e1) by reflexivity.
  assert (HR2 : exists m2,
             R = Zpos m2 * 2 ^ K2 /\ 0 <= K2 /\ R / 2 ^ K2 = Zpos m2 \/
             R / 2 ^ K2 = 0).
  { destruct R as [| pR | pR] eqn:ER; [| | lia].
    - exists 1%positive. right. apply Z.div_0_l.
      apply Z.pow_nonzero; unfold K2; lia.
    - pose proof (digits2_bounds pR) as HdR. cbn [Zdigits2] in Hk2.
      assert (Hd54 : Zpos (digits2_pos pR) <= 54).
      { destruct (Z.le_gt_cases (Zpos (digits2_pos pR)) 54) as [H | H]; [exact H |].
        exfalso.
        assert (2 ^ 54 <= 2 ^ (Zpos (digits2_pos pR) - 1))
          by (apply Z.pow_le_mono_r; lia).
        change (2 ^ 54) with 18014398509481984 in *.
        change (2 ^ 53) with 9007199254740992 in *. lia. }
      destruct (Z.eq_dec (Zpos (digits2_pos pR)) 54) as [E54 | N54].
      + rewrite E54 in HdR. change (2 ^ (54 - 1)) with 9007199254740992 in HdR.
        change (2 ^ 53) with 9007199254740992 in *.
        assert (EK2 : K2 = 1) by (unfold K2; lia).
        assert (EpR : Zpos pR = 9007199254740992) by lia.
        exists 4503599627370496%positive. left. rewrite EK2, EpR.
        split; [reflexivity |]. split; [lia | reflexivity].
      + assert (EK2 : K2 = 0) by (unfold K2; lia).
        exists pR. left. rewrite EK2. change (2 ^ 0) with 1.
        rewrite Z.div_1_r. split; [lia |]. split; [lia | reflexivity]. }
  destruct HR2 as [m2 [[ER [HK2 Em2]] | Ez]]; [| rewrite Ez; discriminate].
  rewrite Em2.
  destruct (e1 + K2 <=? 1024 - 53); [| discriminate].
  intros H Hd. inversion H; subst s mz ez. clear H.
  split; [reflexivity |]. split; [unfold e1; lia |].
  replace (e1 + K2 - e) with (K2 + K1) by (unfold e1; lia).
  rewrite Z.pow_add_r by lia. fold P.
  rewrite Z.mul_assoc, <- ER.
  pose proof (digits2_bounds m2) as Hdm2. rewrite Hd in Hdm2.
  change (2 ^ (53 - 1)) with 4503599627370496 in Hdm2.
  change (2 ^ 53) with 9007199254740992 in *.
  assert (H2K : 1 <= 2 ^ K2).
  { change 1 with (2 ^ 0). apply Z.pow_le_mono_r; lia. }
  assert (HRP : 4503599627370496 * P <= R * P).
  { apply Z.mul_le_mono_nonneg_r; [lia |]. rewrite ER. nia. }
  rewrite Hdm. fold a. rewrite (Z.mul_comm P a).
  lia.
Qed.

Section Binary64.
Local Open Scope Q_scope.

Lemma two_power_pos e : 0 < 2 ^ e.
Proof. apply Qpower_0_lt. reflexivity. Qed.

Lemma value_pos m e : 0 < IEEE.value (S754_finite false m e).
Proof.
  unfold IEEE.value. pose proof (two_power_pos e).
  assert (0 < inject_Z (Zpos m)) by (unfold Qlt; simpl; lia).
  nra.
Qed.

(** One multiplication of positive binary64 numbers with a normal result:
    the result is the product up to a relative error of [eps]. *)
Lemma b64_mul_error mx ex my ey z :
  IEEE.b64_mul (S754_finite false mx ex) (S754_finite false my ey) = z ->
  IEEE.normal z = true ->
  (exists mz ez, z = S754_finite false mz ez) /\
  Qabs (IEEE.value z
        - IEEE.value (S754_finite false mx ex) * IEEE.value (S754_finite false my ey))
  <= IEEE.eps
     * (IEEE.value (S754_finite false mx ex) * IEEE.value (S754_finite false my ey)).
Proof.
  intros E Hn. destruct z as [| | | s mz ez]; try discriminate.
  unfold IEEE.normal in Hn. apply Pos.eqb_eq in Hn.
  unfold IEEE.b64_mul, SFmul in E. cbn [xorb] in E.
  destruct (binary_round_aux_error _ _ _ _ _ _ E Hn) as [-> [He Hb]].
  split; [eauto |].
  set (e := (ex + ey)%Z) in *. set (j := (ez - e)%Z) in *.
  assert (Hj : (0 <= j)%Z) by (unfold j; lia).
  unfold IEEE.value.
  assert (Ez : 2 ^ ez == inject_Z (2 ^ j) * 2 ^ e).
  { rewrite Zpower_Qpower by exact Hj. rewrite <- Qpower_plus by discriminate.
    replace (j + e)%Z with ez by (unfold j; lia). reflexivity. }
  assert (Exy : 2 ^ ex * 2 ^ ey == 2 ^ e).
  { unfold e. rewrite Qpower_plus by discriminate. reflexivity. }
  pose proof (two_power_pos e) as Hte.
  set (t := 2 ^ e) in *.
  set (a := (Zpos mz * 2 ^ j)%Z) in *.
  set (aq := inject_Z a). set (mq := inject_Z (Zpos (mx * my))).
  assert (Ediff : 1 * inject_Z (Zpos mz) * 2 ^ ez
                  - 1 * inject_Z (Zpos mx) * 2 ^ ex * (1 * inject_Z (Zpos my) * 2 ^ ey)
                  == (aq - mq) * t).
  { unfold aq, mq, a. rewrite inject_Z_mult, Pos2Z.inj_mul, inject_Z_mult.
    rewrite Ez.
    transitivity (inject_Z (Zpos mz) * inject_Z (2 ^ j) * t
                  - inject_Z (Zpos mx) * inject_Z (Zpos my) * (2 ^ ex * 2 ^ ey)); [ring |].
    rewrite Exy. fold t. ring. }
  assert (Eprod : 1 * inject_Z (Zpos mx) * 2 ^ ex * (1 * inject_Z (Zpos my) * 2 ^ ey)
                  == mq * t).
  { unfold mq. rewrite Pos2Z.inj_mul, inject_Z_mult.
    transitivity (inject_Z (Zpos mx) * inject_Z (Zpos my) * (2 ^ ex * 2 ^ ey)); [ring |].
    rewrite Exy. reflexivity. }
  rewrite Ediff, Eprod.
  change (2 ^ 53 - 1)%Z with 9007199254740991%Z in Hb.
  assert (H1 : inject_Z 9007199254740991 * aq <= mq + inject_Z 9007199254740991 * mq).
  { unfold aq, mq. rewrite <- !inject_Z_mult, <- inject_Z_plus, <- Zle_Qle. lia. }
  assert (H2 : inject_Z 9007199254740991 * mq <= mq + inject_Z 9007199254740991 * aq).
  { unfold aq, mq. rewrite <- !inject_Z_mult, <- inject_Z_plus, <- Zle_Qle. lia. }
  clearbody aq mq t. unfold IEEE.eps.
  change (inject_Z 9007199254740991) with (9007199254740991 # 1) in *.
  apply Qabs_Qle_condition. split; nra.
Qed.

Lemma Qpower_succ q n : q ^ Z.of_nat (S n) == q * q ^ Z.of_nat n.
Proof.
  rewrite Nat2Z.inj_succ. unfold Z.succ. rewrite Z.add_comm.
  rewrite Qpower_plus' by lia. rewrite Qpower_1_r. reflexivity.
Qed.

Lemma step_bounds lo hi X v vg v' :
  0 <= lo -> 0 <= hi -> 0 < vg -> 0 <= v ->
  lo * X <= v -> v <= hi * X ->
  Qabs (v' - v * vg) <= IEEE.eps * (v * vg) ->
  (1 - IEEE.eps) * lo * (X * vg) <= v' /\ v' <= (1 + IEEE.eps) * hi * (X * vg).
Proof.
  intros Hlo Hhi Hg Hv Hl Hh Ha.
  apply Qabs_Qle_condition in Ha. destruct Ha as [Ha1 Ha2].
  assert (L2 : lo * X * vg <= v * vg) by (apply Qmult_le_compat_r; lra).
  assert (H2 : v * vg <= hi * X * vg) by (apply Qmult_le_compat_r; lra).
  set (p := v * vg) in *. set (q := lo * X * vg) in *. set (r := hi * X * vg) in *.
  assert (Eq1 : (1 - IEEE.eps) * lo * (X * vg) == (1 - IEEE.eps) * q) by (unfold q; ring).
  assert (Eq2 : (1 + IEEE.eps) * hi * (X * vg) == (1 + IEEE.eps) * r) by (unfold r; ring).
  rewrite Eq1, Eq2. clearbody p q r.
  set (e := IEEE.eps) in *.
  assert (0 <= e <= 1) by (unfold e, IEEE.eps; lra). clearbody e.
  split; nra.
Qed.

(** [n] multiplications by [g] from [S0], all results normal: the result is
    [S0 * g ^ n] up to a factor between [(1 - eps) ^ n] and [(1 + eps) ^ n]. *)
Lemma decay_tolerance m0 e0 mg eg n :
  let S0 := S754_finite false m0 e0 in
  let g := S754_finite false mg eg in
  let rate := fun k => Nat.iter k (fun x => IEEE.b64_mul x g) S0 in
  (forall k, (1 <= k <= n)%nat -> IEEE.normal (rate k) = true) ->
  (1 - IEEE.eps) ^ Z.of_nat n * (IEEE.value S0 * IEEE.value g ^ Z.of_nat n)
  <= IEEE.value (rate n) /\
  IEEE.value (rate n)
  <= (1 + IEEE.eps) ^ Z.of_nat n * (IEEE.value S0 * IEEE.value g ^ Z.of_nat n).
Proof.
  cbv zeta. set (S0 := S754_finite false m0 e0). set (g := S754_finite false mg eg).
  set (rate := fun k => Nat.iter k (fun x => IEEE.b64_mul x g) S0).
  intros Hn.
  assert (H : (exists m e, rate n = S754_finite false m e) /\
              (1 - IEEE.eps) ^ Z.of_nat n * (IEEE.value S0 * IEEE.value g ^ Z.of_nat n)
              <= IEEE.value (rate n) /\
              IEEE.value (rate n)
              <= (1 + IEEE.eps) ^ Z.of_nat n
                 * (IEEE.value S0 * IEEE.value g ^ Z.of_nat n));
    [| exact (proj2 H)].
  induction n as [| n IH].
  - split; [exists m0, e0; reflexivity |].
    change (rate 0%nat) with S0. simpl Z.of_nat. rewrite !Qpower_0_r.
    split; ring_simplify; apply Qle_refl.
  - destruct IH as [[m [e Er]] [Hlo Hhi]]; [intros k Hk; apply Hn; lia |].
    assert (Es : IEEE.b64_mul (S754_finite false m e) (S754_finite false mg eg)
                 = rate (S n)) by (rewrite <- Er; reflexivity).
    destruct (b64_mul_error _ _ _ _ _ Es (Hn (S n) ltac:(lia)))
      as [[mz [ez Ez]] Hb].
    split; [exists mz, ez; exact Ez |].
    rewrite Er in Hlo, Hhi. fold g in Hb.
    rewrite !Qpower_succ.
    assert (H0 : 0 <= 1 - IEEE.eps) by (unfold IEEE.eps; lra).
    assert (H1 : 0 <= 1 + IEEE.eps) by (unfold IEEE.eps; lra).
    pose proof (Qpower_0_le _ (Z.of_nat n) H0) as Hl0.
    pose proof (Qpower_0_le _ (Z.of_nat n) H1) as Hh0.
    pose proof (value_pos mg eg) as Hg. fold g in Hg.
    pose proof (value_pos m e) as Hv.
    destruct (step_bounds _ _ _ _ _ _ Hl0 Hh0 Hg (Qlt_le_weak _ _ Hv) Hlo Hhi Hb)
      as [B1 B2].
    split.
    + eapply Qle_trans; [| exact B1]. apply Qle_lteq. right. ring.
    + eapply Qle_trans; [exact B2 |]. apply Qle_lteq. right. ring.
Qed.
End Binary64.

(** * The schedule of the step-size *)

(** C3.  With decay interval 1, [n] advances of the scheduler take the
    step-size [S0] to [S0] multiplied [n] times by the decay factor [g], in
    the arithmetic of the program; a run that completes has advanced the
    scheduler once for each epoch, from [--lr] with [--gamma].  In exact
    arithmetic that step-size is [S0 * g ^ n].  In binary64, for positive
    [S0] and [g] and as long as the step-sizes are normal numbers (no
    overflow, no underflow), it is [S0 * g ^ n] within a relative tolerance
    of [n] roundings: between [(1 - eps) ^ n] and [(1 + eps) ^ n] times that
    number, with [eps = 1 / (2^53 - 1)]. *)
Theorem scheduler_decays_geometrically :
  (forall (A : Arith) (S0 g : pyfloat A) (n : nat),
     snd (advances n (@Build_StepLR A 0 S0 g 1) S0)
     = Nat.iter n (fun x => py_mul A x g) S0) /\
  (forall (A : Arith) (L : TensorLib A) (O : Optim L) args env (w w' : World O),
     main args env w = (Ok tt, w') ->
     w_lr w'
     = snd (advances (Z.to_nat (epochs args))
                     (@Build_StepLR A 0 (lr args) (gamma args) 1) (lr args))) /\
  (forall (S0 g : Qc) (n : nat),
     snd (advances n (@Build_StepLR Exact.arith 0 S0 g 1) S0) = (S0 * g ^ n)%Qc) /\
  (forall m0 e0 mg eg (n : nat),
     let S0 := S754_finite false m0 e0 in
     let g := S754_finite false mg eg in
     let rate := fun k => snd (advances k (@Build_StepLR IEEE.arith 0 S0 g 1) S0) in
     forallb (fun k => IEEE.normal (rate k)) (seq 1 n) = true ->
     ((1 - IEEE.eps) ^ Z.of_nat n * (IEEE.value S0 * IEEE.value g ^ Z.of_nat n)
      <= IEEE.value (rate n) /\
      IEEE.value (rate n)
      <= (1 + IEEE.eps) ^ Z.of_nat n * (IEEE.value S0 * IEEE.value g ^ Z.of_nat n))%Q).
Proof.
  assert (Hadv : forall (A : Arith) (S0 g : pyfloat A) (n : nat),
             snd (advances n (@Build_StepLR A 0 S0 g 1) S0)
             = Nat.iter n (fun x => py_mul A x g) S0).
  { intros A S0 g n.
    destruct (@advances_every_epoch A n (@Build_StepLR A 0 S0 g 1) S0 eq_refl)
      as [_ [_ [_ H]]].
    exact H. }
  split; [exact Hadv |]. split; [| split].
  - intros A L O args env w w' H.
    rewrite Hadv. apply (@main_decays_rate A L O args env w w' H).
  - intros S0 g n. rewrite Hadv. apply exact_decay.
  - intros m0 e0 mg eg n S0 g rate Hn.
    assert (Er : forall k, rate k = Nat.iter k (fun x => IEEE.b64_mul x g) S0)
      by (intros k; unfold rate; rewrite Hadv; reflexivity).
    rewrite Er. apply decay_tolerance.
    intros k Hk. rewrite <- Er.
    apply (proj1 (forallb_forall _ _) Hn). apply in_seq. lia.
Qed.

(** * The accuracy of an evaluation pass *)

(** C8.  An evaluation pass over a non-empty set of evaluable samples prints
    exactly one line.  Its sample count is the size of the set; its count of
    correct samples is the number of samples of the set that are hits,
    whatever the batches; its accuracy is [100. * correct / total].  A sample
    is a hit when its label is the arg-max class of the row the model gives
    it: the first index at which the row has a largest score.  When every
    sample is a hit the count is the total; when none is, it is 0.  The
    comparison the arg-max goes by is an order in exact arithmetic and in
    binary32; [100. * n / n] is 100 and [100. * 0 / n] is 0 in exact
    arithmetic, and exactly so in binary64 for sets of up to 65536 samples. *)
Theorem test_reports_accuracy :
  (forall (A : Arith) (L : TensorLib A) (O : Optim L) device
          (test_loader : DataLoader (L:=L)) (w : World O),
     randperm_ok L ->
     dataset test_loader <> [] ->
     forallb (evaluable (w_params w)) (dataset test_loader) = true ->
     exists w' avg correct,
       test device test_loader w = (Ok tt, w') /\
       printed (new_events w w')
       = [TestLine avg correct (len (dataset test_loader))
                   (percent correct (len (dataset test_loader)))] /\
       correct = len (filter (is_hit (w_params w)) (dataset test_loader)) /\
       (Ordered A ->
        forall s,
          is_hit (w_params w) s = true <->
          exists row,
            eval_row (w_params w) (fst s) = Some row /\
            first_max (scores L row) (snd s)) /\
       (forallb (is_hit (w_params w)) (dataset test_loader) = true ->
        correct = len (dataset test_loader)) /\
       (forallb (fun s => negb (is_hit (w_params w) s)) (dataset test_loader) = true ->
        correct = 0)) /\
  Ordered Exact.arith /\
  Ordered IEEE.arith /\
  (forall n, 0 < n ->
     percent (A:=Exact.arith) n n = Exact.of_int 100 /\
     percent (A:=Exact.arith) 0 n = Exact.of_int 0) /\
  (forall n, 0 < n <= 65536 ->
     percent (A:=IEEE.arith) n n = IEEE.b64_of_int 100 /\
     percent (A:=IEEE.arith) 0 n = IEEE.b64_of_int 0).
Proof.
  split; [| split; [exact exact_ordered | split; [exact ieee_ordered | split]]].
  - intros A L O device test_loader w Hperm Hne Hev.
    destruct (@test_accuracy_line A L O device test_loader w Hperm Hne Hev)
      as [w' [avg [Et Epr]]].
    exists w', avg, (hits (w_params w) (dataset test_loader)).
    split; [exact Et |]. split; [exact Epr |]. split; [reflexivity |].
    split; [| split].
    + intros HO s. apply is_hit_first_max. exact HO.
    + apply hits_all.
    + apply hits_none.
  - intros n Hn. split; [apply exact_percent_all; exact Hn | apply exact_percent_none].
  - exact ieee_percent.
Qed.

(** * Runs of the table model *)

(** A computation that completes, with the state it ends in. *)
Lemma completed {X S : Type} (r : Res X * S) (x : X) :
  fst r = Ok x -> r = (Ok x, snd r).
Proof. destruct r as [res s]. simpl. intros ->. reflexivity. Qed.

(** The first round of a training pass over the three samples in batches of
    two: the batch has losses 1 and 3, the line shows their mean. *)
Lemma train_follows_protocol_run :
  let b := firstn 2 Runs.samples in
  let w1 := snd (train_body Runs.args Cpu (Runs.loader 2 false) 1 (0, b) Runs.start) in
  (exists rows w2 losses_,
     forward (map fst b) (forward_state Runs.start b) = (Ok rows, w2) /\
     nlls (combine rows (map snd b)) losses_ /\
     new_events Runs.start w1 =
       [EvZeroGrad; EvForward (w_training Runs.start) true (length b); EvNllLoss Mean;
        EvBackward; EvOptStep] ++
       (if 0 mod log_interval Runs.args =? 0
        then [EvPrint (TrainLine 1 (0 * len b) (len (dataset (Runs.loader 2 false)))
                                 (percent 0 (loader_len (Runs.loader 2 false)))
                                 (item Exact.arith (mean_loss losses_)))]
        else []) /\
     w_grads w1 = batch_grads Runs.start b /\
     (w_params w1, w_acc w1) = batch_update Runs.start b /\
     w_lr w1 = w_lr Runs.start) /\
  map Runs.line_loss (printed (new_events Runs.start w1)) = [Some (2 # 1)%Q].
Proof.
  cbv zeta. split.
  - apply (proj1 (proj2 (@train_follows_protocol Exact.arith Runs.lib Runs.optim))
             Runs.args Cpu (Runs.loader 2 false) 1 0 (firstn 2 Runs.samples)
             Runs.start Continue).
    apply completed. vm_compute. reflexivity.
  - vm_compute. reflexivity.
Defined.

(** Three advances from step-size 0.1 with decay 0.7, in binary64. *)
Lemma scheduler_decays_geometrically_run :
  let rate := fun k =>
    snd (advances k (@Build_StepLR IEEE.arith 0 Runs.tenth Runs.seven_tenths 1)
                  Runs.tenth) in
  rate 3%nat = S754_finite false 4943150951001856 (-57) /\
  ((1 - IEEE.eps) ^ 3 * (IEEE.value Runs.tenth * IEEE.value Runs.seven_tenths ^ 3)
   <= IEEE.value (rate 3%nat) /\
   IEEE.value (rate 3%nat)
   <= (1 + IEEE.eps) ^ 3 * (IEEE.value Runs.tenth * IEEE.value Runs.seven_tenths ^ 3))%Q.
Proof.
  cbv zeta. split; [vm_compute; reflexivity |].
  apply (proj2 (proj2 (proj2 scheduler_decays_geometrically))
           7205759403792794%positive (-56) 6305039478318694%positive (-53) 3%nat).
  vm_compute. reflexivity.
Defined.

(** A training pass over three samples in batches of two, as a dry run. *)
Lemma dry_run_stops_after_first_report_run :
  train (set_dry_run true Runs.args) Cpu (Runs.loader 2 false) 1 Runs.start
  = train_upto 1 (set_dry_run true Runs.args) Cpu (Runs.loader 2 false) 1
               Runs.start /\
  Z.of_nat (count_events is_zero_grad
              (new_events Runs.start
                 (snd (train (set_dry_run true Runs.args) Cpu (Runs.loader 2 false) 1
                             Runs.start))))
  <= log_interval (set_dry_run true Runs.args) /\
  (fst (train (set_dry_run true Runs.args) Cpu (Runs.loader 2 false) 1 Runs.start)
   = Ok tt ->
   new_events Runs.start
     (snd (train (set_dry_run true Runs.args) Cpu (Runs.loader 2 false) 1 Runs.start))
   = [EvTrainMode; EvIter 0] \/
   exists n m line,
     new_events Runs.start
       (snd (train (set_dry_run true Runs.args) Cpu (Runs.loader 2 false) 1 Runs.start))
     = EvTrainMode :: EvIter n :: cycle m ++ [EvPrint line]).
Proof.
  apply (@dry_run_stops_after_first_report Exact.arith Runs.lib Runs.optim
           (set_dry_run true Runs.args) Cpu (Runs.loader 2 false) 1 Runs.start).
  - reflexivity.
  - simpl. lia.
Defined.

Lemma dry_run_processes_one_batch_run :
  let w' := snd (train (set_dry_run true Runs.args) Cpu (Runs.loader 2 true) 1
                       Runs.start) in
  count_events is_zero_grad (new_events Runs.start w') = 1%nat /\
  count_events is_forward (new_events Runs.start w') = 1%nat /\
  count_events is_opt_step (new_events Runs.start w') = 1%nat /\
  (exists n b w0 line,
     new_events Runs.start w'
     = EvTrainMode :: EvIter n :: cycle (length b) ++ [EvPrint line] /\
     (w_params w', w_acc w') = batch_update w0 b) /\
  (forall k, 0 < k ->
     train (set_log_interval k (set_dry_run true Runs.args)) Cpu (Runs.loader 2 true) 1
           Runs.start = (Ok tt, w')).
Proof.
  apply (@dry_run_processes_one_batch Exact.arith Runs.lib Runs.optim
           (set_dry_run true Runs.args) Cpu (Runs.loader 2 true) 1 Runs.start).
  - reflexivity.
  - simpl. lia.
  - apply table_randperm_ok.
  - discriminate.
  - apply completed. vm_compute. reflexivity.
Defined.

(** A run of two epochs that saves the model. *)
Lemma main_runs_epochs_in_order_run :
  exists train_loader test_loader s0 w0 s1 w1,
    dataset train_loader = mnist_train Runs.env /\
    Zpos (ld_batch_size train_loader) = batch_size Runs.args /\
    dataset test_loader = mnist_test Runs.env /\
    Zpos (ld_batch_size test_loader) = test_batch_size Runs.args /\
    w_log w0 = w_log Runs.start /\
    Epochs Runs.args (device_of Runs.args Runs.env) train_loader test_loader
           (map Z.of_nat (seq 1 (Z.to_nat (epochs Runs.args)))) s0 w0 s1 w1 /\
    phases (new_events Runs.start w1)
    = concat (map (fun _ => [EvTrainMode; EvEvalMode; EvSchedStep])
                  (seq 1 (Z.to_nat (epochs Runs.args)))) /\
    w_disk w1 = w_disk Runs.start /\
    existsb is_save (new_events Runs.start w1) = false /\
    snd (main Runs.args Runs.env Runs.start)
    = if save_model Runs.args
      then set_disk (("mnist_cnn.pt"%string, w_params w1) :: w_disk w1)
                    (set_log (w_log w1 ++ [EvSave "mnist_cnn.pt"]) w1)
      else w1.
Proof.
  apply (proj1 (@main_runs_epochs_in_order Exact.arith Runs.lib Runs.optim
                  Runs.args Runs.env Runs.start)).
  apply completed. vm_compute. reflexivity.
Defined.

(** After that run, the model is in evaluation mode. *)
Lemma evaluation_mode_persists_run :
  w_training (snd (main Runs.args Runs.env Runs.start)) = false /\
  (forall p x, dropout p x (snd (main Runs.args Runs.env Runs.start))
               = (Ok x, snd (main Runs.args Runs.env Runs.start))) /\
  (forall x,
     forward x (snd (main Runs.args Runs.env Runs.start))
     = (or_raise RuntimeError
          (map_opt (eval_row (w_params (snd (main Runs.args Runs.env Runs.start)))) x),
        snd (main Runs.args Runs.env Runs.start))).
Proof.
  apply (proj2 (proj2 (@evaluation_mode_persists Exact.arith Runs.lib Runs.optim))
           Runs.args Runs.env Runs.start).
  - apply completed. vm_compute. reflexivity.
  - simpl. lia.
Defined.

(** An evaluation pass over two hits, and one over two misses. *)
Lemma test_reports_accuracy_run :
  (exists w' avg,
     test Cpu (Runs.loader_of Runs.all_hits) Runs.start = (Ok tt, w') /\
     printed (new_events Runs.start w') = [@TestLine Exact.arith avg 2 2 (Runs.q 100)]) /\
  (exists w' avg,
     test Cpu (Runs.loader_of Runs.no_hit) Runs.start = (Ok tt, w') /\
     printed (new_events Runs.start w') = [@TestLine Exact.arith avg 0 2 (Runs.q 0)]) /\
  (is_hit (w_params Runs.start) ([Runs.q (-2); Runs.q (-3); Runs.q (-1)], 2) = true <->
   exists row,
     eval_row (w_params Runs.start) [Runs.q (-2); Runs.q (-3); Runs.q (-1)] = Some row /\
     first_max (scores Runs.lib row) 2).
Proof.
  destruct test_reports_accuracy as [Hgen [Hord [_ [Hpct _]]]].
  split; [| split].
  - destruct (Hgen Exact.arith Runs.lib Runs.optim Cpu (Runs.loader_of Runs.all_hits)
                Runs.start (table_randperm_ok Exact.arith))
      as [w' [avg [correct [Et [Epr [_ [_ [Hall _]]]]]]]].
    + discriminate.
    + vm_compute. reflexivity.
    + exists w', avg. split; [exact Et |].
      rewrite Epr, (Hall eq_refl).
      change (len (dataset (Runs.loader_of Runs.all_hits))) with 2.
      rewrite (proj1 (Hpct 2 eq_refl)). reflexivity.
  - destruct (Hgen Exact.arith Runs.lib Runs.optim Cpu (Runs.loader_of Runs.no_hit)
                Runs.start (table_randperm_ok Exact.arith))
      as [w' [avg [correct [Et [Epr [_ [_ [_ Hnone]]]]]]]].
    + discriminate.
    + vm_compute. reflexivity.
    + exists w', avg. split; [exact Et |].
      rewrite Epr, (Hnone eq_refl).
      change (len (dataset (Runs.loader_of Runs.no_hit))) with 2.
      rewrite (proj2 (Hpct 2 eq_refl)). reflexivity.
  - destruct (Hgen Exact.arith Runs.lib Runs.optim Cpu (Runs.loader_of Runs.all_hits)
                Runs.start (table_randperm_ok Exact.arith))
      as [w' [avg [correct [_ [_ [_ [Hhit _]]]]]]].
    + discriminate.
    + vm_compute. reflexivity.
    + apply (Hhit Hord).
Defined.

(** * Floating point *)

(** C5, at a last batch that is not full.  Three training samples in batches
    of two, a progress line for every batch: the line for the second batch
    (index 1, one sample) shows 1 sample processed, where 2 samples were
    processed before that batch and 3 including it. *)
Lemma train_report_miscounts_last_batch :
  fst (train Runs.fargs Cpu Runs.train_loader 1 Runs.fstart) = Ok tt /\
  map (@length _) (chunks 2 Runs.three_samples) = [2; 1]%nat /\
  map Runs.shown_processed
      (printed (new_events Runs.fstart
                  (snd (train Runs.fargs Cpu Runs.train_loader 1 Runs.fstart))))
  = [Some 0; Some 1] /\
  map (Runs.samples_before (chunks 2 Runs.three_samples)) [0; 1]%nat = [0; 2] /\
  map (Runs.samples_upto (chunks 2 Runs.three_samples)) [0; 1]%nat = [2; 3].
Proof. repeat split; vm_compute; reflexivity. Qed.

(** The hits of the exact datasets. *)
Lemma hits_of_runs :
  hits (w_params Runs.start) Runs.samples = 2 /\
  hits (w_params Runs.start) Runs.all_hits = len Runs.all_hits /\
  hits (w_params Runs.start) Runs.no_hit = 0.
Proof. repeat split; vm_compute; reflexivity. Qed.

(** * Further runs of the table model *)

(** A training pass with a log interval of 0. *)
Lemma train_zero_log_interval_run :
  exists ex w',
    train (set_log_interval 0 Runs.args) Cpu (Runs.loader 2 false) 1 Runs.start
    = (Raise ex, w') /\
    printed (new_events Runs.start w') = [] /\
    (count_events is_opt_step (new_events Runs.start w') <= 1)%nat /\
    (ex = ZeroDivisionError ->
     count_events is_opt_step (new_events Runs.start w') = 1%nat /\
     exists b batches w0,
       iter_loader (Runs.loader 2 false) (snd (model_train Runs.start))
       = (Ok (b :: batches), w0) /\
       (w_params w', w_acc w') = batch_update w0 b).
Proof.
  apply (@train_zero_log_interval Exact.arith Runs.lib Runs.optim
           (set_log_interval 0 Runs.args) Cpu (Runs.loader 2 false) 1 Runs.start).
  - reflexivity.
  - apply table_randperm_ok.
  - discriminate.
Defined.

(** The options of the runs are accepted. *)
Lemma runs_accepted epochs_ :
  accepted (set_epochs epochs_ Runs.args) Runs.env.
Proof.
  split; [split; vm_compute; intros H; discriminate |].
  split; [reflexivity |]. split; [reflexivity |].
  split; [intros H; discriminate |].
  vm_compute. reflexivity.
Qed.

(** Runs with [--seed 18446744073709551616], with [--batch-size 0], with
    [--lr -1]. *)
Lemma main_rejects_options_run :
  (exists ex,
     main (Runs.with_seed (2 ^ 64)) Runs.env Runs.start = (Raise ex, Runs.start)) /\
  main (set_batch_size 0 Runs.args) Runs.env Runs.start
  = (Raise ValueError, set_rng (manual_seed Runs.lib 1) Runs.start) /\
  exists w',
    main (Runs.with_rate (Runs.q (-1))) Runs.env Runs.start = (Raise ValueError, w') /\
    new_events Runs.start w' = [] /\
    w_disk w' = w_disk Runs.start.
Proof.
  split; [| split].
  - apply (proj1 (@main_rejects_options Exact.arith Runs.lib Runs.optim
                    (Runs.with_seed (2 ^ 64)) Runs.env Runs.start)).
    intros [_ H]. vm_compute in H. apply H. reflexivity.
  - apply (proj1 (proj2 (@main_rejects_options Exact.arith Runs.lib Runs.optim
                           (set_batch_size 0 Runs.args) Runs.env Runs.start))).
    + split; vm_compute; intros H; discriminate.
    + left. simpl. lia.
  - apply (proj2 (proj2 (@main_rejects_options Exact.arith Runs.lib Runs.optim
                           (Runs.with_rate (Runs.q (-1))) Runs.env Runs.start))).
    + split; vm_compute; intros H; discriminate.
    + reflexivity.
    + reflexivity.
    + intros H. discriminate.
    + vm_compute. reflexivity.
Defined.

(** A run with [--epochs 0 --save-model], and the same with [--lr -1]. *)
Lemma main_without_epochs_run :
  (exists w',
     main (set_epochs 0 Runs.args) Runs.env Runs.start = (Ok tt, w') /\
     w_params w'
     = fst (net_init Runs.optim (manual_seed Runs.lib (seed (set_epochs 0 Runs.args)))) /\
     w_acc w' = adadelta_init Runs.optim (w_params w') /\
     w_lr w' = lr (set_epochs 0 Runs.args) /\
     new_events Runs.start w'
     = (if save_model (set_epochs 0 Runs.args) then [EvSave "mnist_cnn.pt"] else []) /\
     w_disk w' = (if save_model (set_epochs 0 Runs.args)
                  then ("mnist_cnn.pt"%string, w_params w') :: w_disk Runs.start
                  else w_disk Runs.start)) /\
  fst (main (set_epochs 0 (Runs.with_rate (Runs.q (-1)))) Runs.env Runs.start) <> Ok tt.
Proof.
  split.
  - apply (proj2 (@main_without_epochs Exact.arith Runs.lib Runs.optim
                    (set_epochs 0 Runs.args) Runs.env Runs.start
                    ltac:(simpl; lia))).
    apply runs_accepted.
  - intros H.
    apply (proj1 (@main_without_epochs Exact.arith Runs.lib Runs.optim
                    (set_epochs 0 (Runs.with_rate (Runs.q (-1)))) Runs.env Runs.start
                    ltac:(simpl; lia))) in H.
    destruct H as [_ [_ [_ [_ H]]]]. vm_compute in H. discriminate.
Defined.

(** The same run from a state left by other work: another generator state,
    the model in evaluation mode. *)
Lemma main_starts_afresh_run :
  main Runs.args Runs.env Runs.start
  = main Runs.args Runs.env (set_training false (set_rng (O:=Runs.optim) 7 Runs.start)).
Proof.
  apply (@main_starts_afresh Exact.arith Runs.lib Runs.optim Runs.args Runs.env
           Runs.start (set_training false (set_rng (O:=Runs.optim) 7 Runs.start)));
    try reflexivity.
  apply (runs_accepted 2).
Defined.

(** An evaluation pass over a sample with the ignored label completes; one
    over a sample whose label has no entry in the row does not. *)
Lemma test_completes_iff_run :
  fst (test Cpu (Runs.loader_of [([Runs.q (-1); Runs.q (-2); Runs.q (-3)], -100)])
            Runs.start) = Ok tt /\
  fst (test Cpu (Runs.loader_of [([Runs.q (-1); Runs.q (-2); Runs.q (-3)], 3)])
            Runs.start) <> Ok tt.
Proof.
  split.
  - apply (proj2 (@test_completes_iff Exact.arith Runs.lib Runs.optim Cpu
                    (Runs.loader_of [([Runs.q (-1); Runs.q (-2); Runs.q (-3)], -100)])
                    Runs.start (table_randperm_ok Exact.arith))).
    split; [discriminate | vm_compute; reflexivity].
  - intros H.
    apply (proj1 (@test_completes_iff Exact.arith Runs.lib Runs.optim Cpu
                    (Runs.loader_of [([Runs.q (-1); Runs.q (-2); Runs.q (-3)], 3)])
                    Runs.start (table_randperm_ok Exact.arith))) in H.
    destruct H as [_ H]. vm_compute in H. discriminate.
Defined.

(** The progress lines of a training pass over three samples in batches of
    two, with a line for every batch. *)
Lemma train_progress_lines_run :
  exists batches,
    fst (iter_loader (Runs.loader 2 false) (snd (model_train Runs.start))) = Ok batches /\
    len batches = loader_len (Runs.loader 2 false) /\
    Forall2
      (fun it line =>
         0 <= fst it < loader_len (Runs.loader 2 false) /\
         exists loss,
           line = TrainLine 1 (fst it * len (snd it)) (len (dataset (Runs.loader 2 false)))
                            (percent (fst it) (loader_len (Runs.loader 2 false))) loss)
      (filter (fun it => fst it mod log_interval Runs.args =? 0) (enumerate batches))
      (printed (new_events Runs.start
                  (snd (train Runs.args Cpu (Runs.loader 2 false) 1 Runs.start)))).
Proof.
  apply (@train_progress_lines Exact.arith Runs.lib Runs.optim
           Runs.args Cpu (Runs.loader 2 false) 1 Runs.start).
  - apply table_randperm_ok.
  - reflexivity.
  - apply completed. vm_compute. reflexivity.
Defined.

Lemma train_progress_count_run :
  len (printed (new_events Runs.start
                  (snd (train Runs.args Cpu (Runs.loader 1 true) 1 Runs.start))))
  = (loader_len (Runs.loader 1 true) + log_interval Runs.args - 1)
    / log_interval Runs.args.
Proof.
  apply (@train_progress_count Exact.arith Runs.lib Runs.optim
           Runs.args Cpu (Runs.loader 1 true) 1 Runs.start).
  - apply table_randperm_ok.
  - reflexivity.
  - simpl. lia.
  - apply completed. vm_compute. reflexivity.
Defined.

(** A shuffled training pass over the three samples in batches of two. *)
Lemma train_visits_every_sample_run :
  exists batches,
    fst (iter_loader (Runs.loader 2 true) (snd (model_train Runs.start))) = Ok batches /\
    Permutation (concat batches) (dataset (Runs.loader 2 true)) /\
    Forall (fun b => 0 < len b <= Zpos (ld_batch_size (Runs.loader 2 true))) batches /\
    len batches
    = (len (dataset (Runs.loader 2 true)) + Zpos (ld_batch_size (Runs.loader 2 true)) - 1)
      / Zpos (ld_batch_size (Runs.loader 2 true)) /\
    filter is_forward
      (new_events Runs.start
         (snd (train Runs.args Cpu (Runs.loader 2 true) 1 Runs.start)))
    = map (fun b => EvForward true true (length b)) batches /\
    count_events is_opt_step
      (new_events Runs.start
         (snd (train Runs.args Cpu (Runs.loader 2 true) 1 Runs.start)))
    = length batches.
Proof.
  apply (@train_visits_every_sample Exact.arith Runs.lib Runs.optim
           Runs.args Cpu (Runs.loader 2 true) 1 Runs.start).
  - apply table_randperm_ok.
  - reflexivity.
  - apply completed. vm_compute. reflexivity.
Defined.

(** The console of the run of two epochs. *)
Lemma main_console_run :
  exists blocks,
    printed (new_events Runs.start (snd (main Runs.args Runs.env Runs.start)))
    = concat blocks /\
    Forall2 (fun epoch block =>
               exists progress summary,
                 block = progress ++ [summary] /\
                 forallb (is_progress_of epoch) progress = true /\
                 is_summary summary = true)
            (range 1 (epochs Runs.args + 1)) blocks.
Proof.
  apply (@main_console Exact.arith Runs.lib Runs.optim Runs.args Runs.env Runs.start).
  apply completed. vm_compute. reflexivity.
Defined.

(** An evaluation pass and the same pass again. *)
Lemma test_depends_on_parameters_run :
  let again := snd (test Cpu (Runs.loader 2 false) Runs.start) in
  fst (test Cpu (Runs.loader 2 false) Runs.start)
  = fst (test Cpu (Runs.loader 2 false) again) /\
  printed (new_events Runs.start (snd (test Cpu (Runs.loader 2 false) Runs.start)))
  = printed (new_events again (snd (test Cpu (Runs.loader 2 false) again))).
Proof.
  apply (@test_depends_on_parameters Exact.arith Runs.lib Runs.optim Cpu
           (Runs.loader 2 false) Runs.start
           (snd (test Cpu (Runs.loader 2 false) Runs.start))).
  - reflexivity.
  - vm_compute. reflexivity.
Defined.

(** The summary of an evaluation pass over the three samples. *)
Lemma test_counts_within_total_run :
  exists avg correct accuracy,
    printed (new_events Runs.start (snd (test Cpu (Runs.loader 2 true) Runs.start)))
    = [TestLine avg correct (len (dataset (Runs.loader 2 true))) accuracy] /\
    0 <= correct <= len (dataset (Runs.loader 2 true)) /\
    0 < len (dataset (Runs.loader 2 true)).
Proof.
  apply (@test_counts_within_total Exact.arith Runs.lib Runs.optim Cpu
           (Runs.loader 2 true) Runs.start).
  - apply table_randperm_ok.
  - apply completed. vm_compute. reflexivity.
Defined.
